(** * opcua-bridging: export, clone and name normalisation of an OPC UA
      address space ([asyncua_utils/nodes.py]), and the set-up of the
      server ([asyncua_utils/server.py])

    The development embeds the three functions of [nodes.py] that walk a
    node tree -- [browse_nodes], [clone_nodes], [add_variable] -- and the two
    helpers [fix_name] and [check_if_object_is_from_module], and states the
    properties of the design document about them.  It then embeds the two
    functions of [server.py], [server_with_certificates] and
    [server_from_yaml], and states further properties of both files.

    Conventions of the embedding.
    - A Python [str] is a [string]; every character is a code point below
      256.  In that range the characters matched by the regular expression
      class [\d] are exactly [0] .. [9].
    - A Python [int] is a [Z].
    - The [asyncua] client and server objects are interfaces the code only
      calls: they are records of functions ([Provider] for the address space
      that is read, [Target] for the address space that is written).
    - A coroutine is run to completion: [await e] is the evaluation of [e].
      The code never schedules two coroutines at once.
    - Logging, the provider calls that were issued, the list objects that
      hold the accumulated path and the instants the clock will give live in
      an explicit [World]; an exception is the [Raise] outcome of a
      computation. *)

From Stdlib Require Import ZArith Ascii DecimalString DecimalPos.
From stdpp Require Import base list strings.

Set Warnings "-register-all".

Local Open Scope string_scope.
Local Open Scope Z_scope.
Local Open Scope list_scope.

(** ** Values of the interpreter the code inspects *)

(** A node reference: the identity of an [asyncua.Node] object. *)
Abbreviation Node := nat (only parsing).

(** Exceptions that can reach the code.  The first four are the status-code
    errors imported by name; all of them and [UaErrorOther] derive from
    [ua.UaError].  [SystemExit] is what the builtin [exit] raises. *)
Inductive Exc :=
| BadOutOfService
| BadAttributeIdInvalid
| BadInternalError
| BadSecurityModeInsufficient
| UaErrorOther (what : string)
| KeyError (key : string)
| NotImplementedError
| SystemExit (code : Z)
| OtherException (what : string).

Definition is_UaError (e : Exc) : bool :=
  match e with
  | BadOutOfService | BadAttributeIdInvalid | BadInternalError
  | BadSecurityModeInsufficient | UaErrorOther _ => true
  | _ => false
  end.

(** The tuple of the [except] clause around [node.get_value()]. *)
Definition is_value_read_error (e : Exc) : bool :=
  match e with
  | BadOutOfService | BadAttributeIdInvalid | BadInternalError
  | BadSecurityModeInsufficient => true
  | _ => false
  end.

(** [asyncua.ua.NodeClass], an [IntEnum]. *)
Inductive NodeClass :=
| NC_Unspecified | NC_Object | NC_Variable | NC_Method | NC_ObjectType
| NC_VariableType | NC_ReferenceType | NC_DataType | NC_View.

Definition NodeClass_value (c : NodeClass) : Z :=
  match c with
  | NC_Unspecified => 0 | NC_Object => 1 | NC_Variable => 2 | NC_Method => 4
  | NC_ObjectType => 8 | NC_VariableType => 16 | NC_ReferenceType => 32
  | NC_DataType => 64 | NC_View => 128
  end.

Definition NodeClass_name (c : NodeClass) : string :=
  match c with
  | NC_Unspecified => "Unspecified" | NC_Object => "Object"
  | NC_Variable => "Variable" | NC_Method => "Method"
  | NC_ObjectType => "ObjectType" | NC_VariableType => "VariableType"
  | NC_ReferenceType => "ReferenceType" | NC_DataType => "DataType"
  | NC_View => "View"
  end.

(** [asyncua.ua.VariantType]: the built-in types of OPC UA.  It is an
    [IntEnum]: a member is the integer that is its value, so it is truthy
    unless that value is 0, and 0 is the value of [Null] alone. *)
Inductive VariantType :=
| VT_Null | VT_Boolean | VT_SByte | VT_Byte | VT_Int16 | VT_UInt16
| VT_Int32 | VT_UInt32 | VT_Int64 | VT_UInt64 | VT_Float | VT_Double
| VT_String | VT_DateTime | VT_Guid | VT_ByteString | VT_XmlElement
| VT_NodeId | VT_ExpandedNodeId | VT_StatusCode | VT_QualifiedName
| VT_LocalizedText | VT_ExtensionObject | VT_DataValue | VT_Variant
| VT_DiagnosticInfo.

Definition VariantType_name (t : VariantType) : string :=
  match t with
  | VT_Null => "Null" | VT_Boolean => "Boolean" | VT_SByte => "SByte"
  | VT_Byte => "Byte"
  | VT_Int16 => "Int16" | VT_UInt16 => "UInt16" | VT_Int32 => "Int32"
  | VT_UInt32 => "UInt32" | VT_Int64 => "Int64" | VT_UInt64 => "UInt64"
  | VT_Float => "Float" | VT_Double => "Double" | VT_String => "String"
  | VT_DateTime => "DateTime" | VT_Guid => "Guid"
  | VT_ByteString => "ByteString"
  | VT_XmlElement => "XmlElement" | VT_NodeId => "NodeId"
  | VT_ExpandedNodeId => "ExpandedNodeId" | VT_StatusCode => "StatusCode"
  | VT_QualifiedName => "QualifiedName" | VT_LocalizedText => "LocalizedText"
  | VT_ExtensionObject => "ExtensionObject" | VT_DataValue => "DataValue"
  | VT_Variant => "Variant" | VT_DiagnosticInfo => "DiagnosticInfo"
  end.

Definition VariantType_value (t : VariantType) : Z :=
  match t with
  | VT_Null => 0 | VT_Boolean => 1 | VT_SByte => 2 | VT_Byte => 3
  | VT_Int16 => 4 | VT_UInt16 => 5 | VT_Int32 => 6 | VT_UInt32 => 7
  | VT_Int64 => 8 | VT_UInt64 => 9 | VT_Float => 10 | VT_Double => 11
  | VT_String => 12 | VT_DateTime => 13 | VT_Guid => 14
  | VT_ByteString => 15 | VT_XmlElement => 16 | VT_NodeId => 17
  | VT_ExpandedNodeId => 18 | VT_StatusCode => 19 | VT_QualifiedName => 20
  | VT_LocalizedText => 21 | VT_ExtensionObject => 22 | VT_DataValue => 23
  | VT_Variant => 24 | VT_DiagnosticInfo => 25
  end.

(** [bool(t)] for a member [t]. *)
Definition VariantType_truthy (t : VariantType) : bool :=
  negb (VariantType_value t =? 0).

Definition all_VariantType : list VariantType :=
  [VT_Null; VT_Boolean; VT_SByte; VT_Byte; VT_Int16; VT_UInt16; VT_Int32;
   VT_UInt32; VT_Int64; VT_UInt64; VT_Float; VT_Double; VT_String;
   VT_DateTime; VT_Guid; VT_ByteString; VT_XmlElement; VT_NodeId;
   VT_ExpandedNodeId; VT_StatusCode; VT_QualifiedName; VT_LocalizedText;
   VT_ExtensionObject; VT_DataValue; VT_Variant; VT_DiagnosticInfo].

Global Instance VariantType_eq_dec : EqDecision VariantType.
Proof. solve_decision. Defined.

Global Instance NodeClass_eq_dec : EqDecision NodeClass.
Proof. solve_decision. Defined.

(** [VariantType[name]]: the member of that name, [KeyError] otherwise. *)
Definition VariantType_getitem (name : string) : option VariantType :=
  List.find (fun t => String.eqb (VariantType_name t) name) all_VariantType.

(** A Python value as it can sit in the [current_value] entry.  A float is
    its mantissa and binary exponent.  [VObject m r] is an instance of a
    class defined in module [m] (the value of its [__module__]), truthy
    as objects are unless their class says otherwise. *)
Inductive Value :=
| VNone
| VBool (b : bool)
| VInt (z : Z)
| VFloat (mantissa exponent : Z)
| VStr (s : string)
| VDateTime (t : Z)
| VList (l : list Value)
| VDict (d : list (string * Value))
| VObject (module : string) (repr : string).

(** [bool(v)]. *)
Definition truthy (v : Value) : bool :=
  match v with
  | VNone => false
  | VBool b => b
  | VInt z => negb (z =? 0)
  | VFloat m _ => negb (m =? 0)
  | VStr s => negb (String.eqb s "")
  | VDateTime _ => true
  | VList l => match l with [] => false | _ => true end
  | VDict d => match d with [] => false | _ => true end
  | VObject _ _ => true
  end.

(** ** Strings *)

(** [s.startswith(p)]. *)
Definition startswith (s p : string) : bool := String.prefix p s.

(** [s[n:]]. *)
Fixpoint str_from (n : nat) (s : string) : string :=
  match n, s with
  | O, _ => s
  | S n', String _ s' => str_from n' s'
  | S _, EmptyString => EmptyString
  end.

(** [str(z)] of an integer. *)
Definition str_of_int (z : Z) : string := NilZero.string_of_int (Z.to_int z).

(** The fragment of regular expressions [fix_name] uses: a sequence of
    atoms. *)
Inductive ReAtom :=
| ReStart                (* ^ *)
| ReDigit                (* \d *)
| ReChar (c : ascii).    (* a literal character *)

Definition is_digit (c : ascii) : bool :=
  (48 <=? Z.of_nat (nat_of_ascii c)) && (Z.of_nat (nat_of_ascii c) <=? 57).

(** [re_match_at pat at_start s]: [pat] matches a prefix of [s];
    [at_start] tells whether [s] begins at position 0 of the subject. *)
Fixpoint re_match_at (pat : list ReAtom) (at_start : bool) (s : string)
  : bool :=
  match pat with
  | [] => true
  | ReStart :: pat' => at_start && re_match_at pat' at_start s
  | ReDigit :: pat' =>
      match s with
      | String c s' => is_digit c && re_match_at pat' false s'
      | EmptyString => false
      end
  | ReChar a :: pat' =>
      match s with
      | String c s' => Ascii.eqb a c && re_match_at pat' false s'
      | EmptyString => false
      end
  end.

Fixpoint re_search_from (pat : list ReAtom) (at_start : bool) (s : string)
  : bool :=
  re_match_at pat at_start s ||
  match s with
  | String _ s' => re_search_from pat false s'
  | EmptyString => false
  end.

(** [re.search(pat, s)] seen as a truth value. *)
Definition re_search (pat : list ReAtom) (s : string) : bool :=
  re_search_from pat true s.

(** The pattern [r"^\d:"]. *)
Definition digit_colon : list ReAtom := [ReStart; ReDigit; ReChar ":"%char].

(** ** The world: log, issued calls, list objects *)

(** The value of a [type] entry: [None], a member of [VariantType], or the
    member's name. *)
Inductive TypeField :=
| TyNone
| TyEnum (t : VariantType)
| TyName (s : string).

Global Instance TypeField_eq_dec : EqDecision TypeField.
Proof. solve_decision. Defined.

(** What [_logger.warning] was called with. *)
Inductive LogEntry :=
| WarnTypeUndetermined (node : Node)
| WarnHttpStripped
| WarnNameType (name : string) (ty : TypeField)
| WarnType (ty : option VariantType)
| WarnExtensionObject
| WarnNotCovered (ty : option VariantType).

(** A creation request sent to the target server. *)
Inductive Call :=
| CallAddObject (parent : Node) (node_id name : string)
| CallAddVariable (parent : Node) (node_id name : string) (val : Value)
    (ty : option VariantType).

(** A request and what the server answered: an error or the new node. *)
Definition Event : Type := Call * (Exc + Node).

(** A list object is identified by its position in [heap]. *)
Abbreviation loc := nat (only parsing).

(** The time is an input of the program: [clock] gives the instants the
    next calls of [datetime.datetime.today()] return, the next one first.
    Nothing is assumed of them. *)
Record World := mkWorld {
  heap : list (list string);
  calls : list Event;
  log : list LogEntry;
  clock : nat -> Z
}.

Definition set_heap (h : list (list string)) (w : World) : World :=
  mkWorld h (calls w) (log w) (clock w).

Definition add_call (c : Event) (w : World) : World :=
  mkWorld (heap w) (calls w ++ [c]) (log w) (clock w).

Definition add_log (e : LogEntry) (w : World) : World :=
  mkWorld (heap w) (calls w) (log w ++ [e]) (clock w).

Definition set_clock (c : nat -> Z) (w : World) : World :=
  mkWorld (heap w) (calls w) (log w) c.

(** The clock once its next instant was read. *)
Definition tick (c : nat -> Z) : nat -> Z := fun n => c (S n).

(** A computation returns, raises, or is cut off by the recursion bound. *)
Inductive outcome (A : Type) :=
| Ok (a : A)
| Raise (e : Exc)
| OutOfFuel.
Arguments Ok {A} a.
Arguments Raise {A} e.
Arguments OutOfFuel {A}.

Definition M (A : Type) : Type := World -> outcome A * World.

Definition ret {A} (a : A) : M A := fun w => (Ok a, w).

Definition bind {A B} (c : M A) (k : A -> M B) : M B :=
  fun w =>
    match c w with
    | (Ok a, w') => k a w'
    | (Raise e, w') => (Raise e, w')
    | (OutOfFuel, w') => (OutOfFuel, w')
    end.

Notation "x <- c ;; k" := (bind c (fun x => k))
  (at level 100, c at next level, right associativity).
Notation "c ;;; k" := (bind c (fun _ => k))
  (at level 100, right associativity).

Definition raise {A} (e : Exc) : M A := fun w => (Raise e, w).

Definition out_of_fuel {A} : M A := fun w => (OutOfFuel, w).

(** [_logger.warning(...)]. *)
Definition warning (e : LogEntry) : M unit := fun w => (Ok tt, add_log e w).

(** The answer of a provider call. *)
Definition call {A} (r : Exc + A) : M A :=
  match r with
  | inl e => raise e
  | inr a => ret a
  end.

(** [try: x = r  except <handles>: handler]. *)
Definition try_call {A} (r : Exc + A) (handles : Exc -> bool) (handler : M A)
  : M A :=
  match r with
  | inr a => ret a
  | inl e => if handles e then handler else raise e
  end.

(** [[...]]: a new list object. *)
Definition new_list (l : list string) : M loc :=
  fun w => (Ok (length (heap w)), set_heap (heap w ++ [l]) w).

(** The content of a list object. *)
Definition read_list (p : loc) : M (list string) :=
  fun w => (Ok (default [] (heap w !! p)), w).

(** [p.append(x)]. *)
Definition list_append (p : loc) (x : string) : M unit :=
  fun w => (Ok tt, set_heap (alter (fun l => l ++ [x]) p (heap w)) w).

(** [deepcopy(p)] for a list of strings: a new list object with the same
    content. *)
Definition deepcopy (p : loc) : M loc :=
  l <- read_list p ;; new_list l.

(** [datetime.datetime.today()]: the next instant of the clock, which is
    then past. *)
Definition today : M Z :=
  fun w => (Ok (clock w 0%nat), set_clock (tick (clock w)) w).

(** ** The node tree dictionary *)

(** The value of a [cls] entry: the integer code or the symbolic name. *)
Inductive ClsField :=
| ClsInt (z : Z)
| ClsName (s : string).

(** The dictionary [browse_nodes] builds and [clone_nodes] reads.  The keys
    [id], [name], [cls] and [path] are always there; an optional key is
    [None] when the dictionary does not have it.  The [path] entry is a
    list object no other reference is kept to, so it is held by value. *)
Inductive Snapshot := mkSnapshot {
  s_id : string;
  s_name : string;
  s_cls : ClsField;
  s_type : option TypeField;
  s_path : list string;
  s_current_value : option Value;
  s_node : option Node;
  s_children : option (list Snapshot)
}.

(** [d.get('children')] seen as a list: no key is no child. *)
Definition children_of (d : Snapshot) : list Snapshot :=
  default [] (s_children d).

(** ** [check_if_object_is_from_module] *)

(** [getattr(obj_val, '__module__', '')]: instances of builtin types have
    no such attribute. *)
Definition module_of (obj_val : Value) : string :=
  match obj_val with
  | VObject m _ => m
  | _ => ""
  end.

Fixpoint check_if_object_is_from_module (obj_val : Value) (module_name : string)
  : bool :=
  match obj_val with
  | VList l =>
      existsb (fun val => check_if_object_is_from_module val module_name) l
  | VDict d =>
      existsb (fun kv => let '(_, val) := kv in
                         check_if_object_is_from_module val module_name) d
  | _ => startswith (module_of obj_val) module_name
  end.

(** ** [fix_name] *)

Definition fix_name (name : string) (namespace_idx : Z) : M string :=
  name <- (if startswith name "http://"
           then warning WarnHttpStripped ;;;
                ret (str_from (String.length "http://") name)
           else ret name) ;;
  name <- (if re_search digit_colon name
           then ret (str_of_int namespace_idx +:+ str_from 1 name)
           else ret name) ;;
  ret name.

(** ** [browse_nodes] *)

(** The address space that is read: what the methods of a [Node] answer.
    The answers do not change while the tree is browsed. *)
Record Provider := mkProvider {
  nodeid_to_string : Node -> string;
  read_node_class : Node -> Exc + NodeClass;
  read_browse_name : Node -> Exc + string;
  get_children : Node -> Exc + list Node;
  read_data_type_as_variant_type : Node -> Exc + VariantType;
  get_value : Node -> Exc + Value
}.

(** [NodeClass(v)]: the member whose value is [v]. *)
Definition NodeClass_of_value (v : Z) : option NodeClass :=
  List.find (fun c => NodeClass_value c =? v)
    [NC_Unspecified; NC_Object; NC_Variable; NC_Method; NC_ObjectType;
     NC_VariableType; NC_ReferenceType; NC_DataType; NC_View].

(** The name of the module object [asyncua]. *)
Definition asyncua : string := "asyncua".

Section Browse.

Context (prov : Provider).

(** The loop over the children: [rec] is the recursive call, [path] the
    list object of the current call, [children] what was appended so far. *)
Fixpoint browse_children (rec : Node -> option loc -> M Snapshot)
    (kids : list Node) (path : loc) (children : list Snapshot)
  : M (list Snapshot) :=
  match kids with
  | [] => ret children
  | child :: kids' =>
      child_class <- call (read_node_class prov child) ;;
      if bool_decide (child_class ∈ [NC_Object; NC_Variable])
      then
        path' <- deepcopy path ;;
        sub <- rec child (Some path') ;;
        browse_children rec kids' path (children ++ [sub])
      else browse_children rec kids' path children
  end.

(** The two local variables [var_type] and [current_value] after the
    [if node_class != Variable] statement.  [var_type] is [None] for the
    Python [None]; [current_value] is [None] when the variable was never
    assigned. *)
Definition read_variable (node : Node) (node_class : NodeClass)
  : M (option VariantType * option Value) :=
  if bool_decide (node_class ≠ NC_Variable)
  then ret (None, None)
  else
    var_type <- try_call
        (sum_map id Some (read_data_type_as_variant_type prov node))
        is_UaError
        (warning (WarnTypeUndetermined node) ;;; ret None) ;;
    current_value <- try_call (get_value prov node)
        is_value_read_error
        (ret VNone) ;;
    ret (var_type, Some current_value).

(** The statements from [output = {...}] to [return output]. *)
Definition build_output (node : Node) (to_export : bool) (node_id : string)
    (node_name : string) (node_class : NodeClass)
    (var_type : option VariantType) (current_value : option Value)
    (path : list string) (children : list Snapshot) : M Snapshot :=
  let cls := NodeClass_value node_class in
  (* if var_type: output['current_value'] = current_value *)
  cv <- match var_type with
        | Some t =>
            if VariantType_truthy t
            then match current_value with
                 | Some v => ret (Some v)
                 | None => raise (OtherException "UnboundLocalError")
                 end
            else ret None
        | None => ret None
        end ;;
  if negb to_export
  then
    ret (mkSnapshot node_id node_name (ClsInt cls)
           (Some (from_option TyEnum TyNone var_type))
           path cv (Some node) (Some children))
  else
    let out_children :=
      if bool_decide (length children ≠ 0%nat) then Some children else None in
    (* if output['type']: ... .name   else: del output['type'] *)
    let out_type :=
      match var_type with
      | Some t =>
          if VariantType_truthy t
          then Some (TyName (VariantType_name t))
          else None
      | None => None
      end in
    out_cls <- (if negb (cls =? 0)
                then match NodeClass_of_value cls with
                     | Some c => ret (ClsName (NodeClass_name c))
                     | None => raise (OtherException "ValueError")
                     end
                else ret (ClsInt cls)) ;;
    let out_cv :=
      match cv with
      | Some v =>
          if truthy v && check_if_object_is_from_module v asyncua
          then None else Some v
      | None => None
      end in
    ret (mkSnapshot node_id node_name out_cls out_type path out_cv None
           out_children).

Fixpoint browse_nodes (fuel : nat) (node : Node) (to_export : bool)
    (path : option loc) : M Snapshot :=
  match fuel with
  | O => out_of_fuel
  | S fuel' =>
      let node_id := nodeid_to_string prov node in
      node_class <- call (read_node_class prov node) ;;
      node_name <- call (read_browse_name prov node) ;;
      path <- match path with
              | None => new_list [node_name]
              | Some p => list_append p node_name ;;; ret p
              end ;;
      kids <- call (get_children prov node) ;;
      children <- browse_children
                    (fun child p => browse_nodes fuel' child to_export p)
                    kids path [] ;;
      vars <- read_variable node node_class ;;
      path_copy <- read_list path ;;
      build_output node to_export node_id node_name node_class
        (fst vars) (snd vars) path_copy children
  end.

End Browse.

(** ** [add_variable] and [clone_nodes] *)

(** The address space that is written.  What a creation request answers
    may depend on every request made before. *)
Record Target := mkTarget {
  add_object_answer : list Event -> Node -> string -> string -> Exc + Node;
  add_variable_answer :
    list Event -> Node -> string -> string -> Value -> option VariantType ->
    Exc + Node;
  target_nodeid_to_string : Node -> string
}.

Global Instance ClsField_eq_dec : EqDecision ClsField.
Proof. solve_decision. Defined.

Definition set_name (name : string) (d : Snapshot) : Snapshot :=
  mkSnapshot (s_id d) name (s_cls d) (s_type d) (s_path d)
    (s_current_value d) (s_node d) (s_children d).

Definition set_children (cs : list Snapshot) (d : Snapshot) : Snapshot :=
  mkSnapshot (s_id d) (s_name d) (s_cls d) (s_type d) (s_path d)
    (s_current_value d) (s_node d) (Some cs).

Section Clone.

Context (tgt : Target).

(** [await base_object.add_object(node_id, name)]. *)
Definition add_object (base_object : Node) (node_id name : string) : M Node :=
  fun w =>
    let c := CallAddObject base_object node_id name in
    let r := add_object_answer tgt (calls w) base_object node_id name in
    (match r with inr n => Ok n | inl e => Raise e end, add_call (c, r) w).

(** [await base_object.add_variable(node_id, node_name, original_val,
    node_type)]. *)
Definition create_variable (base_object : Node) (node_id node_name : string)
    (original_val : Value) (node_type : option VariantType) : M Node :=
  fun w =>
    let c := CallAddVariable base_object node_id node_name original_val
               node_type in
    let r := add_variable_answer tgt (calls w) base_object node_id node_name
               original_val node_type in
    (match r with inr n => Ok n | inl e => Raise e end, add_call (c, r) w).

(** [try: return c  except: handler]: a bare [except] catches whatever is
    raised. *)
Definition try_except {A} (c : M A) (handler : M A) : M A :=
  fun w =>
    match c w with
    | (Raise _, w') => handler w'
    | r => r
    end.

(** The value chosen by the [if]/[elif] chain of [add_variable]; [None]
    stands for the branch that returns [None] from the function. *)
Definition original_val_of (node_dict : Snapshot)
    (node_type : option VariantType) : M (option Value) :=
  if truthy (default VNone (s_current_value node_dict))
  then ret (Some (default VNone (s_current_value node_dict)))
  else if bool_decide (node_type ∈ [Some VT_Boolean])
  then ret (Some (VBool false))
  else if bool_decide (node_type ∈
            [Some VT_Int16; Some VT_UInt16; Some VT_Int32; Some VT_UInt32;
             Some VT_Int64; Some VT_UInt64; Some VT_Float])
  then ret (Some (VInt 0))
  else if bool_decide (node_type ∈
            [Some VT_String; Some VT_LocalizedText; Some VT_Byte])
  then ret (Some (VStr ""))
  else if bool_decide (node_type = Some VT_DateTime)
  then t <- today ;; ret (Some (VDateTime t))
  else if bool_decide (node_type = Some VT_ExtensionObject)
  then warning WarnExtensionObject ;;; ret None
  else warning (WarnNotCovered node_type) ;;; ret (Some (VFloat 0 0)).

(** [add_variable] returns the new node, or [None]. *)
Definition add_variable (base_object : Node) (node_dict : Snapshot)
    (node_id : string) : M (option Node) :=
  let node_name := s_name node_dict in
  let node_type := default TyNone (s_type node_dict) in
  warning (WarnNameType node_name node_type) ;;;
  node_type <- match node_type with
               | TyName s =>
                   match VariantType_getitem s with
                   | Some t => ret (Some t)
                   | None => raise (KeyError s)
                   end
               | TyEnum t => ret (Some t)
               | TyNone => ret None
               end ;;
  chosen <- original_val_of node_dict node_type ;;
  match chosen with
  | None => ret None
  | Some original_val =>
      try_except
        (next_var <- create_variable base_object node_id node_name
                       original_val node_type ;;
         ret (Some next_var))
        (warning (WarnNameType node_name
                    (from_option TyEnum TyNone node_type)) ;;;
         warning (WarnType node_type) ;;;
         raise (SystemExit 1))
  end.

(** The list of (source id, target id) pairs. *)
Definition Mapping : Type := list (string * string).

(** [clone_nodes] assigns to [nodes_dict['name']]: the dictionary the
    caller holds is changed.  The function therefore gives back, next to
    its outcome, the dictionary as it is when the call ends. *)
Definition Cloned : Type := Snapshot * (outcome Mapping * World).

(** Run [c]; go on with [k] when it returns, stop with dictionary [d] when
    it does not. *)
Definition bind_holding {A} (d : Snapshot) (c : M A)
    (k : A -> World -> Cloned) : World -> Cloned :=
  fun w =>
    match c w with
    | (Ok a, w') => k a w'
    | (Raise e, w') => (d, (Raise e, w'))
    | (OutOfFuel, w') => (d, (OutOfFuel, w'))
    end.

(** The loop [for child in nodes_dict['children']]: [rec] is the recursive
    call.  It gives back the children as they are when the loop ends. *)
Fixpoint for_children (rec : Snapshot -> World -> Cloned)
    (cs : list Snapshot) (mapping_list : Mapping) (w : World)
  : list Snapshot * (outcome Mapping * World) :=
  match cs with
  | [] => ([], (Ok mapping_list, w))
  | child :: cs' =>
      match rec child w with
      | (child', (Ok m, w')) =>
          let '(cs'', r) := for_children rec cs' (mapping_list ++ m) w' in
          (child' :: cs'', r)
      | (child', (Raise e, w')) => (child' :: cs', (Raise e, w'))
      | (child', (OutOfFuel, w')) => (child' :: cs', (OutOfFuel, w'))
      end
  end.

Fixpoint clone_nodes (nodes_dict : Snapshot) (base_object : Node) (idx : Z)
    (node_id_prefix : string) (w : World) {struct nodes_dict} : Cloned :=
  let mapping_list : Mapping := [] in
  let node_id := node_id_prefix +:+ s_id nodes_dict in
  bind_holding nodes_dict (fix_name (s_name nodes_dict) idx) (fun name =>
  let renamed := set_name name nodes_dict in
  if bool_decide (s_cls nodes_dict ∈ [ClsInt 1; ClsName "Object"])
  then
    match s_children nodes_dict with
    | Some ((_ :: _) as children) =>
        bind_holding renamed (add_object base_object node_id name)
          (fun next_obj w =>
             let '(children', r) :=
               for_children
                 (fun child =>
                    clone_nodes child next_obj idx node_id_prefix)
                 children mapping_list w in
             (set_children children' renamed, r))
    | _ => fun w => (renamed, (Ok mapping_list, w))
    end
  else if bool_decide (s_cls nodes_dict ∈ [ClsInt 2; ClsName "Variable"])
  then
    bind_holding renamed (add_variable base_object renamed node_id)
      (fun next_var w =>
         match next_var with
         | None => (renamed, (Ok mapping_list, w))
         | Some next_var =>
             let mapped_id := target_nodeid_to_string tgt next_var in
             (renamed, (Ok (mapping_list ++ [(s_id renamed, mapped_id)]), w))
         end)
  else fun w => (renamed, (Raise NotImplementedError, w))) w.

End Clone.

(** * The set-up of the server ([asyncua_utils/server.py]) *)

(** ** What the code asks of [asyncua] and of [yaml] *)

(** [asyncua.ua.SecurityPolicyType]. *)
Inductive SecurityPolicyType :=
| NoSecurity
| Basic128Rsa15_Sign
| Basic128Rsa15_SignAndEncrypt
| Basic256_Sign
| Basic256_SignAndEncrypt
| Basic256Sha256_Sign
| Basic256Sha256_SignAndEncrypt.

(** The calls [server.py] makes into [asyncua].  An object the library
    makes ([CertificateUserManager()], [Server(...)]) is named by the
    number of calls made before the one that made it. *)
Inductive ServerCall :=
| NewCertificateUserManager
| AddAdmin (manager : nat) (certificate_path name : Value)
| AddUser (manager : nat) (certificate_path name : Value)
| NewServer (user_manager : nat)
| ServerInit (server : nat)
| SetEndpoint (server : nat) (url : Value)
| SetSecurityPolicy (server : nat) (policies : list SecurityPolicyType)
| LoadCertificate (server : nat) (path : Value)
| LoadPrivateKey (server : nat) (path : Value).

(** A call and the exception it raised, if any. *)
Definition ServerEvent : Type := ServerCall * option Exc.

(** The library: whether a call raises, given the calls made so far; and
    [yaml.safe_load(open(path, 'r'))], the document of a file or the
    exception of [open] or of the parser. *)
Record Library := mkLibrary {
  lib_answer : list ServerEvent -> ServerCall -> option Exc;
  safe_load_file : string -> Exc + Value
}.

(** ** Computations of [server.py]

    A computation reads and extends the record of the calls made into the
    library, and returns or raises. *)
Definition Setup (A : Type) : Type :=
  list ServerEvent -> (Exc + A) * list ServerEvent.

Global Instance Setup_ret : MRet Setup := fun A a t => (inr a, t).

Global Instance Setup_bind : MBind Setup := fun A B k c t =>
  match c t with
  | (inr a, t') => k a t'
  | (inl e, t') => (inl e, t')
  end.

(** [raise e]. *)
Definition throw {A} (e : Exc) : Setup A := fun t => (inl e, t).

(** An expression that makes no call: its value, or what it raises. *)
Definition lift {A} (r : Exc + A) : Setup A := fun t => (r, t).

(** ** Subscripts, iteration and equality of the interpreter

    [TypeError] is what the interpreter raises for a subscript or an
    iteration the value does not support; an object of a class of another
    module is taken to support neither. *)
Definition TypeError : Exc := OtherException "TypeError".

(** [v[key]] for a [str] key. *)
Definition getitem (v : Value) (key : string) : Exc + Value :=
  match v with
  | VDict d =>
      match List.find (fun kv => String.eqb (fst kv) key) d with
      | Some kv => inr (snd kv)
      | None => inl (KeyError key)
      end
  | _ => inl TypeError
  end.

(** The items [for x in v] goes through: the members of a list, the keys
    of a mapping, the characters of a string. *)
Definition iterate (v : Value) : Exc + list Value :=
  match v with
  | VList l => inr l
  | VDict d => inr (map (fun kv => VStr (fst kv)) d)
  | VStr s =>
      inr (map (fun c => VStr (String c EmptyString)) (String.list_ascii_of_string s))
  | _ => inl TypeError
  end.

(** [v == s] for a string literal [s]. *)
Definition eq_str (v : Value) (s : string) : bool :=
  match v with
  | VStr x => String.eqb x s
  | _ => false
  end.

Section Server.

Context (lib : Library).

(** A call into the library: it is recorded; it gives the name of the
    object it made, or raises. *)
Definition library (c : ServerCall) : Setup nat :=
  fun t =>
    let r := lib_answer lib t c in
    (match r with None => inr (length t) | Some e => inl e end,
     t ++ [(c, r)]).

(** The loop [for role_add in certificates] over the items that are
    left. *)
Fixpoint for_roles (certificate_handler : nat) (items : list Value)
  : Setup unit :=
  match items with
  | [] => mret tt
  | role_add :: items' =>
      certificate_path ← lift (getitem role_add "certificate_path");
      name ← lift (getitem role_add "name");
      role ← lift (getitem role_add "role");
      (if eq_str role "admin"
       then library (AddAdmin certificate_handler certificate_path name)
       else if eq_str role "user"
       then library (AddUser certificate_handler certificate_path name)
       else throw NotImplementedError);;
      for_roles certificate_handler items'
  end.

(** [certificates] is [None] when the caller leaves it out. *)
Definition server_with_certificates
    (server_url server_certificate_path server_private_key_path : Value)
    (certificates : option Value) : Setup (nat * nat) :=
  let certificates := default VNone certificates in
  certificate_handler ← library NewCertificateUserManager;
  items ← lift (iterate certificates);
  for_roles certificate_handler items;;
  server ← library (NewServer certificate_handler);
  library (ServerInit server);;
  library (SetEndpoint server server_url);;
  library (SetSecurityPolicy server [Basic256Sha256_SignAndEncrypt]);;
  library (LoadCertificate server server_certificate_path);;
  library (LoadPrivateKey server server_private_key_path);;
  mret (server, certificate_handler).

Definition server_from_yaml (yaml_path : string) : Setup nat :=
  out ← lift (safe_load_file lib yaml_path);
  server_url ← lift (getitem out "server_url");
  server_certificate_path ← lift (getitem out "server_certificate_path");
  server_private_key_path ← lift (getitem out "server_private_key_path");
  certificates ← lift (getitem out "certificates");
  r ← server_with_certificates server_url server_certificate_path
        server_private_key_path (Some certificates);
  mret (fst r).

End Server.

(** * Reference definitions *)

(** ** The name normaliser as the design document words it *)

(** [name] without its prefix [p], when it begins with [p]. *)
Fixpoint strip_prefix (p name : string) : option string :=
  match p, name with
  | EmptyString, _ => Some name
  | String a p', String c name' =>
      if Ascii.eqb a c then strip_prefix p' name' else None
  | String _ _, EmptyString => None
  end.

(** Rule 1: a name that begins with [http://] loses that prefix. *)
Definition strip_http (name : string) : string :=
  match strip_prefix "http://" name with
  | Some rest => rest
  | None => name
  end.

(** Rule 2: in a name made of one digit, a colon, then anything, the digit
    becomes the target namespace index; rule 3: any other name is kept. *)
Definition replace_namespace_digit (name : string)
    (target_namespace_index : Z) : string :=
  match name with
  | String d (String c rest) =>
      if is_digit d && Ascii.eqb c ":"
      then str_of_int target_namespace_index +:+ String c rest
      else name
  | _ => name
  end.

Definition normalize (name : string) (target_namespace_index : Z) : string :=
  replace_namespace_digit (strip_http name) target_namespace_index.

(** ** Shape of the exported tree *)

(** The [cls] entry [browse_nodes] writes for a node of class [c]. *)
Definition cls_field (to_export : bool) (c : NodeClass) : ClsField :=
  if to_export
  then if NodeClass_value c =? 0
       then ClsInt (NodeClass_value c)
       else ClsName (NodeClass_name c)
  else ClsInt (NodeClass_value c).

(** The [type] entry for the local variable [var_type]. *)
Definition type_field (to_export : bool) (var_type : option VariantType)
  : option TypeField :=
  if to_export
  then match var_type with
       | Some t =>
           if VariantType_truthy t
           then Some (TyName (VariantType_name t))
           else None
       | None => None
       end
  else Some (from_option TyEnum TyNone var_type).

(** The [children] entry for the list [children]. *)
Definition children_field (to_export : bool) (children : list Snapshot)
  : option (list Snapshot) :=
  if to_export
  then match children with [] => None | _ => Some children end
  else Some children.

(** The [current_value] entry when [var_type] was resolved and [v] is the
    value of the local variable [current_value]. *)
Definition current_value_field (to_export : bool) (v : Value) : option Value :=
  if to_export && truthy v && check_if_object_is_from_module v asyncua
  then None
  else Some v.

(** The child [k] is one [browse_nodes] recurses into. *)
Definition is_exportable (prov : Provider) (k : Node) : bool :=
  match read_node_class prov k with
  | inr c => bool_decide (c ∈ [NC_Object; NC_Variable])
  | inl _ => false
  end.

(** [exported prov to_export node snap]: [snap] is the dictionary of
    [node], and its children are, in order, the dictionaries of the
    children of [node] whose class is Object or Variable. *)
Inductive exported (prov : Provider) (to_export : bool)
  : Node -> Snapshot -> Prop :=
| exported_intro node snap c kids :
    read_node_class prov node = inr c ->
    s_cls snap = cls_field to_export c ->
    s_id snap = nodeid_to_string prov node ->
    get_children prov node = inr kids ->
    Forall2 (exported prov to_export)
      (List.filter (is_exportable prov) kids) (children_of snap) ->
    exported prov to_export node snap.

(** Every dictionary of the tree, the top one first. *)
Fixpoint nodes_of (s : Snapshot) : list Snapshot :=
  s :: match s_children s with
       | Some cs => flat_map nodes_of cs
       | None => []
       end.

(** The class is Object or Variable, as a code or as a name. *)
Definition cls_object_or_variable (c : ClsField) : bool :=
  bool_decide
    (c ∈ [ClsInt 1; ClsName "Object"; ClsInt 2; ClsName "Variable"]).

(** [paths_from prefix s]: the [path] of [s] is [prefix] followed by its
    name, and so on below it. *)
Inductive paths_from : list string -> Snapshot -> Prop :=
| paths_from_intro prefix s :
    s_path s = prefix ++ [s_name s] ->
    Forall (paths_from (prefix ++ [s_name s])) (children_of s) ->
    paths_from prefix s.

(** A reference to a list object points into the heap. *)
Definition valid_path (path : option loc) (w : World) : Prop :=
  match path with
  | None => True
  | Some p => (p < length (heap w))%nat
  end.

(** The content of the list the caller passed. *)
Definition path_content (path : option loc) (w : World) : list string :=
  match path with
  | None => []
  | Some p => default [] (heap w !! p)
  end.

(** ** What a Variable node contributes *)

(** The declared type when it was resolved. *)
Definition captured_type (prov : Provider) (node : Node)
  : option VariantType :=
  match read_data_type_as_variant_type prov node with
  | inr t => Some t
  | inl _ => None
  end.

(** The value read, [None] of Python when the read failed. *)
Definition captured_value (prov : Provider) (node : Node) : Value :=
  match get_value prov node with
  | inr v => v
  | inl _ => VNone
  end.

Definition var_type_of (prov : Provider) (node : Node) (c : NodeClass)
  : option VariantType :=
  if bool_decide (c = NC_Variable) then captured_type prov node else None.

Definition current_value_of (prov : Provider) (to_export : bool) (node : Node)
    (c : NodeClass) : option Value :=
  match var_type_of prov node c with
  | Some t =>
      if VariantType_truthy t
      then current_value_field to_export (captured_value prov node)
      else None
  | None => None
  end.

(** ** Every depth of an exported tree *)

(** [exported_all prov P node snap]: [P] holds of [node] and its dictionary
    [snap], of every Object or Variable child of [node] and its dictionary
    among the children of [snap], taken in order, and so on at every
    depth. *)
Inductive exported_all (prov : Provider) (P : Node -> Snapshot -> Prop)
  : Node -> Snapshot -> Prop :=
| exported_all_intro node snap kids :
    P node snap ->
    get_children prov node = inr kids ->
    Forall2 (exported_all prov P)
      (List.filter (is_exportable prov) kids) (children_of snap) ->
    exported_all prov P node snap.

(** The declared type of [n] was read and is a truthy member of
    [VariantType], that is any member but [Null]. *)
Definition type_resolved (prov : Provider) (n : Node) : Prop :=
  exists t, captured_type prov n = Some t /\ VariantType_truthy t = true.

(** The [current_value] entry of the dictionary [d] of node [n]: it is
    there only for a Variable whose type was resolved; for such a node it
    is the value read, [None] of Python when the read failed, unless the
    mode is serialisable and the value is a truthy object of [asyncua];
    and a failed value read was one of the four errors caught. *)
Definition current_value_entry (prov : Provider) (to_export : bool) (n : Node)
    (d : Snapshot) : Prop :=
  exists c,
    read_node_class prov n = inr c /\
    (is_Some (s_current_value d) ->
     c = NC_Variable /\ type_resolved prov n) /\
    (c = NC_Variable -> type_resolved prov n ->
     s_current_value d
     = if to_export && truthy (captured_value prov n)
          && check_if_object_is_from_module (captured_value prov n) asyncua
       then None
       else Some (captured_value prov n)) /\
    (forall e, c = NC_Variable -> get_value prov n = inl e ->
       is_value_read_error e = true /\
       (type_resolved prov n -> s_current_value d = Some VNone)).

(** The [children] entry of the dictionary [d] of node [n]: [d] is the
    dictionary of [n]; it lists one dictionary for each child of [n] of
    class Object or Variable; and the entry is missing exactly in
    serialisable mode when [n] has no such child. *)
Definition children_entry (prov : Provider) (to_export : bool) (n : Node)
    (d : Snapshot) : Prop :=
  s_id d = nodeid_to_string prov n /\
  exists kids,
    get_children prov n = inr kids /\
    length (children_of d) = length (List.filter (is_exportable prov) kids) /\
    (s_children d = None <->
     to_export = true /\ List.filter (is_exportable prov) kids = []).

(** The list object a call works on and the heap once the name is in it. *)
Definition enter_path (path : option loc) (node_name : string) (w : World)
  : loc * World :=
  match path with
  | None => (length (heap w), set_heap (heap w ++ [[node_name]]) w)
  | Some p =>
      (p, set_heap (alter (fun l => l ++ [node_name]) p (heap w)) w)
  end.

(** [children_run prov rec p kids subs w w']: the loop over the children,
    started in world [w] with the list object [p], has made one recursive
    call [rec] for each of [kids] -- the children of class Object or
    Variable -- each with a new copy of [p], and these calls returned
    [subs] and left the world [w']. *)
Inductive children_run (prov : Provider)
    (rec : Node -> option loc -> M Snapshot) (p : loc)
  : list Node -> list Snapshot -> World -> World -> Prop :=
| children_run_nil w : children_run prov rec p [] [] w w
| children_run_cons child kids sub subs w w1 w2 :
    is_exportable prov child = true ->
    rec child (Some (length (heap w)))
      (set_heap (heap w ++ [default [] (heap w !! p)]) w) = (Ok sub, w1) ->
    children_run prov rec p kids subs w1 w2 ->
    children_run prov rec p (child :: kids) (sub :: subs) w w2.

(** ** Address spaces the export can walk *)

(** Node [n] answers the reads [browse_nodes] does not guard; its children
    are in [nodes] and of lower rank; and, when it is a Variable, a failed
    type read is a [UaError] and a failed value read is one of the four
    errors the code catches. *)
Definition node_ok (prov : Provider) (rank : Node -> nat) (nodes : list Node)
    (n : Node) : bool :=
  match read_node_class prov n, read_browse_name prov n, get_children prov n
  with
  | inr c, inr _, inr kids =>
      forallb (fun k => bool_decide (k ∈ nodes)
                        && bool_decide (rank k < rank n)%nat) kids
      && (if bool_decide (c = NC_Variable)
          then match read_data_type_as_variant_type prov n with
               | inr _ => true
               | inl e => is_UaError e
               end
               && match get_value prov n with
                  | inr _ => true
                  | inl e => is_value_read_error e
                  end
          else true)
  | _, _, _ => false
  end.

Definition browsable (prov : Provider) (rank : Node -> nat)
    (nodes : list Node) : bool :=
  forallb (node_ok prov rank nodes) nodes.

(** What a call may do to the heap: it keeps every list object that was
    there, and changes none but the one it was given. *)
Definition heap_frame (path : option loc) (w w' : World) : Prop :=
  (length (heap w) <= length (heap w'))%nat /\
  forall l, (l < length (heap w))%nat -> Some l <> path ->
            heap w' !! l = heap w !! l.

(** ** What [add_variable] asks of the server *)

(** [node_type] after [VariantType[node_type]] for a name: the type, or the
    name that is no member. *)
Definition converted_type (t : option TypeField)
  : string + option VariantType :=
  match default TyNone t with
  | TyName s =>
      match VariantType_getitem s with
      | Some vt => inr (Some vt)
      | None => inl s
      end
  | TyEnum vt => inr (Some vt)
  | TyNone => inr None
  end.

(** The value the [if]/[elif] chain of [add_variable] settles on when
    [datetime.datetime.today()] gives [now]; [None] when the variable is
    declined. *)
Definition chosen_value (now : Z) (current_value : option Value)
    (node_type : option VariantType) : option Value :=
  if truthy (default VNone current_value)
  then Some (default VNone current_value)
  else if bool_decide (node_type ∈ [Some VT_Boolean])
  then Some (VBool false)
  else if bool_decide (node_type ∈
            [Some VT_Int16; Some VT_UInt16; Some VT_Int32; Some VT_UInt32;
             Some VT_Int64; Some VT_UInt64; Some VT_Float])
  then Some (VInt 0)
  else if bool_decide (node_type ∈
            [Some VT_String; Some VT_LocalizedText; Some VT_Byte])
  then Some (VStr "")
  else if bool_decide (node_type = Some VT_DateTime)
  then Some (VDateTime now)
  else if bool_decide (node_type = Some VT_ExtensionObject)
  then None
  else Some (VFloat 0 0).

(** The chain reaches [datetime.datetime.today()]. *)
Definition reads_clock (current_value : option Value)
    (node_type : option VariantType) : bool :=
  negb (truthy (default VNone current_value))
  && bool_decide (node_type = Some VT_DateTime).

(** The clock [c] once [add_variable] ran on the dictionary [d]. *)
Definition clock_after_variable (d : Snapshot) (c : nat -> Z) : nat -> Z :=
  match converted_type (s_type d) with
  | inr ty => if reads_clock (s_current_value d) ty then tick c else c
  | inl _ => c
  end.

(** ** Views of a dictionary tree *)

(** The world after the call of [fix_name] on [name]. *)
Definition after_fix_name (name : string) (w : World) : World :=
  if startswith name "http://" then add_log WarnHttpStripped w else w.

(** The tree with every [name] entry blanked: all of it but the names. *)
Fixpoint erase_names (d : Snapshot) : Snapshot :=
  mkSnapshot (s_id d) "" (s_cls d) (s_type d) (s_path d) (s_current_value d)
    (s_node d)
    (match s_children d with
     | Some cs => Some (map erase_names cs)
     | None => None
     end).

(** The tree once a clone that returned went through it: the name of
    every dictionary the clone visited -- the top one, and the children of
    an Object it visited -- is the normalised name; what lies below any
    other dictionary is as it was. *)
Fixpoint renamed (idx : Z) (d : Snapshot) : Snapshot :=
  mkSnapshot (s_id d) (normalize (s_name d) idx) (s_cls d) (s_type d)
    (s_path d) (s_current_value d) (s_node d)
    (if bool_decide (s_cls d ∈ [ClsInt 1; ClsName "Object"])
     then match s_children d with
          | Some cs => Some (map (renamed idx) cs)
          | None => None
          end
     else s_children d).

(** [fixed_where_visited idx d d']: at every depth, the name in [d'] is
    the name in [d] or that name normalised. *)
Inductive fixed_where_visited (idx : Z) : Snapshot -> Snapshot -> Prop :=
| fixed_where_visited_intro d d' :
    s_name d' = s_name d \/ s_name d' = normalize (s_name d) idx ->
    Forall2 (fixed_where_visited idx) (children_of d) (children_of d') ->
    fixed_where_visited idx d d'.

(** The integer code of a class given by its symbolic name. *)
Definition cls_code (c : ClsField) : ClsField :=
  match c with
  | ClsName s =>
      if String.eqb s "Object" then ClsInt 1
      else if String.eqb s "Variable" then ClsInt 2
      else c
  | ClsInt _ => c
  end.

(** A change of the [cls] and [path] entries of a dictionary. *)
Record Relabel := mkRelabel {
  on_cls : ClsField -> ClsField;
  on_path : list string -> list string
}.

(** The tree with these entries changed in every dictionary. *)
Fixpoint relabel (r : Relabel) (d : Snapshot) : Snapshot :=
  mkSnapshot (s_id d) (s_name d) (on_cls r (s_cls d)) (s_type d)
    (on_path r (s_path d)) (s_current_value d) (s_node d)
    (match s_children d with
     | Some cs => Some (map (relabel r) cs)
     | None => None
     end).

(** The change keeps the answers of the two class tests of
    [clone_nodes]. *)
Definition keeps_class (r : Relabel) : Prop :=
  forall c,
    bool_decide (on_cls r c ∈ [ClsInt 1; ClsName "Object"])
    = bool_decide (c ∈ [ClsInt 1; ClsName "Object"]) /\
    bool_decide (on_cls r c ∈ [ClsInt 2; ClsName "Variable"])
    = bool_decide (c ∈ [ClsInt 2; ClsName "Variable"]).

(** The tree with every [cls] entry [Object] or [Variable] turned into its
    integer code. *)
Definition with_cls_codes : Snapshot -> Snapshot :=
  relabel (mkRelabel cls_code id).

(** The tree with every [path] entry emptied. *)
Definition without_paths : Snapshot -> Snapshot :=
  relabel (mkRelabel id (fun _ => [])).

(** ** Worlds up to the log *)

(** The two worlds differ in their logs at most. *)
Definition same_but_log (w1 w2 : World) : Prop :=
  heap w1 = heap w2 /\ calls w1 = calls w2 /\ clock w1 = clock w2.

(** A computation that does not read the log. *)
Definition log_blind {A} (c : M A) : Prop :=
  forall w1 w2,
    same_but_log w1 w2 ->
    fst (c w1) = fst (c w2) /\ same_but_log (snd (c w1)) (snd (c w2)).

(** The same for a computation that gives back dictionaries. *)
Definition log_blind_holding {D} (f : World -> D * (outcome Mapping * World))
  : Prop :=
  forall w1 w2,
    same_but_log w1 w2 ->
    fst (f w1) = fst (f w2) /\
    fst (snd (f w1)) = fst (snd (f w2)) /\
    same_but_log (snd (snd (f w1))) (snd (snd (f w2))).

(** ** Requests the server refused *)

(** The request was for a variable and the server answered an error. *)
Definition failed_create_variable (ev : Event) : bool :=
  match ev with
  | (CallAddVariable _ _ _ _ _, inl _) => true
  | _ => false
  end.

(** What a run from [w] to [w'] with outcome [r] did with the server: it
    sent the requests [new]; either none of them is a refused variable, or
    the last one is, no other is, the outcome is [SystemExit(1)], and the
    log ends with the name and the type of that variable. *)
Definition create_failure_last {A} (w : World) (r : outcome A) (w' : World)
  : Prop :=
  exists new,
    calls w' = calls w ++ new /\
    (Forall (fun ev => failed_create_variable ev = false) new \/
     exists new0 parent node_id name val ty e logs,
       new = new0 ++ [(CallAddVariable parent node_id name val ty, inl e)] /\
       Forall (fun ev => failed_create_variable ev = false) new0 /\
       r = Raise (SystemExit 1) /\
       log w' = logs ++ [WarnNameType name (from_option TyEnum TyNone ty);
                         WarnType ty]).

(** * Further reference definitions *)

(** ** Values inside lists and mappings *)

(** The values [check_if_object_is_from_module] ends up testing: those
    that are neither a list nor a mapping, found through any nesting of
    lists and of values of mappings. *)
Fixpoint leaves (v : Value) : list Value :=
  match v with
  | VList l => flat_map leaves l
  | VDict d => flat_map (fun kv => let '(_, val) := kv in leaves val) d
  | _ => [v]
  end.

(** ** From the internal dictionary to the serialisable one *)

Definition outcome_map {A B} (f : A -> B) (r : outcome A) : outcome B :=
  match r with
  | Ok a => Ok (f a)
  | Raise e => Raise e
  | OutOfFuel => OutOfFuel
  end.

(** [output['cls']] after [if output['cls']: ... NodeClass(...).name]. *)
Definition serialise_cls (c : ClsField) : ClsField :=
  match c with
  | ClsInt v =>
      if v =? 0 then c
      else match NodeClass_of_value v with
           | Some k => ClsName (NodeClass_name k)
           | None => c
           end
  | ClsName _ => c
  end.

(** The [type] entry after [if output['type']: ... else: del ...]: the
    name of a truthy member, and no entry for [None] and for [Null]. *)
Definition serialise_type (t : option TypeField) : option TypeField :=
  match t with
  | Some (TyEnum vt) =>
      if VariantType_truthy vt
      then Some (TyName (VariantType_name vt))
      else None
  | Some (TyName s) => Some (TyName s)
  | Some TyNone | None => None
  end.

(** The [current_value] entry after the test of its module. *)
Definition serialise_value (cv : option Value) : option Value :=
  match cv with
  | Some v =>
      if truthy v && check_if_object_is_from_module v asyncua
      then None else Some v
  | None => None
  end.

(** What the branch [to_export] of [browse_nodes] makes of the dictionary
    the other branch returns, at every depth: no [node], no empty
    [children], names for [type] and [cls], no value from [asyncua]. *)
Fixpoint serialise (d : Snapshot) : Snapshot :=
  mkSnapshot (s_id d) (s_name d) (serialise_cls (s_cls d))
    (serialise_type (s_type d)) (s_path d)
    (serialise_value (s_current_value d)) None
    (match s_children d with
     | Some ((_ :: _) as cs) => Some (map serialise cs)
     | _ => None
     end).

(** The result and the world of a run, the result changed by [f]. *)
Definition run_map {A B} (f : A -> B) (r : outcome A * World)
  : outcome B * World :=
  (outcome_map f (fst r), snd r).

(** ** Nodes the export reads *)



(** ** What a clone asks of the server *)

(** A creation request without the node it is made under. *)
Inductive Request :=
| RequestObject (node_id name : string)
| RequestVariable (node_id name : string) (val : Value)
    (ty : option VariantType).

Definition request_of (ev : Event) : Request :=
  match fst ev with
  | CallAddObject _ node_id name => RequestObject node_id name
  | CallAddVariable _ node_id name val ty =>
      RequestVariable node_id name val ty
  end.

(** The clock once [clone_nodes] went through all of [d]: every Variable
    it visits whose default is the time of the day has read it once. *)
Fixpoint clock_after (d : Snapshot) (c : nat -> Z) : nat -> Z :=
  if bool_decide (s_cls d ∈ [ClsInt 1; ClsName "Object"])
  then match s_children d with
       | Some children =>
           fold_left (fun c child => clock_after child c) children c
       | None => c
       end
  else if bool_decide (s_cls d ∈ [ClsInt 2; ClsName "Variable"])
  then clock_after_variable d c
  else c.

(** The requests for the dictionaries [cs], one after the other, the first
    one with the clock [c]; [plan c x] stands for the requests for [x]
    with the clock [c]. *)
Fixpoint plan_children (plan : (nat -> Z) -> Snapshot -> list Request)
    (cs : list Snapshot) (c : nat -> Z) : list Request :=
  match cs with
  | [] => []
  | x :: cs' => plan c x ++ plan_children plan cs' (clock_after x c)
  end.

(** The requests a clone of [d] makes when nothing fails, in order, with
    the clock [c]: one for each Object that has children, then those of
    its children; one for each Variable that is not declined; nothing
    below a Variable.  A default that is the time of the day is the instant
    the clock gives when the clone reaches that Variable. *)
Fixpoint plan (c : nat -> Z) (idx : Z) (node_id_prefix : string)
    (d : Snapshot) : list Request :=
  let node_id := node_id_prefix +:+ s_id d in
  let name := normalize (s_name d) idx in
  if bool_decide (s_cls d ∈ [ClsInt 1; ClsName "Object"])
  then
    match s_children d with
    | Some ((_ :: _) as children) =>
        RequestObject node_id name
        :: plan_children (fun c x => plan c idx node_id_prefix x) children c
    | _ => []
    end
  else if bool_decide (s_cls d ∈ [ClsInt 2; ClsName "Variable"])
  then
    match converted_type (s_type d) with
    | inr ty =>
        match chosen_value (c 0%nat) (s_current_value d) ty with
        | Some val => [RequestVariable node_id name val ty]
        | None => []
        end
    | inl _ => []
    end
  else [].

(** The mapping entry a granted variable request gives, with the
    identifier as it was sent. *)
Definition variable_result (tgt : Target) (ev : Event)
  : option (string * string) :=
  match ev with
  | (CallAddVariable _ node_id _ _ _, inr n) =>
      Some (node_id, target_nodeid_to_string tgt n)
  | _ => None
  end.

Definition granted (ev : Event) : bool :=
  match snd ev with
  | inr _ => true
  | inl _ => false
  end.

(** [follows_plan tgt prefix requests after w r w']: the run from [w] to
    [w'] sent to the server an initial part of [requests]; when it returned
    a mapping it left the clock [after], it sent them all, all were
    granted, and the mapping pairs, in order, the identifier of each
    variable with the identifier of the node the server made for it. *)
Definition follows_plan (tgt : Target) (node_id_prefix : string)
    (requests : list Request) (after : nat -> Z) (w : World)
    (r : outcome Mapping) (w' : World) : Prop :=
  exists new,
    calls w' = calls w ++ new /\
    map request_of new `prefix_of` requests /\
    forall m,
      r = Ok m ->
      clock w' = after /\
      map request_of new = requests /\
      forallb granted new = true /\
      map (fun e => (node_id_prefix +:+ fst e, snd e)) m
      = omap (variable_result tgt) new.

(** The dictionaries [clone_nodes] can go through without an exception of
    its own: each one it visits is an Object or a Variable, and a type
    given by name is the name of a member of [VariantType]. *)
Fixpoint cloneable (d : Snapshot) : bool :=
  if bool_decide (s_cls d ∈ [ClsInt 1; ClsName "Object"])
  then match s_children d with
       | Some cs => forallb cloneable cs
       | None => true
       end
  else bool_decide (s_cls d ∈ [ClsInt 2; ClsName "Variable"])
       && match converted_type (s_type d) with
          | inr _ => true
          | inl _ => false
          end.

(** The server grants every request. *)
Definition willing (tgt : Target) : Prop :=
  (forall h p i n, exists x, add_object_answer tgt h p i n = inr x) /\
  (forall h p i n v t, exists x, add_variable_answer tgt h p i n v t = inr x).

(** ** Why a clone can fail *)

(** The dictionaries [clone_nodes] visits: the children of an Object, and
    nothing below any other dictionary. *)
Fixpoint clone_visits (d : Snapshot) : list Snapshot :=
  d :: if bool_decide (s_cls d ∈ [ClsInt 1; ClsName "Object"])
       then match s_children d with
            | Some cs => flat_map clone_visits cs
            | None => []
            end
       else [].

(** The ways [clone_nodes], run on [d] from [w] to [w'], can raise [e]:
    a dictionary it visits is neither Object nor Variable; the type of a
    Variable it visits is a name that is no member of [VariantType]; or the
    last request sent was refused -- then [e] is the error of the server for
    an object, and [SystemExit(1)] for a variable. *)
Definition clone_failure (d : Snapshot) (w w' : World) (e : Exc) : Prop :=
  (e = NotImplementedError /\
   exists n, In n (clone_visits d) /\ cls_object_or_variable (s_cls n) = false)
  \/
  (exists s n, e = KeyError s /\ In n (clone_visits d) /\
               s_cls n ∈ [ClsInt 2; ClsName "Variable"] /\
               converted_type (s_type n) = inl s)
  \/
  (exists new0 c e0,
     calls w' = calls w ++ new0 ++ [(c, inl e0)] /\
     e = match c with
         | CallAddObject _ _ _ => e0
         | CallAddVariable _ _ _ _ _ => SystemExit 1
         end).

(** ** Under which node a request is made *)

Definition call_parent (c : Call) : Node :=
  match c with
  | CallAddObject parent _ _ => parent
  | CallAddVariable parent _ _ _ _ => parent
  end.

(** The node the server made for a granted object request. *)
Definition created_object (ev : Event) : option Node :=
  match ev with
  | (CallAddObject _ _ _, inr n) => Some n
  | _ => None
  end.

(** Each request of [new] is made under [base] or under a node the server
    made for an earlier object request of [new]. *)
Definition parents_known (base : Node) (new : list Event) : Prop :=
  forall i ev,
    new !! i = Some ev ->
    call_parent (fst ev) ∈ base :: omap created_object (take i new).

(** ** Cloning what was serialised *)

(** The two worlds show the same requests and the same time. *)
Definition same_server (w1 w2 : World) : Prop :=
  calls w1 = calls w2 /\ clock w1 = clock w2.

(** The serialisation keeps the [current_value] entry of [d]. *)
Definition value_kept (d : Snapshot) : Prop :=
  serialise_value (s_current_value d) = s_current_value d.

(** The serialisation keeps the [type] entry of [d], or drops one that is
    [None]: the entry is not the member [Null]. *)
Definition type_kept (d : Snapshot) : Prop :=
  s_type d <> Some (TyEnum VT_Null).

Definition entries_kept (d : Snapshot) : Prop :=
  value_kept d /\ type_kept d.

(** ** The set-up of the server *)

(** A call that did not raise. *)
Definition ok (c : ServerCall) : ServerEvent := (c, None).

Definition answered (ev : ServerEvent) : Prop := snd ev = None.

(** The call that registers the entry [item] of [certificates] with the
    user manager, when the entry is a mapping with the three keys and a
    role that is [admin] or [user]. *)
Definition registration (manager : nat) (item : Value) : option ServerCall :=
  match getitem item "certificate_path", getitem item "name",
        getitem item "role" with
  | inr certificate_path, inr name, inr role =>
      if eq_str role "admin"
      then Some (AddAdmin manager certificate_path name)
      else if eq_str role "user"
      then Some (AddUser manager certificate_path name)
      else None
  | _, _, _ => None
  end.

Definition is_registration (c : ServerCall) : bool :=
  match c with
  | AddAdmin _ _ _ | AddUser _ _ _ => true
  | _ => false
  end.

(** The calls that make and configure the server, after the
    registrations. *)
Definition setup_calls (manager server : nat)
    (server_url server_certificate_path server_private_key_path : Value)
  : list ServerCall :=
  [NewServer manager; ServerInit server; SetEndpoint server server_url;
   SetSecurityPolicy server [Basic256Sha256_SignAndEncrypt];
   LoadCertificate server server_certificate_path;
   LoadPrivateKey server server_private_key_path].

(** The calls [new] of a run with result [r] went through, or the last one
    raised, and then it is what the run raised. *)
Definition stops_at_error {A} (new : list ServerEvent) (r : Exc + A) : Prop :=
  Forall answered new \/
  exists new0 c e,
    new = new0 ++ [(c, Some e)] /\ Forall answered new0 /\ r = inl e.

Definition is_new_server (c : ServerCall) : bool :=
  match c with
  | NewServer _ => true
  | _ => false
  end.

(** What a run of [server_with_certificates] from the record [t] did, being
    [new] its calls and [r] its result: either it made no server and did
    not return, or it registered every entry of [certificates], in order
    and without an error, before it went on to make the server. *)
Definition registers_first (t : list ServerEvent)
    (server_url server_certificate_path server_private_key_path : Value)
    (certificates : option Value)
    (new : list ServerEvent) (r : Exc + nat * nat) : Prop :=
  (Forall (fun ev => is_new_server (fst ev) = false) new /\
   forall x, r <> inr x)
  \/
  exists items calls rest,
    iterate (default VNone certificates) = inr items /\
    Forall2 (fun item c => registration (length t) item = Some c)
      items calls /\
    new = map ok (NewCertificateUserManager :: calls) ++ rest /\
    map fst rest
      `prefix_of` setup_calls (length t) (length t + 1 + length items)
                    server_url server_certificate_path
                    server_private_key_path /\
    forall x,
      r = inr x ->
      x = ((length t + 1 + length items)%nat, length t) /\
      rest = map ok (setup_calls (length t) (length t + 1 + length items)
                       server_url server_certificate_path
                       server_private_key_path).

(** ** What an export logs *)

(** The warning [browse_nodes] logs for the node [n] itself: one when [n]
    is a Variable and the read of its type raised a [UaError]. *)
Definition type_warning (prov : Provider) (n : Node) : list LogEntry :=
  match read_node_class prov n, read_data_type_as_variant_type prov n with
  | inr NC_Variable, inl e =>
      if is_UaError e then [WarnTypeUndetermined n] else []
  | _, _ => []
  end.

(** The warnings [f k c] for the nodes [ks] and their dictionaries [cs],
    taken together in order. *)
Fixpoint warnings_children (f : Node -> Snapshot -> list LogEntry)
    (cs : list Snapshot) (ks : list Node) : list LogEntry :=
  match cs, ks with
  | c :: cs', k :: ks' => f k c ++ warnings_children f cs' ks'
  | _, _ => []
  end.

(** The warnings of the export of [n] that returned [d]: those of its
    Object and Variable children, in order, then its own. *)
Fixpoint type_warnings (prov : Provider) (n : Node) (d : Snapshot)
  : list LogEntry :=
  match get_children prov n, s_children d with
  | inr kids, Some cs =>
      warnings_children (type_warnings prov) cs
        (List.filter (is_exportable prov) kids)
  | _, _ => []
  end ++ type_warning prov n.

(** * Sample address spaces *)

(** One row per node: what the server answers for it. *)
Record Row := mkRow {
  r_class : NodeClass;
  r_name : string;
  r_children : list Node;
  r_type : Exc + VariantType;
  r_value : Exc + Value
}.

Definition unknown {A} : Exc + A := inl (UaErrorOther "BadNodeIdUnknown").

(** The provider of a table: node [n] is row [n]. *)
Definition table_provider (rows : list Row) : Provider :=
  mkProvider
    (fun n => "ns=2;i=" +:+ str_of_int (Z.of_nat n))
    (fun n => from_option (fun r => inr (r_class r)) unknown (rows !! n))
    (fun n => from_option (fun r => inr (r_name r)) unknown (rows !! n))
    (fun n => from_option (fun r => inr (r_children r)) unknown (rows !! n))
    (fun n => from_option r_type unknown (rows !! n))
    (fun n => from_option r_value unknown (rows !! n)).

(** A small plant:
<<
    0 Root (Object)
    |- 1 A (Object)   -- 4 a1 (Variable, Int32, 42) -- 7 EURange (Variable)
    |- 2 B (Object)   -- 5 b1 (Variable, Byte, out of service)
    `- 3 M (Method)   -- 6 hidden (Variable)
>> *)
Definition plant : list Row :=
  [ mkRow NC_Object "Root" [1; 2; 3]%nat unknown unknown;
    mkRow NC_Object "A" [4]%nat unknown unknown;
    mkRow NC_Object "B" [5]%nat unknown unknown;
    mkRow NC_Method "M" [6]%nat unknown unknown;
    mkRow NC_Variable "a1" [7]%nat (inr VT_Int32) (inr (VInt 42));
    mkRow NC_Variable "b1" [] (inr VT_Byte) (inl BadOutOfService);
    mkRow NC_Variable "hidden" [] (inr VT_Int32) (inr (VInt 1));
    mkRow NC_Variable "EURange" [] unknown (inr (VInt 0)) ].

Definition plant_rank (n : Node) : nat := (8 - n)%nat.

(** An address space where the root bears the name of one of its
    children:
<<
    0 B (Object)
    |- 1 A (Object)   -- 3 a1 (Variable)
    `- 2 B (Object)   -- 4 b1 (Variable)
>> *)
Definition namesake_plant : list Row :=
  [ mkRow NC_Object "B" [1; 2]%nat unknown unknown;
    mkRow NC_Object "A" [3]%nat unknown unknown;
    mkRow NC_Object "B" [4]%nat unknown unknown;
    mkRow NC_Variable "a1" [] (inr VT_Int32) (inr (VInt 1));
    mkRow NC_Variable "b1" [] (inr VT_Int32) (inr (VInt 2)) ].

Definition plant_nodes : list Node := [0; 1; 2; 3; 4; 5; 6; 7]%nat.

(** A world with nothing in it; [today()] gives 1000, then 1001, and so
    on. *)
Definition world0 : World :=
  mkWorld [] [] [] (fun n => 1000 + Z.of_nat n).

(** The serialisable export of the plant from its root, evaluated. *)
Definition plant_export : outcome Snapshot * World :=
  Eval vm_compute in
    browse_nodes (table_provider plant) 4 0%nat true None world0.

(** * Sample target servers *)

(** A server that creates whatever is asked; the new node is numbered
    after the requests made so far. *)
Definition willing_target : Target :=
  mkTarget
    (fun history _ _ _ => inr (100 + length history)%nat)
    (fun history _ _ _ _ _ => inr (100 + length history)%nat)
    (fun n => "ns=3;i=" +:+ str_of_int (Z.of_nat n)).

(** A server that creates objects and refuses every variable. *)
Definition refusing_target : Target :=
  mkTarget
    (fun history _ _ _ => inr (100 + length history)%nat)
    (fun _ _ _ _ _ _ => inl (UaErrorOther "BadNodeIdExists"))
    (fun n => "ns=3;i=" +:+ str_of_int (Z.of_nat n)).

(** A dictionary of a Variable without children, as [yaml] loads it. *)
Definition variable_dict (id name : string) (ty : string)
    (path : list string) (current_value : option Value) : Snapshot :=
  mkSnapshot id name (ClsName "Variable") (Some (TyName ty)) path
    current_value None None.

(** A dictionary of an Object. *)
Definition object_dict (id name : string) (path : list string)
    (children : list Snapshot) : Snapshot :=
  mkSnapshot id name (ClsName "Object") None path None None (Some children).

(** A Byte variable that holds 0. *)
Definition flags_dict : Snapshot :=
  variable_dict "ns=2;i=9" "Flags" "Byte" ["Root"; "Flags"] (Some (VInt 0)).

(** An ExtensionObject variable whose captured value is an object of the
    provider's library, as the internal mode of the export keeps it. *)
Definition extension_dict : Snapshot :=
  variable_dict "ns=2;i=10" "Setpoints" "ExtensionObject"
    ["Root"; "Setpoints"]
    (Some (VObject "asyncua.ua.uaprotocol_auto" "Range(Low=0, High=1)")).

(** The same variable without a captured value. *)
Definition extension_dict_no_value : Snapshot :=
  variable_dict "ns=2;i=10" "Setpoints" "ExtensionObject"
    ["Root"; "Setpoints"] None.

Definition pressure_dict : Snapshot :=
  variable_dict "ns=2;i=11" "1:Pressure" "Int32" ["Root"; "1:Pressure"]
    (Some (VInt 42)).

(** An Object with three Variables, the second one an ExtensionObject. *)
Definition station_dict : Snapshot :=
  object_dict "ns=2;i=8" "Station" ["Station"]
    [flags_dict; extension_dict_no_value; pressure_dict].

(** A dictionary whose class is neither Object nor Variable. *)
Definition method_dict : Snapshot :=
  mkSnapshot "ns=2;i=3" "M" (ClsName "Method") None ["Root"; "M"] None None
    None.

(** Two variables of the same name in two subtrees. *)
Definition tank_a_level : Snapshot :=
  variable_dict "ns=2;i=21" "Level" "Float" ["Plant"; "TankA"; "Level"] None.

Definition tank_b_level : Snapshot :=
  variable_dict "ns=2;i=22" "Level" "Float" ["Plant"; "TankB"; "Level"] None.

(** An address space made of one Byte variable that holds 0. *)
Definition flags_plant : list Row :=
  [ mkRow NC_Variable "Flags" [] (inr VT_Byte) (inr (VInt 0)) ].

(** [d] with the [current_value] entry [cv], or without the entry. *)
Definition set_current_value (cv : option Value) (d : Snapshot) : Snapshot :=
  mkSnapshot (s_id d) (s_name d) (s_cls d) (s_type d) (s_path d) cv (s_node d)
    (s_children d).

(** * Further sample data *)

(** A world whose heap holds one list, the path a caller built. *)
Definition world_with_path : World :=
  mkWorld [["Line1"]] [] [] (fun n => 1000 + Z.of_nat n).


(** An Object with one Variable, as [browse_nodes] returns it without
    [to_export]: integer classes, a member of [VariantType], node handles,
    a [children] list in every dictionary. *)
Definition internal_station : Snapshot :=
  mkSnapshot "ns=2;i=8" "Station" (ClsInt 1) (Some TyNone) ["Station"] None
    (Some 8%nat)
    (Some [mkSnapshot "ns=2;i=11" "1:Pressure" (ClsInt 2)
             (Some (TyEnum VT_Int32)) ["Station"; "1:Pressure"]
             (Some (VInt 42)) (Some 11%nat) (Some [])]).

(** A library where every call goes through, and one configuration
    file. *)
Definition cloud_config : Value :=
  VDict [("server_url", VStr "opc.tcp://0.0.0.0:4840/");
         ("server_certificate_path", VStr "certs/server.der");
         ("server_private_key_path", VStr "certs/server.pem");
         ("certificates",
          VList [VDict [("certificate_path", VStr "certs/bridge.der");
                        ("name", VStr "bridge");
                        ("role", VStr "admin")];
                 VDict [("certificate_path", VStr "certs/viewer.der");
                        ("name", VStr "viewer");
                        ("role", VStr "user")]])].

Definition plain_library : Library :=
  mkLibrary
    (fun _ _ => None)
    (fun path =>
       if String.eqb path "cloud_server_config.yaml"
       then inr cloud_config
       else inl (OtherException "FileNotFoundError")).

(** A library whose [load_certificate] raises. *)
Definition no_certificate_library : Library :=
  mkLibrary
    (fun _ c =>
       match c with
       | LoadCertificate _ _ => Some (OtherException "FileNotFoundError")
       | _ => None
       end)
    (safe_load_file plain_library).

(** An Object with two DateTime Variables that have no captured value. *)
Definition timestamps_dict : Snapshot :=
  object_dict "ns=2;i=30" "Times" ["Times"]
    [variable_dict "ns=2;i=31" "Started" "DateTime" ["Times"; "Started"] None;
     variable_dict "ns=2;i=32" "1:Stopped" "DateTime"
       ["Times"; "1:Stopped"] None].

(** * Properties *)

(** ** [fix_name] *)

Lemma startswith_strip_prefix (p name : string) :
  if startswith name p
  then strip_prefix p name = Some (str_from (String.length p) name)
  else strip_prefix p name = None.
Proof.
  unfold startswith. revert name.
  induction p as [|a p IH]; intros [|c name]; simpl; try reflexivity.
  destruct (Ascii.ascii_dec a c) as [->|N].
  - rewrite Ascii.eqb_refl. apply IH.
  - apply Ascii.eqb_neq in N. rewrite N. reflexivity.
Qed.

Lemma re_search_from_anchored (pat : list ReAtom) (s : string) :
  re_search_from (ReStart :: pat) false s = false.
Proof. induction s as [|c s IH]; simpl; [reflexivity | exact IH]. Qed.

Lemma re_search_digit_colon (s : string) :
  re_search digit_colon s =
  match s with
  | String d (String c _) => is_digit d && Ascii.eqb c ":"
  | _ => false
  end.
Proof.
  unfold re_search, digit_colon.
  destruct s as [|d s]; [reflexivity|].
  cbn [re_search_from re_match_at andb].
  rewrite re_search_from_anchored, orb_false_r.
  destruct s as [|c s]; [apply andb_false_r|].
  rewrite andb_true_r, (Ascii.eqb_sym ":" c). reflexivity.
Qed.

Lemma fix_name_eq (name : string) (namespace_idx : Z) (w : World) :
  fix_name name namespace_idx w =
  (Ok (normalize name namespace_idx),
   if startswith name "http://" then add_log WarnHttpStripped w else w).
Proof.
  unfold fix_name, normalize, strip_http, bind.
  pose proof (startswith_strip_prefix "http://" name) as P.
  destruct (startswith name "http://"); rewrite P; cbn [warning ret].
  - set (rest := str_from _ name). rewrite re_search_digit_colon.
    unfold replace_namespace_digit.
    destruct rest as [|d [|c rest]]; try reflexivity.
    destruct (is_digit d && Ascii.eqb c ":"); reflexivity.
  - rewrite re_search_digit_colon. unfold replace_namespace_digit.
    destruct name as [|d [|c rest]]; try reflexivity.
    destruct (is_digit d && Ascii.eqb c ":"); reflexivity.
Qed.

(** C7.  [fix_name] returns, in every world, the name the three rules of
    the normaliser give for its two arguments; it changes nothing but the
    log, where it records the warning of rule 1; and the three names of the
    design document come out as written there. *)
Theorem fix_name_is_normalize :
  (forall name namespace_idx w,
     exists w',
       fix_name name namespace_idx w = (Ok (normalize name namespace_idx), w')
       /\ heap w' = heap w /\ calls w' = calls w /\ clock w' = clock w
       /\ log w' = log w ++
            (if startswith name "http://" then [WarnHttpStripped] else []))
  /\ (forall w, fst (fix_name "http://foo/bar" 3 w) = Ok "foo/bar")
  /\ (forall w, fst (fix_name "1:Pressure" 5 w) = Ok "5:Pressure")
  /\ (forall w, fst (fix_name "Pressure" 5 w) = Ok "Pressure").
Proof.
  split; [|split; [|split]]; intros.
  - rewrite fix_name_eq. eexists. split; [reflexivity|].
    destruct (startswith name "http://"); simpl;
      rewrite ?app_nil_r; auto.
  - reflexivity.
  - reflexivity.
  - reflexivity.
Qed.

(** ** Running a computation *)

Lemma bind_Ok {A B} (c : M A) (k : A -> M B) w b w' :
  bind c k w = (Ok b, w') ->
  exists a w1, c w = (Ok a, w1) /\ k a w1 = (Ok b, w').
Proof.
  unfold bind. destruct (c w) as [[a| |] w1]; intros H; try discriminate.
  eauto.
Qed.

Lemma ret_Ok {A} (a b : A) w w' : ret a w = (Ok b, w') -> b = a /\ w' = w.
Proof. unfold ret. intros H. injection H as <- <-. auto. Qed.

Lemma call_Ok {A} (r : Exc + A) a w w' :
  call r w = (Ok a, w') -> r = inr a /\ w' = w.
Proof.
  destruct r as [e|x]; simpl; unfold raise, ret; intros H;
    [discriminate | injection H as <- <-; auto].
Qed.

(** Take apart a hypothesis that says a sequence of steps returned. *)
Ltac run_ok H :=
  repeat match type of H with
  | bind _ _ _ = (Ok _, _) =>
      let a := fresh "a" in let w := fresh "w" in
      let H1 := fresh "Hrun" in
      apply bind_Ok in H; destruct H as (a & w & H1 & H)
  end.

Lemma ret_any {A} (a : A) (r : outcome A) w w' :
  ret a w = (r, w') -> r = Ok a /\ w' = w.
Proof. unfold ret. intros H. injection H as <- <-. auto. Qed.

(** ** [build_output] *)

Lemma NodeClass_of_value_value (c : NodeClass) :
  NodeClass_of_value (NodeClass_value c) = Some c.
Proof. destruct c; reflexivity. Qed.

Lemma build_output_Ok node to_export node_id node_name node_class var_type
    current_value path children w snap w' :
  build_output node to_export node_id node_name node_class var_type
    current_value path children w = (Ok snap, w') ->
  w' = w /\
  snap = mkSnapshot node_id node_name (cls_field to_export node_class)
           (type_field to_export var_type) path
           (match var_type, current_value with
            | Some t, Some v =>
                if VariantType_truthy t
                then current_value_field to_export v
                else None
            | _, _ => None
            end)
           (if to_export then None else Some node)
           (children_field to_export children).
Proof.
  unfold build_output. intros H. run_ok H.
  assert (a = match var_type, current_value with
              | Some t, Some v => if VariantType_truthy t then Some v else None
              | _, _ => None
              end
          /\ w0 = w) as [-> ->].
  { destruct var_type as [t|]; [destruct (VariantType_truthy t)|];
      [destruct current_value| |]; simpl in Hrun;
      try discriminate Hrun; apply ret_Ok in Hrun as [-> ->];
      try destruct current_value; auto. }
  clear Hrun. unfold cls_field, type_field, children_field,
    current_value_field.
  destruct to_export; cbn [negb andb] in H |- *.
  - run_ok H. rewrite NodeClass_of_value_value in Hrun.
    apply ret_Ok in H as [-> ->]. split.
    + destruct (NodeClass_value node_class =? 0); simpl in Hrun;
        apply ret_Ok in Hrun as [_ ->]; reflexivity.
    + f_equal.
      * destruct (NodeClass_value node_class =? 0); simpl in Hrun;
          apply ret_Ok in Hrun as [-> _]; reflexivity.
      * destruct var_type as [t|]; [destruct (VariantType_truthy t)|];
          try destruct current_value; reflexivity.
      * destruct children; reflexivity.
  - apply ret_Ok in H as [-> ->]. split; [reflexivity|].
    destruct var_type as [t|]; [destruct (VariantType_truthy t)|];
      try destruct current_value; reflexivity.
Qed.

(** ** [read_variable] *)

Lemma try_call_Ok {A} (r : Exc + A) handles (handler : M A) a w w' :
  try_call r handles handler w = (Ok a, w') ->
  (r = inr a /\ w' = w) \/
  (exists e, r = inl e /\ handles e = true /\ handler w = (Ok a, w')).
Proof.
  destruct r as [e|x]; simpl.
  - destruct (handles e) eqn:E; [eauto | discriminate].
  - intros H. apply ret_Ok in H as [-> ->]. auto.
Qed.

Lemma read_variable_Ok prov node node_class w vt cur w' :
  read_variable prov node node_class w = (Ok (vt, cur), w') ->
  heap w' = heap w /\ calls w' = calls w /\ clock w' = clock w /\
  vt = var_type_of prov node node_class /\
  match vt with
  | Some _ => cur = Some (captured_value prov node)
  | None => True
  end /\
  (node_class = NC_Variable ->
   match get_value prov node with
   | inr _ => True
   | inl e => is_value_read_error e = true
   end).
Proof.
  unfold read_variable, var_type_of, captured_type, captured_value.
  destruct (decide (node_class = NC_Variable)) as [->|N].
  - rewrite bool_decide_eq_false_2 by auto.
    rewrite bool_decide_eq_true_2 by reflexivity.
    destruct (read_data_type_as_variant_type prov node) as [e1|t];
      destruct (get_value prov node) as [e2|v];
      cbv [bind try_call sum_map id ret raise warning];
      try destruct (is_UaError e1); try destruct (is_value_read_error e2);
      intros H; try discriminate H; injection H as <- <- <-;
      simpl; auto 10.
  - rewrite bool_decide_eq_true_2 by assumption.
    rewrite bool_decide_eq_false_2 by assumption.
    intros H. apply ret_Ok in H as [E ->]. injection E as -> ->.
    repeat split; auto. intros; contradiction.
Qed.

(** ** One call of [browse_nodes] that returns *)

Lemma enter_path_run path node_name w p w1 :
  match path with
  | None => new_list [node_name]
  | Some p0 => list_append p0 node_name ;;; ret p0
  end w = (Ok p, w1) ->
  (p, w1) = enter_path path node_name w.
Proof.
  destruct path as [p0|]; cbv [bind list_append new_list ret enter_path];
    intros H; injection H as <- <-; reflexivity.
Qed.

Lemma enter_path_returns path node_name w :
  match path with
  | None => new_list [node_name]
  | Some p0 => list_append p0 node_name ;;; ret p0
  end w = (Ok (fst (enter_path path node_name w)),
           snd (enter_path path node_name w)).
Proof. destruct path; reflexivity. Qed.

Lemma browse_nodes_Ok prov fuel node to_export path w snap w' :
  browse_nodes prov fuel node to_export path w = (Ok snap, w') ->
  exists fuel' node_class node_name kids children w2,
    fuel = S fuel' /\
    read_node_class prov node = inr node_class /\
    read_browse_name prov node = inr node_name /\
    get_children prov node = inr kids /\
    browse_children prov
      (fun child p => browse_nodes prov fuel' child to_export p)
      kids (fst (enter_path path node_name w)) []
      (snd (enter_path path node_name w)) = (Ok children, w2) /\
    heap w' = heap w2 /\ calls w' = calls w2 /\ clock w' = clock w2 /\
    snap = mkSnapshot (nodeid_to_string prov node) node_name
             (cls_field to_export node_class)
             (type_field to_export (var_type_of prov node node_class))
             (default [] (heap w2 !! fst (enter_path path node_name w)))
             (current_value_of prov to_export node node_class)
             (if to_export then None else Some node)
             (children_field to_export children) /\
    (node_class = NC_Variable ->
     match get_value prov node with
     | inr _ => True
     | inl e => is_value_read_error e = true
     end).
Proof.
  destruct fuel as [|fuel']; [discriminate|].
  cbn [browse_nodes]. intros H. run_ok H.
  apply call_Ok in Hrun as [Hc ->].
  apply call_Ok in Hrun0 as [Hn ->].
  apply enter_path_run in Hrun1.
  apply call_Ok in Hrun2 as [Hk ->].
  destruct a4 as [vt cur].
  apply read_variable_Ok in Hrun4 as (Hh & Hcalls & Hclock & -> & Hcur & Hv).
  cbv [read_list] in Hrun5. injection Hrun5 as <- <-.
  apply build_output_Ok in H as [-> ->].
  exists fuel', a, a0, a2, a3, w4.
  rewrite <- Hrun1. cbn [fst snd].
  repeat (split; [first [reflexivity | assumption]|]).
  split; [|exact Hv].
  rewrite Hh. f_equal. unfold current_value_of.
  destruct (var_type_of prov node a); [|reflexivity].
  cbn [fst snd]. rewrite Hcur. reflexivity.
Qed.

(** ** The loop over the children *)

Lemma browse_children_Ok prov rec p kids :
  forall acc w cs w',
    browse_children prov rec kids p acc w = (Ok cs, w') ->
    exists subs,
      cs = acc ++ subs /\
      children_run prov rec p (List.filter (is_exportable prov) kids) subs
        w w'.
Proof.
  induction kids as [|child kids IH]; intros acc w cs w' H.
  - apply ret_Ok in H as [-> ->]. exists []. rewrite app_nil_r.
    split; [reflexivity | constructor].
  - cbn [browse_children] in H. run_ok H. apply call_Ok in Hrun as [Hc ->].
    cbn [List.filter]. unfold is_exportable at 1. rewrite Hc.
    destruct (bool_decide (a ∈ [NC_Object; NC_Variable])) eqn:E.
    + run_ok H. cbv [deepcopy bind read_list new_list] in Hrun.
      injection Hrun as <- <-.
      apply IH in H as (subs & -> & Hsubs).
      exists (a1 :: subs). rewrite <- app_assoc. split; [reflexivity|].
      econstructor; eauto. unfold is_exportable. rewrite Hc. exact E.
    + apply IH in H. exact H.
Qed.

(** ** The exported tree mirrors the Object and Variable nodes *)

Lemma children_of_field i n c t p v nd to_export children :
  children_of (mkSnapshot i n c t p v nd (children_field to_export children))
  = children.
Proof. destruct to_export, children; reflexivity. Qed.

Lemma cls_field_exportable to_export prov k c :
  is_exportable prov k = true ->
  read_node_class prov k = inr c ->
  cls_field to_export c ∈
    (if to_export then [ClsName "Object"; ClsName "Variable"]
     else [ClsInt 1; ClsInt 2]).
Proof.
  unfold is_exportable. intros H E. rewrite E in H.
  destruct to_export, c; try (vm_compute in H; discriminate H);
    compute_done.
Qed.

Lemma nodes_of_eq (s : Snapshot) :
  nodes_of s = s :: flat_map nodes_of (children_of s).
Proof.
  destruct s as [i n c t p v nd [cs|]]; reflexivity.
Qed.

Lemma exported_cls prov to_export node snap :
  exported prov to_export node snap ->
  exists c, read_node_class prov node = inr c
            /\ s_cls snap = cls_field to_export c.
Proof. intros H. destruct H. eauto. Qed.

Lemma exported_children prov to_export node snap kids :
  exported prov to_export node snap ->
  get_children prov node = inr kids ->
  Forall2 (exported prov to_export)
    (List.filter (is_exportable prov) kids) (children_of snap).
Proof.
  intros [n s c kids' _ _ _ Hk HF] Hk'. rewrite Hk in Hk'.
  injection Hk' as <-. exact HF.
Qed.

Lemma browse_nodes_exported prov to_export fuel :
  forall node path w snap w',
    browse_nodes prov fuel node to_export path w = (Ok snap, w') ->
    exported prov to_export node snap /\
    Forall (fun d => s_cls d ∈
              (if to_export then [ClsName "Object"; ClsName "Variable"]
               else [ClsInt 1; ClsInt 2]))
      (flat_map nodes_of (children_of snap)).
Proof.
  induction fuel as [|fuel IH]; intros node path w snap w' H;
    apply browse_nodes_Ok in H
      as (fuel' & c & name & kids & children & w2 & Hf & Hc & Hn & Hk & Hloop
          & _ & _ & _ & -> & _); [discriminate|].
  injection Hf as <-.
  apply browse_children_Ok in Hloop as (subs & -> & Hrun). cbn [app] in *.
  rewrite children_of_field.
  assert (Forall2 (exported prov to_export)
            (List.filter (is_exportable prov) kids) subs /\
          Forall (fun d => s_cls d ∈
                    (if to_export then [ClsName "Object"; ClsName "Variable"]
                     else [ClsInt 1; ClsInt 2]))
            (flat_map nodes_of subs)) as [HA HB].
  { clear Hk. induction Hrun as [|child kids' sub subs w0 w1 w3 He Hrec _ IHr].
    - split; constructor.
    - apply IH in Hrec as [Hex Hd]. destruct IHr as [IH1 IH2].
      split; [constructor; assumption|].
      cbn [flat_map]. apply Forall_app. split; [|assumption].
      rewrite nodes_of_eq. constructor.
      + destruct (exported_cls _ _ _ _ Hex) as (c' & Hc' & ->).
        eapply cls_field_exportable; eauto.
      + exact Hd. }
  split; [|exact HB].
  econstructor; eauto. rewrite children_of_field. exact HA.
Qed.

(** C1, as the code has it.  Whenever [browse_nodes] returns, the tree is
    the image of the node graph restricted to Object and Variable children
    ([exported]: the children of each dictionary are, in order, the
    dictionaries of the Object and Variable children of its node, so no
    node is reached through a child of another class), and every
    dictionary below the top one has class Object or Variable.  The top
    dictionary has the class of the node the caller passed. *)
Theorem browse_nodes_class_filter prov fuel node to_export path w snap w' :
  browse_nodes prov fuel node to_export path w = (Ok snap, w') ->
  exported prov to_export node snap /\
  Forall (fun d => s_cls d ∈
            (if to_export then [ClsName "Object"; ClsName "Variable"]
             else [ClsInt 1; ClsInt 2]))
    (flat_map nodes_of (children_of snap)).
Proof. apply browse_nodes_exported. Qed.

Lemma browse_nodes_class_filter_witness :
  exists snap w',
    browse_nodes (table_provider plant) 4 0%nat true None world0
      = (Ok snap, w') /\
    exported (table_provider plant) true 0%nat snap /\
    Forall (fun d => s_cls d ∈ [ClsName "Object"; ClsName "Variable"])
      (flat_map nodes_of (children_of snap)).
Proof.
  eexists _, _. split; [vm_compute; reflexivity|].
  eapply (browse_nodes_class_filter (table_provider plant) 4 0%nat true None
            world0).
  vm_compute. reflexivity.
Defined.

(** C1 as stated fails: exported from the Method node [M], the top
    dictionary has class Method, and the export went through it to its
    child. *)
Lemma browse_nodes_method_root :
  exists snap w',
    browse_nodes (table_provider plant) 4 3%nat true None world0
      = (Ok snap, w') /\
    s_cls snap = ClsName "Method" /\
    cls_object_or_variable (s_cls snap) = false /\
    map s_name (children_of snap) = ["hidden"].
Proof. eexists _, _. vm_compute. repeat split. Qed.

Lemma browse_nodes_exported_all prov to_export
    (P : Node -> Snapshot -> Prop) :
  (forall node name c kids path children,
     read_node_class prov node = inr c ->
     get_children prov node = inr kids ->
     length children = length (List.filter (is_exportable prov) kids) ->
     (c = NC_Variable ->
      match get_value prov node with
      | inr _ => True
      | inl e => is_value_read_error e = true
      end) ->
     P node
       (mkSnapshot (nodeid_to_string prov node) name (cls_field to_export c)
          (type_field to_export (var_type_of prov node c)) path
          (current_value_of prov to_export node c)
          (if to_export then None else Some node)
          (children_field to_export children))) ->
  forall fuel node path w snap w',
    browse_nodes prov fuel node to_export path w = (Ok snap, w') ->
    exported_all prov P node snap.
Proof.
  intros HP. induction fuel as [|fuel IH]; intros node path w snap w' H;
    apply browse_nodes_Ok in H
      as (fuel' & c & name & kids & children & w2 & Hf & Hc & _ & Hk & Hloop
          & _ & _ & _ & -> & Hv); [discriminate|].
  injection Hf as <-.
  apply browse_children_Ok in Hloop as (subs & -> & Hrun). cbn [app] in *.
  assert (Forall2 (exported_all prov P)
            (List.filter (is_exportable prov) kids) subs) as HF.
  { clear Hk. induction Hrun as [|child kids' sub subs w0 w1 w3 _ Hrec _ IHr];
      constructor; [eapply IH; exact Hrec | exact IHr]. }
  apply (exported_all_intro _ _ _ _ kids);
    [|exact Hk|rewrite children_of_field; exact HF].
  apply (HP node name c kids); [exact Hc | exact Hk | | exact Hv].
  symmetry. apply (Forall2_length _ _ _ HF).
Qed.

(** C4, as the code has it.  At every depth of the tree [browse_nodes]
    returns, and whatever the class of the node: the dictionary is that of
    its node and lists, in order, one dictionary for each child of the node
    of class Object or Variable; its [children] entry is missing exactly
    when the export is in serialisable mode and the node has no such
    child.  So in internal mode every dictionary has a [children]
    entry. *)
Theorem browse_nodes_children_field prov fuel node to_export path w snap w' :
  browse_nodes prov fuel node to_export path w = (Ok snap, w') ->
  exported_all prov (children_entry prov to_export) node snap.
Proof.
  apply browse_nodes_exported_all.
  intros n name c kids p children _ Hk Hlen _.
  split; [reflexivity|]. exists kids. split; [exact Hk|].
  rewrite children_of_field. split; [exact Hlen|]. cbn [s_children].
  destruct to_export, children as [|x xs]; cbn [children_field];
    destruct (List.filter (is_exportable prov) kids);
    try discriminate Hlen; split; try discriminate; intuition discriminate.
Qed.

Lemma browse_nodes_children_field_witness :
  exists snap w' a1 eurange,
    browse_nodes (table_provider plant) 4 1%nat true None world0
      = (Ok snap, w') /\
    children_of snap = [a1] /\ children_of a1 = [eurange] /\
    children_entry (table_provider plant) true 4%nat a1 /\
    children_entry (table_provider plant) true 7%nat eurange /\
    s_children eurange = None.
Proof.
  eassert (browse_nodes (table_provider plant) 4 1%nat true None world0
           = (Ok _, _)) as E by (vm_compute; reflexivity).
  pose proof (browse_nodes_children_field _ _ _ _ _ _ _ _ E) as H.
  inversion H as [n s kids _ Hk Hkids]; subst n s.
  injection Hk as <-. clear H.
  inversion Hkids as [|x y l l' Ha1 Hrest]; subst. clear Hkids Hrest.
  inversion Ha1 as [n s kids Pa1 Hk Hkids]; subst n s.
  injection Hk as <-. clear Ha1.
  inversion Hkids as [|x y l l' Heu Hrest]; subst. clear Hkids Hrest.
  inversion Heu as [n s kids Peu _ _]; subst n s. clear Heu.
  eexists _, _, _, _.
  split; [exact E|]. split; [reflexivity|]. split; [reflexivity|].
  split; [exact Pa1|]. split; [exact Peu|]. reflexivity.
Defined.

(** C4 as stated fails: the Variable [a1] has the Variable child
    [EURange], and its dictionary has a [children] entry. *)
Lemma browse_nodes_variable_with_children :
  exists snap w',
    browse_nodes (table_provider plant) 4 4%nat true None world0
      = (Ok snap, w') /\
    s_cls snap = ClsName "Variable" /\
    map s_name (children_of snap) = ["EURange"] /\
    s_children snap <> None.
Proof. eexists _, _. vm_compute. repeat split. discriminate. Qed.

(** ** The export returns on a readable, acyclic address space *)

Lemma bind_run {A B} (c : M A) (k : A -> M B) w a w1 :
  c w = (Ok a, w1) -> bind c k w = k a w1.
Proof. unfold bind. intros ->. reflexivity. Qed.

Lemma read_variable_returns prov node c w :
  (c = NC_Variable ->
   match read_data_type_as_variant_type prov node with
   | inr _ => true
   | inl e => is_UaError e
   end = true /\
   match get_value prov node with
   | inr _ => true
   | inl e => is_value_read_error e
   end = true) ->
  exists vars w', read_variable prov node c w = (Ok vars, w').
Proof.
  unfold read_variable. intros H.
  destruct (decide (c = NC_Variable)) as [E|N].
  - rewrite bool_decide_eq_false_2 by auto. destruct (H E) as [Ht Hv].
    destruct (read_data_type_as_variant_type prov node) as [e1|t];
      destruct (get_value prov node) as [e2|v];
      cbv [bind try_call sum_map id ret raise warning];
      rewrite ?Ht, ?Hv; eauto.
  - rewrite bool_decide_eq_true_2 by assumption. unfold ret. eauto.
Qed.

Lemma build_output_returns node to_export node_id node_name node_class
    var_type current_value path children w :
  match var_type, current_value with
  | Some _, None => False
  | _, _ => True
  end ->
  exists snap, build_output node to_export node_id node_name node_class
                 var_type current_value path children w = (Ok snap, w).
Proof.
  intros H. unfold build_output.
  destruct var_type as [t|], current_value as [v|]; try destruct H;
    try destruct (VariantType_truthy t);
    destruct to_export; cbv [bind ret negb];
    rewrite ?NodeClass_of_value_value;
    destruct (NodeClass_value node_class =? 0); eauto.
Qed.

Lemma browse_children_returns prov rec p kids :
  (forall k, k ∈ kids -> exists c, read_node_class prov k = inr c) ->
  (forall k q w, k ∈ kids -> exists s w', rec k q w = (Ok s, w')) ->
  forall acc w,
    exists cs w', browse_children prov rec kids p acc w = (Ok cs, w').
Proof.
  induction kids as [|k kids IH]; intros Hc Hr acc w.
  - unfold browse_children, ret. eauto.
  - cbn [browse_children].
    destruct (Hc k) as [c Ek]; [apply list_elem_of_here|].
    rewrite Ek. cbn [call]. erewrite bind_run by reflexivity.
    assert (forall acc w, exists cs w',
              browse_children prov rec kids p acc w = (Ok cs, w')) as IH'.
    { apply IH; intros; [apply Hc | apply Hr]; apply list_elem_of_further;
        assumption. }
    destruct (bool_decide (c ∈ [NC_Object; NC_Variable])); [|apply IH'].
    erewrite bind_run by reflexivity.
    edestruct (Hr k) as (s & w1 & Es); [apply list_elem_of_here|].
    erewrite bind_run by exact Es. apply IH'.
Qed.

Lemma browsable_node_ok prov rank nodes n :
  browsable prov rank nodes = true -> n ∈ nodes ->
  node_ok prov rank nodes n = true.
Proof.
  unfold browsable. rewrite forallb_forall. intros H Hn. apply H.
  apply list_elem_of_In. exact Hn.
Qed.

Lemma browse_nodes_returns prov rank nodes to_export :
  browsable prov rank nodes = true ->
  forall fuel node path w,
    node ∈ nodes -> (rank node < fuel)%nat ->
    exists snap w',
      browse_nodes prov fuel node to_export path w = (Ok snap, w').
Proof.
  intros Hb. induction fuel as [|fuel IH]; intros node path w Hn Hr; [lia|].
  pose proof (browsable_node_ok _ _ _ _ Hb Hn) as Hok. unfold node_ok in Hok.
  destruct (read_node_class prov node) as [?|c] eqn:Ec; [discriminate|].
  destruct (read_browse_name prov node) as [?|name] eqn:En; [discriminate|].
  destruct (get_children prov node) as [?|kids] eqn:Ek; [discriminate|].
  apply andb_true_iff in Hok as [Hkids Hvar].
  rewrite forallb_forall in Hkids.
  cbn [browse_nodes]. rewrite Ec, En, Ek. cbn [call].
  erewrite bind_run by reflexivity. erewrite bind_run by reflexivity.
  erewrite bind_run by apply enter_path_returns.
  erewrite bind_run by reflexivity.
  edestruct (browse_children_returns prov
               (fun child p => browse_nodes prov fuel child to_export p)
               (fst (enter_path path name w)) kids) as (cs & w2 & Ecs).
  { intros k Hk. apply list_elem_of_In, Hkids, andb_true_iff in Hk as [Hk _].
    apply bool_decide_eq_true in Hk.
    pose proof (browsable_node_ok _ _ _ _ Hb Hk) as Hok'.
    unfold node_ok in Hok'.
    destruct (read_node_class prov k); [discriminate | eauto]. }
  { intros k q w0 Hk.
    apply list_elem_of_In, Hkids, andb_true_iff in Hk as [Hk Hlt].
    apply bool_decide_eq_true in Hk. apply bool_decide_eq_true in Hlt.
    apply IH; [exact Hk | lia]. }
  erewrite bind_run by exact Ecs.
  destruct (read_variable_returns prov node c w2) as ([vt cur] & w3 & Ev).
  { intros ->. rewrite bool_decide_eq_true_2 in Hvar by reflexivity.
    apply andb_true_iff in Hvar. exact Hvar. }
  erewrite bind_run by exact Ev.
  erewrite bind_run by reflexivity.
  apply read_variable_Ok in Ev as (_ & _ & _ & _ & Hcur & _).
  edestruct build_output_returns as (snap & Es); [|rewrite Es; eauto].
  cbn [fst snd]. destruct vt; [rewrite Hcur|]; exact I.
Qed.

(** C2, as the code has it.  At every depth of the tree [browse_nodes]
    returns: the [current_value] entry is there only for a Variable whose
    declared type was resolved to a truthy member of [VariantType] (any
    but [Null]); for such a node it holds the value read -- [None] of
    Python when the read failed, which can only be with one of the four
    errors the code catches -- unless the export is in serialisable mode
    and the value is a truthy object of [asyncua].  And the export returns
    on every address space where the unguarded reads succeed, the graph is
    acyclic and within the recursion bound, and value reads fail with these
    four errors only. *)
Theorem browse_nodes_current_value prov fuel node to_export path w :
  (forall snap w',
     browse_nodes prov fuel node to_export path w = (Ok snap, w') ->
     exported_all prov (current_value_entry prov to_export) node snap)
  /\
  (forall rank nodes,
     browsable prov rank nodes = true -> node ∈ nodes ->
     (rank node < fuel)%nat ->
     exists snap w',
       browse_nodes prov fuel node to_export path w = (Ok snap, w')).
Proof.
  split.
  - intros snap w'. apply browse_nodes_exported_all.
    intros n name c kids p children Hc _ _ Hv.
    exists c. split; [exact Hc|]. cbn [s_current_value].
    unfold current_value_of, var_type_of, current_value_field, type_resolved.
    split; [|split].
    + destruct (decide (c = NC_Variable)) as [->|N].
      * rewrite bool_decide_eq_true_2 by reflexivity.
        destruct (captured_type prov n) as [t|];
          [|intros [? ?]; discriminate].
        destruct (VariantType_truthy t) eqn:Et; [eauto|].
        intros [? ?]; discriminate.
      * rewrite bool_decide_eq_false_2 by assumption.
        intros [? ?]; discriminate.
    + intros -> (t & Ht & Et). rewrite bool_decide_eq_true_2 by reflexivity.
      rewrite Ht, Et. reflexivity.
    + intros e -> Ee. specialize (Hv eq_refl). rewrite Ee in Hv.
      split; [exact Hv|]. intros (t & Ht & Et).
      rewrite bool_decide_eq_true_2 by reflexivity. rewrite Ht, Et.
      unfold captured_value. rewrite Ee. cbn [truthy andb].
      rewrite andb_false_r. reflexivity.
  - intros rank nodes Hb Hn Hr.
    eapply browse_nodes_returns; eassumption.
Qed.

Lemma browse_nodes_current_value_witness :
  exists snap w' b1,
    browse_nodes (table_provider plant) 4 2%nat false None world0
      = (Ok snap, w') /\
    children_of snap = [b1] /\
    current_value_entry (table_provider plant) false 5%nat b1 /\
    s_current_value b1 = Some VNone.
Proof.
  eassert (browse_nodes (table_provider plant) 4 2%nat false None world0
           = (Ok _, _)) as E by (vm_compute; reflexivity).
  pose proof (proj1 (browse_nodes_current_value (table_provider plant) 4
                       2%nat false None world0) _ _ E) as H.
  inversion H as [n s kids _ Hk Hkids]; subst n s.
  injection Hk as <-. clear H.
  inversion Hkids as [|x y l l' Hb1 Hrest]; subst. clear Hkids Hrest.
  inversion Hb1 as [n s kids Pb1 _ _]; subst n s. clear Hb1.
  eexists _, _, _.
  split; [exact E|]. split; [reflexivity|]. split; [exact Pb1|].
  destruct Pb1 as (c & Hc & _ & _ & Hfail). injection Hc as <-.
  destruct (Hfail BadOutOfService eq_refl eq_refl) as [_ Hnull].
  apply Hnull. exists VT_Byte. split; reflexivity.
Defined.

(** C2 as stated fails in both directions: [b1], whose value read fails
    with [BadOutOfService], has a [current_value] entry that holds [None];
    [EURange], whose value read succeeds, has no [current_value] entry
    because its type was not resolved. *)
Lemma browse_nodes_current_value_not_read :
  (exists snap w',
     browse_nodes (table_provider plant) 4 5%nat true None world0
       = (Ok snap, w') /\
     get_value (table_provider plant) 5%nat = inl BadOutOfService /\
     s_cls snap = ClsName "Variable" /\
     s_current_value snap = Some VNone)
  /\
  (exists snap w',
     browse_nodes (table_provider plant) 4 7%nat true None world0
       = (Ok snap, w') /\
     get_value (table_provider plant) 7%nat = inr (VInt 0) /\
     s_cls snap = ClsName "Variable" /\
     s_current_value snap = None).
Proof. split; eexists _, _; vm_compute; repeat split. Qed.

(** ** Paths *)

Lemma Snapshot_tree_ind (P : Snapshot -> Prop) :
  (forall s, Forall P (children_of s) -> P s) -> forall s, P s.
Proof.
  intros H. fix IH 1. intros s. apply H.
  destruct s as [i n c t p v nd [cs|]]; cbn.
  - induction cs as [|x cs IHcs]; constructor; [apply IH | exact IHcs].
  - constructor.
Qed.

Lemma enter_path_facts path name w :
  valid_path path w ->
  (fst (enter_path path name w)
   < length (heap (snd (enter_path path name w))))%nat
  /\ heap (snd (enter_path path name w)) !! fst (enter_path path name w)
     = Some (path_content path w ++ [name])
  /\ heap_frame path w (snd (enter_path path name w)).
Proof.
  unfold heap_frame, valid_path, path_content, enter_path.
  destruct path as [p|]; cbn [fst snd heap set_heap]; intros Hv.
  - rewrite length_alter, list_lookup_alter_eq.
    destruct (lookup_lt_is_Some_2 _ _ Hv) as [x Hx]. rewrite Hx. cbn.
    split; [exact Hv|]. split; [reflexivity|]. split; [lia|].
    intros l _ Hl. apply list_lookup_alter_ne. congruence.
  - rewrite length_app. cbn [length].
    split; [lia|]. split; [apply list_lookup_middle; reflexivity|].
    split; [lia|]. intros l Hl _. apply lookup_app_l. exact Hl.
Qed.

Lemma children_run_paths prov rec p :
  (forall node path w snap w',
     valid_path path w -> rec node path w = (Ok snap, w') ->
     heap_frame path w w' /\ paths_from (path_content path w) snap) ->
  forall kids subs w w',
    children_run prov rec p kids subs w w' ->
    (p < length (heap w))%nat ->
    heap_frame None w w' /\
    Forall (paths_from (default [] (heap w !! p))) subs.
Proof.
  intros Hrec kids subs w w' Hrun.
  induction Hrun as [|child kids sub subs w w1 w2 _ Hcall _ IH]; intros Hp.
  - split; [split; [lia | auto] | constructor].
  - apply Hrec in Hcall as [[Hlen Hkeep] Hsub];
      [|cbn; rewrite length_app; cbn; lia].
    cbn [heap set_heap] in Hlen, Hkeep. rewrite length_app in Hlen, Hkeep.
    cbn [length] in Hlen, Hkeep.
    assert (forall l, (l < length (heap w))%nat ->
                      heap w1 !! l = heap w !! l) as Hold.
    { intros l Hl. rewrite Hkeep by (try lia; intros [= E]; lia).
      apply lookup_app_l. exact Hl. }
    destruct IH as [[Hlen' Hkeep'] Hsubs]; [lia|].
    split; [split; [lia|]|].
    + intros l Hl _. rewrite Hkeep' by (try lia; discriminate).
      apply Hold. exact Hl.
    + constructor.
      * replace (path_content _ _) with (default [] (heap w !! p)) in Hsub;
          [exact Hsub|].
        unfold path_content. cbn [heap set_heap].
        rewrite list_lookup_middle by reflexivity. reflexivity.
      * rewrite (Hold p Hp) in Hsubs. exact Hsubs.
Qed.

Lemma browse_nodes_paths prov to_export fuel :
  forall node path w snap w',
    valid_path path w ->
    browse_nodes prov fuel node to_export path w = (Ok snap, w') ->
    heap_frame path w w' /\ paths_from (path_content path w) snap.
Proof.
  induction fuel as [|fuel IH]; intros node path w snap w' Hv H;
    apply browse_nodes_Ok in H
      as (fuel' & c & name & kids & children & w2 & Hf & _ & _ & _ & Hloop
          & Hh & _ & _ & -> & _); [discriminate|].
  injection Hf as <-.
  apply browse_children_Ok in Hloop as (subs & -> & Hrun). cbn [app] in *.
  destruct (enter_path_facts path name w Hv) as (Hp & Hcontent & Hlen & Hkeep).
  eapply children_run_paths in Hrun as [[Hlen' Hkeep'] Hsubs];
    [|exact IH|exact Hp].
  rewrite Hcontent in Hsubs. cbn in Hsubs.
  split; [split|].
  - rewrite Hh. lia.
  - intros l Hl Hne. rewrite Hh, Hkeep' by (try lia; discriminate).
    apply Hkeep; assumption.
  - constructor; rewrite ?children_of_field; cbn [s_path s_name].
    + rewrite Hkeep' by (try exact Hp; discriminate).
      rewrite Hcontent. reflexivity.
    + exact Hsubs.
Qed.

Lemma paths_from_inv prefix s :
  paths_from prefix s ->
  s_path s = prefix ++ [s_name s] /\
  Forall (paths_from (prefix ++ [s_name s])) (children_of s).
Proof. intros [p x H1 H2]. auto. Qed.

Lemma nodes_of_child (s c d : Snapshot) :
  In c (children_of s) -> In d (nodes_of c) -> In d (nodes_of s).
Proof.
  intros Hc Hd. rewrite nodes_of_eq. right. apply in_flat_map. eauto.
Qed.

Lemma paths_from_nodes (s : Snapshot) :
  forall prefix,
    paths_from prefix s ->
    forall d, In d (nodes_of s) ->
      exists branch,
        s_path d = prefix ++ branch /\
        forall x, In x branch -> In x (map s_name (nodes_of s)).
Proof.
  induction s as [s IH] using Snapshot_tree_ind. intros prefix Hs d Hd.
  apply paths_from_inv in Hs as [Hpath Hkids]. rewrite nodes_of_eq in Hd.
  destruct Hd as [<-|Hd].
  - exists [s_name s]. split; [exact Hpath|].
    intros x [<-|[]]. rewrite nodes_of_eq. left. reflexivity.
  - apply in_flat_map in Hd as (c & Hc & Hd).
    rewrite Forall_forall in IH, Hkids.
    apply list_elem_of_In in Hc.
    destruct (IH c Hc _ (Hkids c Hc) d Hd) as (branch & Ed & Hb).
    exists (s_name s :: branch). split.
    + rewrite Ed, <- app_assoc. reflexivity.
    + intros x [<-|Hx]; [rewrite nodes_of_eq; left; reflexivity|].
      apply Hb, in_map_iff in Hx as (n & <- & Hn). apply in_map.
      apply list_elem_of_In in Hc. eapply nodes_of_child; eassumption.
Qed.

(** C8.  Exported from the top ([path] not given), every dictionary has
    as [path] the names on the branch that leads to it; hence, for two
    children [a] and [b] of the top dictionary, the name of [b] is in no
    path recorded below [a], unless it is also the name of the top node or
    of a node below [a]. *)
Theorem browse_nodes_path_isolation prov fuel node to_export w snap w' :
  browse_nodes prov fuel node to_export None w = (Ok snap, w') ->
  paths_from [] snap /\
  forall i j a b,
    children_of snap !! i = Some a ->
    children_of snap !! j = Some b ->
    s_name b ∉ s_name snap :: map s_name (nodes_of a) ->
    Forall (fun d => s_name b ∉ s_path d) (nodes_of a).
Proof.
  intros H. apply browse_nodes_paths in H as [_ Hp]; [|exact I].
  cbn [path_content] in Hp. split; [exact Hp|].
  intros i j a b Ha _ Hb. apply paths_from_inv in Hp as [Hpath Hkids].
  rewrite Forall_forall in Hkids. apply list_elem_of_lookup_2 in Ha.
  specialize (Hkids a Ha). cbn [app] in Hkids.
  apply Forall_forall. intros d Hd Hin. apply list_elem_of_In in Hd.
  destruct (paths_from_nodes a _ Hkids d Hd) as (branch & Ed & Hbr).
  apply Hb. rewrite Ed in Hin. cbn [app] in Hin.
  apply elem_of_cons in Hin as [->|Hin]; [apply list_elem_of_here|].
  apply list_elem_of_further, list_elem_of_In, Hbr, list_elem_of_In, Hin.
Qed.

Lemma plant_export_eq :
  browse_nodes (table_provider plant) 4 0%nat true None world0 = plant_export.
Proof. vm_compute. reflexivity. Qed.

Lemma browse_nodes_path_isolation_witness :
  exists snap w' a b,
    browse_nodes (table_provider plant) 4 0%nat true None world0
      = (Ok snap, w') /\
    children_of snap !! 0%nat = Some a /\
    children_of snap !! 1%nat = Some b /\
    s_name a = "A" /\ s_name b = "B" /\
    map s_path (nodes_of a)
      = [["Root"; "A"]; ["Root"; "A"; "a1"]; ["Root"; "A"; "a1"; "EURange"]]
    /\ Forall (fun d => s_name b ∉ s_path d) (nodes_of a)
    /\ Forall (fun d => s_name a ∉ s_path d) (nodes_of b).
Proof.
  eexists _, _, _, _.
  split; [exact plant_export_eq|].
  split; [reflexivity|]. split; [reflexivity|].
  split; [reflexivity|]. split; [reflexivity|]. split; [reflexivity|].
  split.
  - apply (proj2 (browse_nodes_path_isolation (table_provider plant) 4 0%nat
                    true world0 _ _ plant_export_eq) 0%nat 1%nat);
      [reflexivity | reflexivity | compute_done].
  - apply (proj2 (browse_nodes_path_isolation (table_provider plant) 4 0%nat
                    true world0 _ _ plant_export_eq) 1%nat 0%nat);
      [reflexivity | reflexivity | compute_done].
Defined.

(** C8 as stated fails: in [namesake_plant] the root and its second
    child are both named [B]; the two children [A] and [B] are Objects with
    one child each, and the name of [B] is in every path recorded below
    [A], since each of them begins with the name of the root. *)
Lemma browse_nodes_sibling_name_in_path :
  exists snap w' a b,
    browse_nodes (table_provider namesake_plant) 3 0%nat true None world0
      = (Ok snap, w') /\
    children_of snap = [a; b] /\
    s_name a = "A" /\ s_name b = "B" /\
    s_cls a = ClsName "Object" /\ s_cls b = ClsName "Object" /\
    map s_name (children_of a) = ["a1"] /\
    map s_name (children_of b) = ["b1"] /\
    map s_path (nodes_of a) = [["B"; "A"]; ["B"; "A"; "a1"]] /\
    Forall (fun d => s_name b ∈ s_path d) (nodes_of a).
Proof.
  eexists _, _, _, _.
  split; [vm_compute; reflexivity|].
  do 8 (split; [reflexivity|]).
  repeat constructor.
Qed.

(** ** One call of [clone_nodes] *)

Lemma clone_nodes_eq tgt d base_object idx node_id_prefix w :
  clone_nodes tgt d base_object idx node_id_prefix w =
  let name := normalize (s_name d) idx in
  let renamed := set_name name d in
  let w1 := after_fix_name (s_name d) w in
  if bool_decide (s_cls d ∈ [ClsInt 1; ClsName "Object"])
  then
    match s_children d with
    | Some ((_ :: _) as children) =>
        bind_holding renamed
          (add_object tgt base_object (node_id_prefix +:+ s_id d) name)
          (fun next_obj w =>
             let '(children', r) :=
               for_children
                 (fun child =>
                    clone_nodes tgt child next_obj idx node_id_prefix)
                 children [] w in
             (set_children children' renamed, r)) w1
    | _ => (renamed, (Ok [], w1))
    end
  else if bool_decide (s_cls d ∈ [ClsInt 2; ClsName "Variable"])
  then
    bind_holding renamed
      (add_variable tgt base_object renamed (node_id_prefix +:+ s_id d))
      (fun next_var w =>
         match next_var with
         | None => (renamed, (Ok [], w))
         | Some next_var =>
             (renamed,
              (Ok [(s_id d, target_nodeid_to_string tgt next_var)], w))
         end) w1
  else (renamed, (Raise NotImplementedError, w1)).
Proof.
  destruct d as [i n c t p v nd ch]. cbn [clone_nodes].
  unfold bind_holding at 1. rewrite fix_name_eq. unfold after_fix_name.
  cbn [s_cls s_children s_name s_id].
  destruct (bool_decide (c ∈ [ClsInt 1; ClsName "Object"]));
    [destruct ch as [[|x xs]|]; reflexivity|].
  destruct (bool_decide (c ∈ [ClsInt 2; ClsName "Variable"])); reflexivity.
Qed.

(** ** The dictionary after the clone *)

Lemma for_children_erase_names (rec : Snapshot -> World -> Cloned) cs :
  Forall (fun c => forall w, erase_names (fst (rec c w)) = erase_names c) cs ->
  forall acc w,
    map erase_names (fst (for_children rec cs acc w)) = map erase_names cs.
Proof.
  induction 1 as [|c cs Hc _ IH]; intros acc w; [reflexivity|].
  cbn [for_children]. specialize (Hc w).
  destruct (rec c w) as [c' [[m| |] w']]; cbn [fst] in Hc.
  - specialize (IH (acc ++ m) w').
    destruct (for_children rec cs (acc ++ m) w') as [cs' r].
    cbn [fst map] in *. congruence.
  - cbn [fst map]. congruence.
  - cbn [fst map]. congruence.
Qed.

Lemma erase_names_set_name name d :
  erase_names (set_name name d) = erase_names d.
Proof. destruct d; reflexivity. Qed.

Lemma clone_nodes_erase_names tgt d :
  forall base_object idx node_id_prefix w,
    erase_names (fst (clone_nodes tgt d base_object idx node_id_prefix w))
    = erase_names d.
Proof.
  induction d as [d IH] using Snapshot_tree_ind.
  intros base_object idx node_id_prefix w. rewrite clone_nodes_eq. cbv zeta.
  destruct (bool_decide (s_cls d ∈ [ClsInt 1; ClsName "Object"])).
  - destruct (s_children d) as [[|c cs]|] eqn:Ech;
      try apply erase_names_set_name.
    unfold bind_holding.
    destruct (add_object _ _ _ _ _) as [[next_obj| |] w2];
      try apply erase_names_set_name.
    pose proof (for_children_erase_names
                  (fun child =>
                     clone_nodes tgt child next_obj idx node_id_prefix)
                  (c :: cs)) as Hloop.
    unfold children_of in IH. rewrite Ech in IH. cbn [default] in IH.
    specialize (Hloop ltac:(eapply Forall_impl; [exact IH|]; cbv beta;
                            intros x Hx w0; apply Hx) [] w2).
    destruct (for_children _ (c :: cs) [] w2) as [cs' r].
    cbn [fst] in *. destruct d as [i n cl t p v nd ch].
    cbn in Ech |- *. subst ch. rewrite Hloop. reflexivity.
  - destruct (bool_decide (s_cls d ∈ [ClsInt 2; ClsName "Variable"]));
      [|apply erase_names_set_name].
    unfold bind_holding.
    destruct (add_variable _ _ _ _ _) as [[[next_var|]| |] w2];
      apply erase_names_set_name.
Qed.

Lemma clone_nodes_name tgt d base_object idx node_id_prefix w :
  s_name (fst (clone_nodes tgt d base_object idx node_id_prefix w))
  = normalize (s_name d) idx.
Proof.
  rewrite clone_nodes_eq. cbv zeta.
  destruct (bool_decide (s_cls d ∈ [ClsInt 1; ClsName "Object"])).
  - destruct (s_children d) as [[|c cs]|]; try reflexivity.
    unfold bind_holding.
    destruct (add_object _ _ _ _ _) as [[next_obj| |] w2]; try reflexivity.
    destruct (for_children _ _ _ _) as [cs' r]. reflexivity.
  - destruct (bool_decide (s_cls d ∈ [ClsInt 2; ClsName "Variable"]));
      [|reflexivity].
    unfold bind_holding.
    destruct (add_variable _ _ _ _ _) as [[[next_var|]| |] w2]; reflexivity.
Qed.

Lemma for_children_renamed idx (rec : Snapshot -> World -> Cloned) cs :
  Forall (fun c => forall w m,
            fst (snd (rec c w)) = Ok m -> fst (rec c w) = renamed idx c) cs ->
  forall acc w m,
    fst (snd (for_children rec cs acc w)) = Ok m ->
    fst (for_children rec cs acc w) = map (renamed idx) cs.
Proof.
  induction 1 as [|c cs Hc _ IH]; intros acc w m; [reflexivity|].
  cbn [for_children]. specialize (Hc w).
  destruct (rec c w) as [c' [[m1| |] w1]]; cbn [fst snd] in *;
    [|discriminate|discriminate].
  specialize (IH (acc ++ m1) w1).
  destruct (for_children rec cs (acc ++ m1) w1) as [cs' [r w2]].
  cbn [fst snd map] in *. intros ->.
  rewrite (Hc m1 eq_refl), (IH m eq_refl). reflexivity.
Qed.

Lemma clone_nodes_renamed tgt idx node_id_prefix d :
  forall base_object w m,
    fst (snd (clone_nodes tgt d base_object idx node_id_prefix w)) = Ok m ->
    fst (clone_nodes tgt d base_object idx node_id_prefix w) = renamed idx d.
Proof.
  induction d as [d IH] using Snapshot_tree_ind.
  intros base_object w m. rewrite clone_nodes_eq. cbv zeta.
  destruct (bool_decide (s_cls d ∈ [ClsInt 1; ClsName "Object"])) eqn:Eobj.
  - destruct (s_children d) as [[|c cs]|] eqn:Ech; cbn [fst snd];
      try (intros _; destruct d; cbn in *; rewrite Eobj; subst; reflexivity).
    unfold bind_holding.
    destruct (add_object _ _ _ _ _) as [[next_obj| |] w2]; cbn [fst snd];
      try discriminate.
    pose proof (for_children_renamed idx
                  (fun child =>
                     clone_nodes tgt child next_obj idx node_id_prefix)
                  (c :: cs)) as Hloop.
    unfold children_of in IH. rewrite Ech in IH. cbn [default] in IH.
    specialize (Hloop ltac:(eapply Forall_impl; [exact IH|]; cbv beta;
                            intros x Hx w0; apply Hx) [] w2).
    destruct (for_children _ (c :: cs) [] w2) as [cs' [r w3]].
    cbn [fst snd] in *. intros ->. rewrite (Hloop m eq_refl).
    destruct d as [i n cl t p v nd ch]. cbn in Ech, Eobj |- *.
    rewrite Eobj. subst ch. reflexivity.
  - destruct (bool_decide (s_cls d ∈ [ClsInt 2; ClsName "Variable"]));
      [|discriminate].
    unfold bind_holding.
    destruct (add_variable _ _ _ _ _) as [[[next_var|]| |] w2];
      cbn [fst snd]; try discriminate;
      intros _; destruct d; cbn in *; rewrite Eobj; reflexivity.
Qed.

Lemma fixed_where_visited_refl idx d : fixed_where_visited idx d d.
Proof.
  induction d as [d IH] using Snapshot_tree_ind.
  constructor; [left; reflexivity|].
  induction IH; constructor; assumption.
Qed.

Lemma for_children_fixed idx (rec : Snapshot -> World -> Cloned) cs :
  Forall (fun c => forall w, fixed_where_visited idx c (fst (rec c w))) cs ->
  forall acc w,
    Forall2 (fixed_where_visited idx) cs (fst (for_children rec cs acc w)).
Proof.
  induction 1 as [|c cs Hc _ IH]; intros acc w; [constructor|].
  cbn [for_children]. specialize (Hc w).
  destruct (rec c w) as [c' [[m1| |] w1]]; cbn [fst] in *.
  - specialize (IH (acc ++ m1) w1).
    destruct (for_children rec cs (acc ++ m1) w1) as [cs' r].
    cbn [fst] in *. constructor; assumption.
  - constructor; [exact Hc|].
    clear. induction cs; constructor;
      [apply fixed_where_visited_refl | assumption].
  - constructor; [exact Hc|].
    clear. induction cs; constructor;
      [apply fixed_where_visited_refl | assumption].
Qed.

Lemma fixed_where_visited_set_name idx d :
  fixed_where_visited idx d (set_name (normalize (s_name d) idx) d).
Proof.
  constructor; [right; destruct d; reflexivity|].
  replace (children_of (set_name (normalize (s_name d) idx) d))
    with (children_of d) by (destruct d; reflexivity).
  clear. induction (children_of d); constructor;
    [apply fixed_where_visited_refl | assumption].
Qed.

Lemma clone_nodes_fixed tgt idx node_id_prefix d :
  forall base_object w,
    fixed_where_visited idx d
      (fst (clone_nodes tgt d base_object idx node_id_prefix w)).
Proof.
  induction d as [d IH] using Snapshot_tree_ind.
  intros base_object w. rewrite clone_nodes_eq. cbv zeta.
  destruct (bool_decide (s_cls d ∈ [ClsInt 1; ClsName "Object"])).
  - destruct (s_children d) as [[|c cs]|] eqn:Ech;
      try apply fixed_where_visited_set_name.
    unfold bind_holding.
    destruct (add_object _ _ _ _ _) as [[next_obj| |] w2];
      try apply fixed_where_visited_set_name.
    pose proof (for_children_fixed idx
                  (fun child =>
                     clone_nodes tgt child next_obj idx node_id_prefix)
                  (c :: cs)) as Hloop.
    unfold children_of in IH. rewrite Ech in IH. cbn [default] in IH.
    specialize (Hloop ltac:(eapply Forall_impl; [exact IH|]; cbv beta;
                            intros x Hx w0; apply Hx) [] w2).
    destruct (for_children _ (c :: cs) [] w2) as [cs' r].
    cbn [fst] in *. constructor; [right; destruct d; reflexivity|].
    unfold children_of at 1. rewrite Ech. cbn [default].
    destruct d; exact Hloop.
  - destruct (bool_decide (s_cls d ∈ [ClsInt 2; ClsName "Variable"]));
      [|apply fixed_where_visited_set_name].
    unfold bind_holding.
    destruct (add_variable _ _ _ _ _) as [[[next_var|]| |] w2];
      apply fixed_where_visited_set_name.
Qed.

(** C9, as the code has it.  Whatever the outcome of [clone_nodes], the
    dictionary the caller holds is afterwards what it was in every entry
    but the names, at every depth; its own [name] entry is the normalised
    name, and every other name is what it was or that name normalised.
    When [clone_nodes] returns, the name of every dictionary it visited --
    the top one, and the children of every Object it visited -- is the
    normalised name, and the names below a Variable are what they were. *)
Theorem clone_nodes_changes_names_only tgt d base_object idx node_id_prefix w :
  erase_names (fst (clone_nodes tgt d base_object idx node_id_prefix w))
  = erase_names d /\
  s_name (fst (clone_nodes tgt d base_object idx node_id_prefix w))
  = normalize (s_name d) idx /\
  fixed_where_visited idx d
    (fst (clone_nodes tgt d base_object idx node_id_prefix w)) /\
  (forall m,
     fst (snd (clone_nodes tgt d base_object idx node_id_prefix w)) = Ok m ->
     fst (clone_nodes tgt d base_object idx node_id_prefix w)
     = renamed idx d).
Proof.
  split; [apply clone_nodes_erase_names|].
  split; [apply clone_nodes_name|].
  split; [apply clone_nodes_fixed | apply clone_nodes_renamed].
Qed.

Lemma clone_nodes_changes_names_only_witness :
  map s_name
    (children_of
       (fst (clone_nodes willing_target station_dict 0%nat 5 "" world0)))
  = ["Flags"; "Setpoints"; "5:Pressure"].
Proof.
  rewrite (proj2 (proj2 (proj2 (clone_nodes_changes_names_only willing_target
                                  station_dict 0%nat 5 "" world0))) _
             eq_refl).
  reflexivity.
Defined.

(** C9 as stated fails: after the clone with namespace index 5 the
    dictionary of [1:Pressure] is named [5:Pressure]. *)
Lemma clone_nodes_renames_pressure :
  fst (clone_nodes willing_target pressure_dict 0%nat 5 "" world0)
  <> pressure_dict /\
  s_name pressure_dict = "1:Pressure" /\
  s_name (fst (clone_nodes willing_target pressure_dict 0%nat 5 "" world0))
  = "5:Pressure".
Proof. vm_compute. repeat split. discriminate. Qed.

(** ** One call of [add_variable] *)

Lemma cls_variable_not_object (c : ClsField) :
  c ∈ [ClsInt 2; ClsName "Variable"] ->
  bool_decide (c ∈ [ClsInt 1; ClsName "Object"]) = false /\
  bool_decide (c ∈ [ClsInt 2; ClsName "Variable"]) = true.
Proof.
  intros H. split; [|apply bool_decide_eq_true_2; exact H].
  apply elem_of_cons in H as [->|H]; [reflexivity|].
  apply elem_of_cons in H as [->|H]; [reflexivity|]. inversion H.
Qed.

Lemma calls_after_fix_name name w : calls (after_fix_name name w) = calls w.
Proof. unfold after_fix_name. destruct (startswith _ _); reflexivity. Qed.

Lemma clock_after_fix_name name w : clock (after_fix_name name w) = clock w.
Proof. unfold after_fix_name. destruct (startswith _ _); reflexivity. Qed.

Lemma original_val_of_run d node_type w :
  fst (original_val_of d node_type w)
  = Ok (chosen_value (clock w 0%nat) (s_current_value d) node_type) /\
  calls (snd (original_val_of d node_type w)) = calls w /\
  clock (snd (original_val_of d node_type w))
  = if reads_clock (s_current_value d) node_type
    then tick (clock w)
    else clock w.
Proof.
  unfold original_val_of, chosen_value, reads_clock.
  destruct (truthy (default VNone (s_current_value d)));
    [cbn; auto|]. cbn [negb andb].
  destruct (decide (node_type = Some VT_DateTime)) as [->|N].
  - rewrite (bool_decide_eq_true_2 (Some VT_DateTime = Some VT_DateTime))
      by reflexivity.
    cbn. auto.
  - rewrite (bool_decide_eq_false_2 (node_type = Some VT_DateTime))
      by exact N.
    repeat match goal with
           | |- context [if ?b then _ else _] => destruct b
           end;
      cbv [bind ret warning fst snd]; auto.
Qed.

Lemma add_variable_run tgt base_object d node_id w r w' :
  add_variable tgt base_object d node_id w = (r, w') ->
  clock w' = clock_after_variable d (clock w) /\
  match converted_type (s_type d) with
  | inl s => r = Raise (KeyError s) /\ calls w' = calls w
  | inr ty =>
      match chosen_value (clock w 0%nat) (s_current_value d) ty with
      | None => r = Ok None /\ calls w' = calls w
      | Some val =>
          calls w'
          = calls w
            ++ [(CallAddVariable base_object node_id (s_name d) val ty,
                 add_variable_answer tgt (calls w) base_object node_id
                   (s_name d) val ty)] /\
          r = match add_variable_answer tgt (calls w) base_object node_id
                      (s_name d) val ty with
              | inr n => Ok (Some n)
              | inl _ => Raise (SystemExit 1)
              end
      end
  end.
Proof.
  unfold add_variable, clock_after_variable, converted_type.
  unfold bind at 1. cbn [warning].
  set (w0 := add_log _ w).
  change (clock w) with (clock w0). change (calls w) with (calls w0).
  clearbody w0. unfold bind at 1.
  lazymatch goal with
  | |- (let (o, w1) := _ in
        match o with
        | Ok a => @?k a w1
        | Raise e => _
        | OutOfFuel => _
        end) = _ -> _ => set (rest := k)
  end.
  assert (forall ty,
    rest ty w0 = (r, w') ->
    clock w' = (if reads_clock (s_current_value d) ty
                then tick (clock w0)
                else clock w0) /\
      match chosen_value (clock w0 0%nat) (s_current_value d) ty with
      | None => r = Ok None /\ calls w' = calls w0
      | Some val =>
          calls w'
          = calls w0
            ++ [(CallAddVariable base_object node_id (s_name d) val ty,
                 add_variable_answer tgt (calls w0) base_object node_id
                   (s_name d) val ty)] /\
          r = match add_variable_answer tgt (calls w0) base_object node_id
                      (s_name d) val ty with
              | inr n => Ok (Some n)
              | inl _ => Raise (SystemExit 1)
              end
      end) as Hrest.
  { intros ty. subst rest. cbv beta. unfold bind at 1.
    destruct (original_val_of_run d ty w0) as (E1 & E2 & E3).
    destruct (original_val_of d ty w0) as [r0 w1]. cbn [fst snd] in *.
    subst r0. rewrite <- E2, <- E3.
    destruct (chosen_value (clock w0 0%nat) (s_current_value d) ty)
      as [val|].
    - unfold try_except, bind, create_variable.
      destruct (add_variable_answer tgt (calls w1) base_object node_id
                  (s_name d) val ty) as [e|x];
        cbn [warning raise ret]; intros H; injection H as <- <-; auto.
    - intros H. injection H as <- <-. auto. }
  destruct (default TyNone (s_type d)) as [|vt|s].
  - exact (Hrest None).
  - exact (Hrest (Some vt)).
  - destruct (VariantType_getitem s) as [vt|]; [exact (Hrest (Some vt))|].
    cbv [raise]. intros H. injection H as <- <-. auto.
Qed.

(** ** The two encodings of the class *)

Lemma cls_code_is_object (c : ClsField) :
  bool_decide (cls_code c ∈ [ClsInt 1; ClsName "Object"])
  = bool_decide (c ∈ [ClsInt 1; ClsName "Object"]).
Proof.
  destruct c as [z|s]; [reflexivity|]. unfold cls_code.
  destruct (String.eqb_spec s "Object") as [->|N1]; [reflexivity|].
  destruct (String.eqb_spec s "Variable") as [->|N2]; reflexivity.
Qed.

Lemma cls_code_is_variable (c : ClsField) :
  bool_decide (cls_code c ∈ [ClsInt 2; ClsName "Variable"])
  = bool_decide (c ∈ [ClsInt 2; ClsName "Variable"]).
Proof.
  destruct c as [z|s]; [reflexivity|]. unfold cls_code.
  destruct (String.eqb_spec s "Object") as [->|N1]; [reflexivity|].
  destruct (String.eqb_spec s "Variable") as [->|N2]; reflexivity.
Qed.

Lemma cls_other (c : ClsField) :
  c ∉ [ClsInt 1; ClsName "Object"; ClsInt 2; ClsName "Variable"] ->
  bool_decide (c ∈ [ClsInt 1; ClsName "Object"]) = false /\
  bool_decide (c ∈ [ClsInt 2; ClsName "Variable"]) = false.
Proof.
  intros H. split; apply bool_decide_eq_false_2; intros H'; apply H; clear H;
    (apply elem_of_cons in H' as [->|H']; [compute_done|]);
    (apply elem_of_cons in H' as [->|H']; [compute_done|]);
    inversion H'.
Qed.

Lemma for_children_relabel r (rec rec' : Snapshot -> World -> Cloned) cs :
  Forall (fun c => forall w,
            rec' (relabel r c) w
            = (relabel r (fst (rec c w)), snd (rec c w))) cs ->
  forall acc w,
    for_children rec' (map (relabel r) cs) acc w
    = (map (relabel r) (fst (for_children rec cs acc w)),
       snd (for_children rec cs acc w)).
Proof.
  induction 1 as [|c cs Hc _ IH]; intros acc w; [reflexivity|].
  cbn [for_children map]. rewrite Hc.
  destruct (rec c w) as [c' [[m| |] w']]; cbn [fst snd]; try reflexivity.
  rewrite IH. destruct (for_children rec cs (acc ++ m) w') as [cs' r0].
  reflexivity.
Qed.

Lemma add_variable_relabel tgt r base_object name d node_id :
  add_variable tgt base_object (set_name name (relabel r d)) node_id
  = add_variable tgt base_object (set_name name d) node_id.
Proof. destruct d; reflexivity. Qed.

(** [clone_nodes] reads [cls] through its two tests only and never reads
    [path]. *)
Lemma clone_nodes_relabel tgt r d :
  keeps_class r ->
  forall base_object idx node_id_prefix w,
    clone_nodes tgt (relabel r d) base_object idx node_id_prefix w
    = (relabel r (fst (clone_nodes tgt d base_object idx node_id_prefix w)),
       snd (clone_nodes tgt d base_object idx node_id_prefix w)).
Proof.
  intros Hr. induction d as [d IH] using Snapshot_tree_ind.
  intros base_object idx node_id_prefix w.
  rewrite !clone_nodes_eq. cbv zeta.
  replace (s_cls (relabel r d)) with (on_cls r (s_cls d))
    by (destruct d; reflexivity).
  replace (s_name (relabel r d)) with (s_name d)
    by (destruct d; reflexivity).
  replace (s_id (relabel r d)) with (s_id d)
    by (destruct d; reflexivity).
  destruct (Hr (s_cls d)) as [-> ->]. rewrite add_variable_relabel.
  destruct (bool_decide (s_cls d ∈ [ClsInt 1; ClsName "Object"])).
  - destruct d as [i n cl t p v nd [[|c cs]|]]; try reflexivity.
    cbn [relabel s_children map s_name s_id]. unfold bind_holding.
    change (relabel r c :: map (relabel r) cs)
      with (map (relabel r) (c :: cs)).
    destruct (add_object _ _ _ _ _) as [[next_obj| |] w2]; try reflexivity.
    rewrite (for_children_relabel r
               (fun child =>
                  clone_nodes tgt child next_obj idx node_id_prefix)).
    + destruct (for_children _ (c :: cs) [] w2) as [cs' r0]. reflexivity.
    + eapply Forall_impl; [exact IH|]. cbv beta. intros x Hx w0. apply Hx.
  - destruct (bool_decide (s_cls d ∈ [ClsInt 2; ClsName "Variable"]));
      [|destruct d; reflexivity].
    unfold bind_holding.
    destruct (add_variable _ _ _ _ _) as [[[next_var|]| |] w2];
      destruct d; reflexivity.
Qed.

Lemma clone_nodes_with_cls_codes tgt d :
  forall base_object idx node_id_prefix w,
    clone_nodes tgt (with_cls_codes d) base_object idx node_id_prefix w
    = (with_cls_codes
         (fst (clone_nodes tgt d base_object idx node_id_prefix w)),
       snd (clone_nodes tgt d base_object idx node_id_prefix w)).
Proof.
  apply clone_nodes_relabel. intros c. cbn [on_cls].
  split; [apply cls_code_is_object | apply cls_code_is_variable].
Qed.

Lemma clone_nodes_without_paths tgt d :
  forall base_object idx node_id_prefix w,
    snd (clone_nodes tgt (without_paths d) base_object idx node_id_prefix w)
    = snd (clone_nodes tgt d base_object idx node_id_prefix w).
Proof.
  intros. unfold without_paths. rewrite clone_nodes_relabel; [reflexivity|].
  intros c. split; reflexivity.
Qed.

(** C10.  [clone_nodes] does the same on a tree whose classes are given by
    name and on that tree with the names Object and Variable replaced by
    the codes 1 and 2: same outcome, same requests to the server, same
    log, and the same dictionary afterwards up to that replacement.  On a
    dictionary of any other class it raises [NotImplementedError], once
    the name is normalised and before any request to the server.  A
    dictionary whose class is 1 or Object is cloned as an Object: without
    children it gives the empty mapping and no request; with children,
    [add_object] is asked of the base object with the prefixed identifier
    and the normalised name, its error is the outcome, and otherwise the
    children are cloned in order under the node it returned.  A dictionary
    whose class is 2 or Variable is cloned as a Variable: a type name that
    is no member raises [KeyError], a declined variable gives the empty
    mapping and no request, and otherwise one [add_variable] is asked of
    the base object with the prefixed identifier, the normalised name, the
    chosen value and the type; granted, the mapping pairs the identifier of
    the dictionary with that of the new node; refused, the outcome is
    [SystemExit(1)]. *)
Theorem clone_nodes_cls_encodings tgt d base_object idx node_id_prefix w :
  clone_nodes tgt (with_cls_codes d) base_object idx node_id_prefix w
  = (with_cls_codes (fst (clone_nodes tgt d base_object idx node_id_prefix w)),
     snd (clone_nodes tgt d base_object idx node_id_prefix w))
  /\
  (s_cls d ∉ [ClsInt 1; ClsName "Object"; ClsInt 2; ClsName "Variable"] ->
   clone_nodes tgt d base_object idx node_id_prefix w
   = (set_name (normalize (s_name d) idx) d,
      (Raise NotImplementedError, after_fix_name (s_name d) w)))
  /\
  (s_cls d ∈ [ClsInt 1; ClsName "Object"] ->
   let w1 := after_fix_name (s_name d) w in
   let node_id := node_id_prefix +:+ s_id d in
   let name := normalize (s_name d) idx in
   let request := CallAddObject base_object node_id name in
   match s_children d with
   | Some (c :: cs) =>
       match add_object_answer tgt (calls w1) base_object node_id name with
       | inl e =>
           snd (clone_nodes tgt d base_object idx node_id_prefix w)
           = (Raise e, add_call (request, inl e) w1)
       | inr next_obj =>
           snd (clone_nodes tgt d base_object idx node_id_prefix w)
           = snd (for_children
                    (fun child =>
                       clone_nodes tgt child next_obj idx node_id_prefix)
                    (c :: cs) [] (add_call (request, inr next_obj) w1))
       end
   | _ =>
       snd (clone_nodes tgt d base_object idx node_id_prefix w) = (Ok [], w1)
   end)
  /\
  (s_cls d ∈ [ClsInt 2; ClsName "Variable"] ->
   let r := snd (clone_nodes tgt d base_object idx node_id_prefix w) in
   let node_id := node_id_prefix +:+ s_id d in
   let name := normalize (s_name d) idx in
   match converted_type (s_type d) with
   | inl s => fst r = Raise (KeyError s) /\ calls (snd r) = calls w
   | inr ty =>
       match chosen_value (clock w 0%nat) (s_current_value d) ty with
       | None => fst r = Ok [] /\ calls (snd r) = calls w
       | Some val =>
           let answer :=
             add_variable_answer tgt (calls w) base_object node_id name val
               ty in
           calls (snd r)
           = calls w
             ++ [(CallAddVariable base_object node_id name val ty, answer)]
           /\
           fst r = match answer with
                   | inr n => Ok [(s_id d, target_nodeid_to_string tgt n)]
                   | inl _ => Raise (SystemExit 1)
                   end
       end
   end).
Proof.
  split; [apply clone_nodes_with_cls_codes|].
  split; [|split].
  - intros Hc. rewrite clone_nodes_eq. cbv zeta.
    destruct (cls_other _ Hc) as [-> ->]. reflexivity.
  - intros Hc. cbv zeta. rewrite clone_nodes_eq. cbv zeta.
    rewrite (bool_decide_eq_true_2 _ Hc).
    destruct (s_children d) as [[|c cs]|]; try reflexivity.
    unfold bind_holding, add_object.
    destruct (add_object_answer tgt _ base_object _ _) as [e|next_obj];
      [reflexivity|].
    destruct (for_children _ (c :: cs) [] _) as [cs' r]. reflexivity.
  - intros Hc. cbv zeta. rewrite clone_nodes_eq. cbv zeta.
    destruct (cls_variable_not_object _ Hc) as [-> ->].
    pose proof (calls_after_fix_name (s_name d) w) as Hw.
    pose proof (clock_after_fix_name (s_name d) w) as Hk.
    unfold bind_holding.
    destruct (add_variable tgt base_object _ _ _) as [r w2] eqn:Ev.
    apply add_variable_run in Ev as [_ Ev].
    replace (s_type (set_name (normalize (s_name d) idx) d)) with (s_type d)
      in Ev by (destruct d; reflexivity).
    replace (s_current_value (set_name (normalize (s_name d) idx) d))
      with (s_current_value d) in Ev by (destruct d; reflexivity).
    replace (s_name (set_name (normalize (s_name d) idx) d))
      with (normalize (s_name d) idx) in Ev by (destruct d; reflexivity).
    replace (s_id (set_name (normalize (s_name d) idx) d))
      with (s_id d) by (destruct d; reflexivity).
    rewrite Hw, Hk in Ev.
    destruct (converted_type (s_type d)) as [s|ty].
    + destruct Ev as [-> Ec]. cbn [fst snd]. auto.
    + destruct (chosen_value (clock w 0%nat) (s_current_value d) ty)
        as [val|].
      * destruct Ev as [Ec ->].
        destruct (add_variable_answer tgt (calls w) base_object
                    (node_id_prefix +:+ s_id d) (normalize (s_name d) idx)
                    val ty) as [e|n]; cbn [fst snd]; auto.
      * destruct Ev as [-> Ec]. cbn [fst snd]. auto.
Qed.

Lemma clone_nodes_cls_encodings_witness :
  s_cls (with_cls_codes station_dict) = ClsInt 1 /\
  map s_cls (children_of (with_cls_codes station_dict))
    = [ClsInt 2; ClsInt 2; ClsInt 2] /\
  snd (clone_nodes willing_target (with_cls_codes station_dict) 0%nat 5 ""
         world0)
  = snd (clone_nodes willing_target station_dict 0%nat 5 "" world0) /\
  fst (snd (clone_nodes willing_target method_dict 0%nat 5 "" world0))
  = Raise NotImplementedError /\
  calls (snd (snd (clone_nodes willing_target (with_cls_codes pressure_dict)
                     7%nat 5 "bridge:" world0)))
  = [(CallAddVariable 7%nat "bridge:ns=2;i=11" "5:Pressure" (VInt 42)
        (Some VT_Int32), inr 100%nat)] /\
  fst (snd (clone_nodes willing_target (with_cls_codes pressure_dict) 7%nat
              5 "bridge:" world0))
  = Ok [("ns=2;i=11", "ns=3;i=100")] /\
  calls (snd (snd (clone_nodes refusing_target
                     (object_dict "ns=2;i=8" "1:Station" [] [pressure_dict])
                     7%nat 5 "" world0)))
  = [(CallAddObject 7%nat "ns=2;i=8" "5:Station", inr 100%nat);
     (CallAddVariable 100%nat "ns=2;i=11" "5:Pressure" (VInt 42)
        (Some VT_Int32), inl (UaErrorOther "BadNodeIdExists"))].
Proof.
  split; [reflexivity|]. split; [reflexivity|]. split; [|split; [|split]].
  - rewrite (proj1 (clone_nodes_cls_encodings willing_target station_dict
                      0%nat 5 "" world0)). reflexivity.
  - rewrite (proj1 (proj2 (clone_nodes_cls_encodings willing_target
                             method_dict 0%nat 5 "" world0)));
      [reflexivity | compute_done].
  - apply (proj2 (proj2 (proj2 (clone_nodes_cls_encodings willing_target
                                  (with_cls_codes pressure_dict) 7%nat 5
                                  "bridge:" world0)))).
    compute_done.
  - split.
    + apply (proj2 (proj2 (proj2 (clone_nodes_cls_encodings willing_target
                                    (with_cls_codes pressure_dict) 7%nat 5
                                    "bridge:" world0)))).
      compute_done.
    + pose proof (proj1 (proj2 (proj2 (clone_nodes_cls_encodings
                                         refusing_target
                                         (object_dict "ns=2;i=8" "1:Station"
                                            [] [pressure_dict])
                                         7%nat 5 "" world0)))
                    ltac:(compute_done)) as H.
      cbv zeta in H. cbn [s_children object_dict] in H.
      change (add_object_answer refusing_target _ _ _ _)
        with (@inr Exc nat 100%nat) in H.
      rewrite H. reflexivity.
Defined.

(** ** The log is write-only *)

Lemma same_but_log_refl w : same_but_log w w.
Proof. repeat split. Qed.

Lemma same_but_log_sym w1 w2 : same_but_log w1 w2 -> same_but_log w2 w1.
Proof. intros (? & ? & ?). repeat split; congruence. Qed.

Lemma same_but_log_trans w1 w2 w3 :
  same_but_log w1 w2 -> same_but_log w2 w3 -> same_but_log w1 w3.
Proof. intros (? & ? & ?) (? & ? & ?). repeat split; congruence. Qed.

Lemma same_but_log_add_log e w : same_but_log w (add_log e w).
Proof. repeat split. Qed.

Lemma same_but_log_after_fix_name name w :
  same_but_log w (after_fix_name name w).
Proof.
  unfold after_fix_name. destruct (startswith name "http://");
    [apply same_but_log_add_log | apply same_but_log_refl].
Qed.

Lemma log_blind_ret {A} (a : A) : log_blind (ret a).
Proof. intros w1 w2 H. split; [reflexivity | exact H]. Qed.

Lemma log_blind_raise {A} (e : Exc) : log_blind (@raise A e).
Proof. intros w1 w2 H. split; [reflexivity | exact H]. Qed.

Lemma log_blind_warning (e : LogEntry) : log_blind (warning e).
Proof.
  intros w1 w2 (H1 & H2 & H3). split; [reflexivity|]. repeat split; assumption.
Qed.

Lemma log_blind_today : log_blind today.
Proof.
  intros w1 w2 (H1 & H2 & H3). unfold today. cbn [fst snd].
  split; [congruence|]. split; [exact H1|]. split; [exact H2|].
  cbn [clock set_clock]. rewrite H3. reflexivity.
Qed.

Lemma log_blind_bind {A B} (c : M A) (k : A -> M B) :
  log_blind c -> (forall a, log_blind (k a)) -> log_blind (bind c k).
Proof.
  intros Hc Hk w1 w2 H. unfold bind. destruct (Hc w1 w2 H) as [E Hs].
  destruct (c w1) as [[a| |] w1'], (c w2) as [[a'| |] w2']; cbn [fst snd] in *;
    try discriminate E; try (split; [congruence | exact Hs]).
  injection E as <-. apply Hk. exact Hs.
Qed.

Lemma log_blind_try_except {A} (c handler : M A) :
  log_blind c -> log_blind handler -> log_blind (try_except c handler).
Proof.
  intros Hc Hh w1 w2 H. unfold try_except. destruct (Hc w1 w2 H) as [E Hs].
  destruct (c w1) as [[a| |] w1'], (c w2) as [[a'| |] w2']; cbn [fst snd] in *;
    try discriminate E; try (split; [congruence | exact Hs]).
  apply Hh. exact Hs.
Qed.

Lemma log_blind_add_object tgt base_object node_id name :
  log_blind (add_object tgt base_object node_id name).
Proof.
  intros w1 w2 (H1 & H2 & H3). unfold add_object. cbn [fst snd].
  rewrite H2. split; [reflexivity|].
  repeat split; cbn; congruence.
Qed.

Lemma log_blind_create_variable tgt base_object node_id name val ty :
  log_blind (create_variable tgt base_object node_id name val ty).
Proof.
  intros w1 w2 (H1 & H2 & H3). unfold create_variable. cbn [fst snd].
  rewrite H2. split; [reflexivity|].
  repeat split; cbn; congruence.
Qed.

Lemma log_blind_fix_name name idx : log_blind (fix_name name idx).
Proof.
  intros w1 w2 H. rewrite !fix_name_eq. cbn [fst snd].
  split; [reflexivity|].
  eapply same_but_log_trans;
    [apply same_but_log_sym, same_but_log_after_fix_name|].
  eapply same_but_log_trans; [exact H|apply same_but_log_after_fix_name].
Qed.

Create HintDb log_blind.
#[local] Hint Resolve log_blind_ret log_blind_raise log_blind_warning
  log_blind_today log_blind_add_object log_blind_create_variable
  log_blind_fix_name : log_blind.

Ltac log_blind :=
  repeat first
    [ apply log_blind_bind; [|intros ?]
    | apply log_blind_try_except
    | solve [auto with log_blind]
    | match goal with
      | |- log_blind (if ?b then _ else _) => destruct b
      | |- log_blind (match ?x with _ => _ end) => destruct x
      end ].

Lemma log_blind_original_val_of d node_type :
  log_blind (original_val_of d node_type).
Proof. unfold original_val_of. log_blind. Qed.

Lemma log_blind_add_variable tgt base_object d node_id :
  log_blind (add_variable tgt base_object d node_id).
Proof.
  unfold add_variable. log_blind. apply log_blind_original_val_of.
Qed.

Lemma log_blind_bind_holding {A} (d : Snapshot) (c : M A)
    (k : A -> World -> Cloned) :
  log_blind c -> (forall a, log_blind_holding (k a)) ->
  log_blind_holding (bind_holding d c k).
Proof.
  intros Hc Hk w1 w2 H. unfold bind_holding. destruct (Hc w1 w2 H) as [E Hs].
  destruct (c w1) as [[a| |] w1'], (c w2) as [[a'| |] w2']; cbn [fst snd] in *;
    try discriminate E;
    try (split; [reflexivity|]; split; [congruence | exact Hs]).
  injection E as <-. apply Hk. exact Hs.
Qed.

Lemma log_blind_for_children (rec : Snapshot -> World -> Cloned) cs :
  Forall (fun c => log_blind_holding (rec c)) cs ->
  forall acc, log_blind_holding (for_children rec cs acc).
Proof.
  induction 1 as [|c cs Hc _ IH]; intros acc w1 w2 H.
  - cbn. auto.
  - cbn [for_children]. destruct (Hc w1 w2 H) as (E1 & E2 & Hs).
    destruct (rec c w1) as [c1 [[m1| |] w1']],
             (rec c w2) as [c2 [[m2| |] w2']];
      cbn [fst snd] in *; try discriminate E2; subst c2;
      try (split; [reflexivity|]; split; [congruence | exact Hs]).
    injection E2 as <-. destruct (IH (acc ++ m1) w1' w2' Hs) as (F1 & F2 & F3).
    destruct (for_children rec cs (acc ++ m1) w1') as [cs1 r1],
             (for_children rec cs (acc ++ m1) w2') as [cs2 r2].
    cbn [fst snd] in *. subst cs2. auto.
Qed.

Lemma log_blind_clone_nodes tgt d :
  forall base_object idx node_id_prefix,
    log_blind_holding (clone_nodes tgt d base_object idx node_id_prefix).
Proof.
  induction d as [d IH] using Snapshot_tree_ind.
  intros base_object idx node_id_prefix w1 w2 H.
  rewrite !clone_nodes_eq. cbv zeta.
  assert (same_but_log (after_fix_name (s_name d) w1)
            (after_fix_name (s_name d) w2)) as H'.
  { eapply same_but_log_trans;
      [apply same_but_log_sym, same_but_log_after_fix_name|].
    eapply same_but_log_trans; [exact H|apply same_but_log_after_fix_name]. }
  destruct (bool_decide (s_cls d ∈ [ClsInt 1; ClsName "Object"])).
  - destruct (s_children d) as [[|c cs]|] eqn:Ech; cbn [fst snd]; auto.
    apply log_blind_bind_holding; [apply log_blind_add_object| |exact H'].
    intros next_obj v1 v2 Hv.
    unfold children_of in IH. rewrite Ech in IH. cbn [default] in IH.
    destruct (log_blind_for_children
                (fun child =>
                   clone_nodes tgt child next_obj idx node_id_prefix)
                (c :: cs)
                ltac:(eapply Forall_impl; [exact IH|]; cbv beta;
                      intros x Hx; apply Hx) [] v1 v2 Hv) as (F1 & F2 & F3).
    destruct (for_children _ (c :: cs) [] v1) as [cs1 r1],
             (for_children _ (c :: cs) [] v2) as [cs2 r2].
    cbn [fst snd] in *. subst cs2. auto.
  - destruct (bool_decide (s_cls d ∈ [ClsInt 2; ClsName "Variable"]));
      [|cbn [fst snd]; auto].
    apply log_blind_bind_holding; [apply log_blind_add_variable| |exact H'].
    intros [next_var|] v1 v2 Hv; cbn [fst snd]; auto.
Qed.

(** ** A declined ExtensionObject variable *)

Lemma clone_nodes_declined tgt d base_object idx node_id_prefix w :
  s_cls d ∈ [ClsInt 2; ClsName "Variable"] ->
  s_type d ∈ [Some (TyEnum VT_ExtensionObject);
              Some (TyName "ExtensionObject")] ->
  truthy (default VNone (s_current_value d)) = false ->
  clone_nodes tgt d base_object idx node_id_prefix w
  = (set_name (normalize (s_name d) idx) d,
     (Ok [],
      add_log WarnExtensionObject
        (add_log (WarnNameType (normalize (s_name d) idx)
                    (default TyNone (s_type d)))
           (after_fix_name (s_name d) w)))).
Proof.
  intros Hc Ht Hv. rewrite clone_nodes_eq. cbv zeta.
  destruct (cls_variable_not_object _ Hc) as [-> ->].
  destruct d as [i n c t p v nd ch]. cbn [s_name s_type s_current_value] in *.
  unfold bind_holding, add_variable, original_val_of.
  cbn [set_name s_name s_type s_current_value]. rewrite Hv.
  apply elem_of_cons in Ht as [->|Ht];
    [|apply elem_of_cons in Ht as [->|Ht]; [|inversion Ht]]; reflexivity.
Qed.

Lemma for_children_skip (rec : Snapshot -> World -> Cloned) d after :
  (forall w, exists d' w',
     rec d w = (d', (Ok [], w')) /\ same_but_log w w') ->
  Forall (fun c => log_blind_holding (rec c)) after ->
  forall before acc w,
    fst (snd (for_children rec (before ++ d :: after) acc w))
    = fst (snd (for_children rec (before ++ after) acc w)) /\
    same_but_log
      (snd (snd (for_children rec (before ++ d :: after) acc w)))
      (snd (snd (for_children rec (before ++ after) acc w))).
Proof.
  intros Hd Hafter. induction before as [|b before IH]; intros acc w.
  - cbn [app for_children]. destruct (Hd w) as (d' & w' & -> & Hs).
    rewrite app_nil_r.
    destruct (log_blind_for_children rec after Hafter acc w' w
                (same_but_log_sym _ _ Hs)) as (_ & F2 & F3).
    destruct (for_children rec after acc w') as [cs1 r1].
    cbn [fst snd] in *. auto.
  - cbn [app for_children].
    destruct (rec b w) as [b' [[m| |] w1]]; cbn [fst snd];
      try (split; [reflexivity | apply same_but_log_refl]).
    specialize (IH (acc ++ m) w1).
    destruct (for_children rec (before ++ d :: after) (acc ++ m) w1)
      as [cs1 r1],
      (for_children rec (before ++ after) (acc ++ m) w1) as [cs2 r2].
    exact IH.
Qed.

(** C5, as the code has it.  A Variable dictionary whose type is
    ExtensionObject and whose captured value is missing or falsy is
    declined: its clone returns an empty mapping and sends no request to
    the server.  Under an Object that has other children, the outcome of
    the clone and the requests sent are what they are without that
    dictionary: the children after it are cloned as if it were not
    there. *)
Theorem clone_nodes_extension_object_declined tgt d idx node_id_prefix :
  s_cls d ∈ [ClsInt 2; ClsName "Variable"] ->
  s_type d ∈ [Some (TyEnum VT_ExtensionObject);
              Some (TyName "ExtensionObject")] ->
  truthy (default VNone (s_current_value d)) = false ->
  (forall base_object w,
     exists w',
       clone_nodes tgt d base_object idx node_id_prefix w
       = (set_name (normalize (s_name d) idx) d, (Ok [], w')) /\
       calls w' = calls w)
  /\
  (forall parent before after base_object w,
     s_cls parent ∈ [ClsInt 1; ClsName "Object"] ->
     s_children parent = Some (before ++ d :: after) ->
     before ++ after <> [] ->
     fst (snd (clone_nodes tgt parent base_object idx node_id_prefix w))
     = fst (snd (clone_nodes tgt (set_children (before ++ after) parent)
                   base_object idx node_id_prefix w)) /\
     calls (snd (snd (clone_nodes tgt parent base_object idx node_id_prefix
                        w)))
     = calls (snd (snd (clone_nodes tgt
                          (set_children (before ++ after) parent)
                          base_object idx node_id_prefix w)))).
Proof.
  intros Hc Ht Hv. split.
  - intros base_object w. eexists. split;
      [apply clone_nodes_declined; assumption|].
    unfold after_fix_name. destruct (startswith (s_name d) "http://");
      reflexivity.
  - intros parent before after base_object w Hp Hch Hne.
    rewrite !clone_nodes_eq. cbv zeta.
    replace (s_cls (set_children (before ++ after) parent))
      with (s_cls parent) by (destruct parent; reflexivity).
    replace (s_name (set_children (before ++ after) parent))
      with (s_name parent) by (destruct parent; reflexivity).
    replace (s_id (set_children (before ++ after) parent))
      with (s_id parent) by (destruct parent; reflexivity).
    replace (s_children (set_children (before ++ after) parent))
      with (Some (before ++ after)) by (destruct parent; reflexivity).
    rewrite bool_decide_eq_true_2 by exact Hp. rewrite Hch. clear Hch.
    destruct (before ++ d :: after) as [|x xs] eqn:E1;
      [destruct before; discriminate E1|]. rewrite <- E1. clear x xs E1.
    destruct (before ++ after) as [|y ys] eqn:E2; [congruence|].
    clear Hne. rewrite <- E2. clear y ys E2. unfold bind_holding.
    destruct (add_object _ _ _ _ _) as [[next_obj| |] w2]; cbn [fst snd];
      try (split; reflexivity).
    destruct (for_children_skip
                (fun child =>
                   clone_nodes tgt child next_obj idx node_id_prefix)
                d after) with (before := before) (acc := @nil (string * string))
                              (w := w2) as [F1 (_ & F2 & _)].
    + intros w0. eexists _, _. split;
        [apply clone_nodes_declined; assumption|].
      eapply same_but_log_trans; [apply same_but_log_after_fix_name|].
      eapply same_but_log_trans; apply same_but_log_add_log.
    + apply Forall_forall. intros c _. apply log_blind_clone_nodes.
    + destruct (for_children _ (before ++ d :: after) [] w2) as [cs1 r1],
               (for_children _ (before ++ after) [] w2) as [cs2 r2].
      cbn [fst snd] in *. auto.
Qed.

Lemma clone_nodes_extension_object_declined_witness :
  (exists w',
     clone_nodes willing_target extension_dict_no_value 0%nat 5 "" world0
     = (extension_dict_no_value, (Ok [], w')) /\ calls w' = []) /\
  fst (snd (clone_nodes willing_target station_dict 0%nat 5 "" world0))
  = Ok [("ns=2;i=9", "ns=3;i=101"); ("ns=2;i=11", "ns=3;i=102")] /\
  fst (snd (clone_nodes willing_target
              (object_dict "ns=2;i=8" "Station" ["Station"]
                 [flags_dict; pressure_dict]) 0%nat 5 "" world0))
  = Ok [("ns=2;i=9", "ns=3;i=101"); ("ns=2;i=11", "ns=3;i=102")].
Proof.
  destruct (clone_nodes_extension_object_declined willing_target
              extension_dict_no_value 5 "") as [H1 H2];
    [compute_done | compute_done | reflexivity |].
  split; [exact (H1 0%nat world0)|].
  destruct (H2 station_dict [flags_dict] [pressure_dict] 0%nat world0)
    as [E _]; [compute_done | reflexivity | discriminate |].
  split; [reflexivity|]. 
  change (object_dict "ns=2;i=8" "Station" ["Station"]
            [flags_dict; pressure_dict])
    with (set_children ([flags_dict] ++ [pressure_dict]) station_dict).
  rewrite <- E. reflexivity.
Defined.

(** C5 as stated fails: with a captured value, the ExtensionObject
    variable is sent to the server, and its identifier is mapped. *)
Lemma clone_nodes_extension_object_created :
  s_cls extension_dict = ClsName "Variable" /\
  s_type extension_dict = Some (TyName "ExtensionObject") /\
  fst (snd (clone_nodes willing_target extension_dict 0%nat 5 "" world0))
  = Ok [("ns=2;i=10", "ns=3;i=100")] /\
  calls (snd (snd (clone_nodes willing_target extension_dict 0%nat 5 ""
                     world0)))
  = [(CallAddVariable 0 "ns=2;i=10" "Setpoints"
        (VObject "asyncua.ua.uaprotocol_auto" "Range(Low=0, High=1)")
        (Some VT_ExtensionObject), inr 100%nat)].
Proof. vm_compute. repeat split. Qed.

(** ** A refused variable stops the clone *)

Lemma create_failure_last_quiet {A} w (r : outcome A) w' :
  calls w' = calls w -> create_failure_last w r w'.
Proof.
  intros H. exists []. rewrite app_nil_r. split; [exact H|]. left. constructor.
Qed.

(** A step that returned sent no refused variable. *)
Lemma create_failure_last_Ok {A} w (a : A) w' :
  create_failure_last w (Ok a) w' ->
  exists new, calls w' = calls w ++ new /\
              Forall (fun ev => failed_create_variable ev = false) new.
Proof.
  intros (new & Hc & [H|H]); [eauto|].
  destruct H as (? & ? & ? & ? & ? & ? & ? & ? & _ & _ & E & _).
  discriminate E.
Qed.

(** A clean run followed by a run that keeps the invariant keeps it. *)
Lemma create_failure_last_seq {A} w w1 (r : outcome A) w2 new1 :
  calls w1 = calls w ++ new1 ->
  Forall (fun ev => failed_create_variable ev = false) new1 ->
  create_failure_last w1 r w2 ->
  create_failure_last w r w2.
Proof.
  intros Hc Hclean (new & Hc2 & H). exists (new1 ++ new).
  rewrite Hc2, Hc, app_assoc. split; [reflexivity|].
  destruct H as [H|(new0 & p & i & n & v & t & e & logs & -> & H0 & -> & Hl)].
  - left. apply Forall_app. auto.
  - right. exists (new1 ++ new0), p, i, n, v, t, e, logs.
    rewrite app_assoc. repeat split; auto. apply Forall_app. auto.
Qed.

Lemma original_val_of_returns d node_type w :
  exists chosen w',
    original_val_of d node_type w = (Ok chosen, w') /\ calls w' = calls w.
Proof.
  unfold original_val_of.
  repeat match goal with
         | |- context [if ?b then _ else _] => destruct b
         end;
    cbv [bind ret warning today]; eauto.
Qed.

Lemma add_variable_create_failure_last tgt base_object d node_id w r w' :
  add_variable tgt base_object d node_id w = (r, w') ->
  create_failure_last w r w'.
Proof.
  unfold add_variable. unfold bind at 1. cbn [warning].
  set (w0 := add_log _ w).
  assert (calls w0 = calls w) as H0 by reflexivity.
  unfold bind at 1.
  destruct (match default TyNone (s_type d) with
            | TyNone => ret None
            | TyEnum t => ret (Some t)
            | TyName s =>
                match VariantType_getitem s with
                | Some t => ret (Some t)
                | None => raise (KeyError s)
                end
            end w0) as [[node_type| |] w1] eqn:E1.
  - assert (w1 = w0) as ->.
    { destruct (default TyNone (s_type d)) as [|t|s]; cbv [ret raise] in E1;
        try destruct (VariantType_getitem s); congruence. }
    clear E1. unfold bind at 1.
    destruct (original_val_of_returns d node_type w0)
      as (chosen & w2 & -> & H2).
    destruct chosen as [original_val|];
      [|intros H; apply ret_any in H as [-> ->];
        apply create_failure_last_quiet; congruence].
    unfold try_except, bind, create_variable.
    destruct (add_variable_answer tgt (calls w2) base_object node_id
                (s_name d) original_val node_type) as [e|n] eqn:Ea;
      cbn [warning raise ret]; intros H; injection H as <- <-.
    + eexists [_]. split; [cbn; rewrite H2, H0; reflexivity|].
      right. eexists [], _, _, _, _, _, _, _.
      split; [reflexivity|]. split; [constructor|].
      split; [reflexivity|]. cbn. rewrite <- app_assoc. reflexivity.
    + eexists [_]. split; [cbn; rewrite H2, H0; reflexivity|].
      left. repeat constructor.
  - intros H. injection H as <- <-. apply create_failure_last_quiet.
    destruct (default TyNone (s_type d)) as [|t|s]; cbv [ret raise] in E1;
      try destruct (VariantType_getitem s); congruence.
  - intros H. injection H as <- <-. apply create_failure_last_quiet.
    destruct (default TyNone (s_type d)) as [|t|s]; cbv [ret raise] in E1;
      try destruct (VariantType_getitem s); congruence.
Qed.

Lemma create_failure_last_outcome {A B} w (r : outcome A) (r' : outcome B) w' :
  create_failure_last w r w' ->
  (r = Raise (SystemExit 1) -> r' = Raise (SystemExit 1)) ->
  create_failure_last w r' w'.
Proof.
  intros (new & Hc & H) Hr. exists new. split; [exact Hc|].
  destruct H as [H|(new0 & p & i & n & v & t & e & logs & -> & H0 & E & Hl)];
    [left; exact H|].
  right. exists new0, p, i, n, v, t, e, logs. auto.
Qed.

Lemma for_children_create_failure_last (rec : Snapshot -> World -> Cloned) cs :
  Forall (fun c => forall w,
            create_failure_last w (fst (snd (rec c w))) (snd (snd (rec c w))))
    cs ->
  forall acc w,
    create_failure_last w (fst (snd (for_children rec cs acc w)))
      (snd (snd (for_children rec cs acc w))).
Proof.
  induction 1 as [|c cs Hc _ IH]; intros acc w.
  - apply create_failure_last_quiet. reflexivity.
  - cbn [for_children]. specialize (Hc w).
    destruct (rec c w) as [c' [[m| |] w1]]; cbn [fst snd] in *;
      try exact Hc.
    apply create_failure_last_Ok in Hc as (new1 & Hc & Hclean).
    specialize (IH (acc ++ m) w1).
    destruct (for_children rec cs (acc ++ m) w1) as [cs' r].
    cbn [fst snd] in *. eapply create_failure_last_seq; eassumption.
Qed.

Lemma clone_nodes_create_failure_last tgt d :
  forall base_object idx node_id_prefix w,
    create_failure_last w
      (fst (snd (clone_nodes tgt d base_object idx node_id_prefix w)))
      (snd (snd (clone_nodes tgt d base_object idx node_id_prefix w))).
Proof.
  induction d as [d IH] using Snapshot_tree_ind.
  intros base_object idx node_id_prefix w.
  rewrite clone_nodes_eq. cbv zeta.
  pose proof (calls_after_fix_name (s_name d) w) as Hw.
  set (w1 := after_fix_name (s_name d) w) in *.
  destruct (bool_decide (s_cls d ∈ [ClsInt 1; ClsName "Object"])).
  - destruct (s_children d) as [[|c cs]|] eqn:Ech; cbn [fst snd];
      try (apply create_failure_last_quiet; exact Hw).
    unfold bind_holding, add_object.
    destruct (add_object_answer tgt (calls w1) base_object
                (node_id_prefix +:+ s_id d) (normalize (s_name d) idx))
      as [e|next_obj] eqn:Ea; cbn [fst snd].
    + eexists [_]. split; [cbn; rewrite Hw; reflexivity|].
      left. repeat constructor.
    + set (w2 := add_call _ w1).
      unfold children_of in IH. rewrite Ech in IH. cbn [default] in IH.
      pose proof (for_children_create_failure_last
                    (fun child =>
                       clone_nodes tgt child next_obj idx node_id_prefix)
                    (c :: cs)
                    ltac:(eapply Forall_impl; [exact IH|]; cbv beta;
                          intros x Hx; apply Hx) [] w2) as Hloop.
      destruct (for_children _ (c :: cs) [] w2) as [cs' r].
      cbn [fst snd] in *.
      eapply (create_failure_last_seq w w2 _ _ [_]);
        [cbn; rewrite Hw; reflexivity | repeat constructor | exact Hloop].
  - destruct (bool_decide (s_cls d ∈ [ClsInt 2; ClsName "Variable"]));
      [|apply create_failure_last_quiet; exact Hw].
    unfold bind_holding.
    destruct (add_variable tgt base_object _ _ w1) as [r w2] eqn:Ev.
    apply add_variable_create_failure_last in Ev.
    apply (create_failure_last_seq w w1 _ _ []);
      [rewrite app_nil_r; exact Hw | constructor |].
    destruct r as [[next_var|]| |]; cbn [fst snd];
      (eapply create_failure_last_outcome; [exact Ev|]);
      intros E; first [discriminate E | injection E as ->; reflexivity].
Qed.

(** C6, as the code has it.  When the server refuses a variable, the
    clone stops there: that request is the last one sent, the outcome of
    [clone_nodes] is [SystemExit] with status 1 whatever the error of the
    server was, and the last two lines of the log give the name and the
    type of the variable.  The [path] entries play no part: with all of
    them emptied, the outcome, the requests and the log are the same. *)
Theorem clone_nodes_create_failure_fatal tgt d base_object idx node_id_prefix
    w :
  (exists new,
     calls (snd (snd (clone_nodes tgt d base_object idx node_id_prefix w)))
     = calls w ++ new /\
     forall i ev,
       new !! i = Some ev ->
       failed_create_variable ev = true ->
       fst (snd (clone_nodes tgt d base_object idx node_id_prefix w))
       = Raise (SystemExit 1) /\
       S i = length new /\
       exists parent node_id name val ty e logs,
         ev = (CallAddVariable parent node_id name val ty, inl e) /\
         log (snd (snd (clone_nodes tgt d base_object idx node_id_prefix w)))
         = logs ++ [WarnNameType name (from_option TyEnum TyNone ty);
                    WarnType ty])
  /\
  snd (clone_nodes tgt (without_paths d) base_object idx node_id_prefix w)
  = snd (clone_nodes tgt d base_object idx node_id_prefix w).
Proof.
  split; [|apply clone_nodes_without_paths].
  destruct (clone_nodes_create_failure_last tgt d base_object idx
              node_id_prefix w) as (new & Hc & H).
  exists new. split; [exact Hc|]. intros i ev Hi Hev.
  destruct H as [H|(new0 & p & j & n & v & t & e & logs & -> & H0 & E & Hl)].
  - rewrite Forall_forall in H. apply list_elem_of_lookup_2 in Hi.
    rewrite (H ev Hi) in Hev. discriminate Hev.
  - destruct (decide (i < length new0)%nat) as [Hlt|Hge].
    + rewrite lookup_app_l in Hi by exact Hlt.
      rewrite Forall_forall in H0. apply list_elem_of_lookup_2 in Hi.
      rewrite (H0 ev Hi) in Hev. discriminate Hev.
    + pose proof (lookup_lt_Some _ _ _ Hi) as Hlen.
      rewrite length_app in Hlen |- *. cbn [length] in Hlen |- *.
      assert (i = length new0) as -> by lia.
      rewrite list_lookup_middle in Hi by reflexivity. injection Hi as <-.
      split; [exact E|]. split; [lia|]. eauto 10.
Qed.

Lemma clone_nodes_create_failure_fatal_witness :
  fst (snd (clone_nodes refusing_target station_dict 0%nat 5 "" world0))
  = Raise (SystemExit 1) /\
  exists logs,
    log (snd (snd (clone_nodes refusing_target station_dict 0%nat 5 ""
                     world0)))
    = logs ++ [WarnNameType "Flags" (TyEnum VT_Byte); WarnType (Some VT_Byte)].
Proof.
  destruct (clone_nodes_create_failure_fatal refusing_target station_dict
              0%nat 5 "" world0) as [(new & Hc & H) _].
  vm_compute in Hc. subst new.
  destruct (H 1%nat _ eq_refl eq_refl)
    as (Hr & _ & p & i & n & v & t & e & logs & Hev & Hl).
  split; [exact Hr|]. injection Hev as _ _ <- _ <- _.
  exists logs. exact Hl.
Defined.

(** C6 as stated fails: the refusal of [Level] under [TankA] and the
    refusal of [Level] under [TankB] reach the caller as the same
    [SystemExit(1)] after the same log lines; neither tells the path. *)
Lemma clone_nodes_failure_without_path :
  s_path tank_a_level <> s_path tank_b_level /\
  fst (snd (clone_nodes refusing_target tank_a_level 7%nat 2 "" world0))
  = Raise (SystemExit 1) /\
  fst (snd (clone_nodes refusing_target tank_b_level 7%nat 2 "" world0))
  = Raise (SystemExit 1) /\
  log (snd (snd (clone_nodes refusing_target tank_a_level 7%nat 2 ""
                   world0)))
  = log (snd (snd (clone_nodes refusing_target tank_b_level 7%nat 2 ""
                     world0))).
Proof. vm_compute. repeat split. discriminate. Qed.

(** ** The captured value in [add_variable] *)

(** A captured value that is falsy is handled as if there were none. *)
Lemma add_variable_falsy_as_absent tgt base_object d node_id v :
  truthy v = false ->
  add_variable tgt base_object (set_current_value (Some v) d) node_id
  = add_variable tgt base_object (set_current_value None d) node_id.
Proof.
  intros Hv. unfold add_variable, original_val_of.
  cbn [set_current_value s_name s_type s_current_value default from_option id].
  rewrite Hv. reflexivity.
Qed.

(** C3.  The code at the input where it departs from the claim: the Byte
    variable [Flags] holds 0; its export has the entry [current_value] with
    the value 0; [add_variable] asks the server for a variable whose value
    is the empty string -- the default of the type -- not the captured 0.
    Likewise a captured empty list under type Int32 is replaced by 0. *)
Theorem add_variable_replaces_falsy_value :
  (exists snap w',
     browse_nodes (table_provider flags_plant) 2 0%nat true None world0
     = (Ok snap, w') /\
     s_type snap = Some (TyName "Byte") /\
     s_current_value snap = Some (VInt 0) /\
     calls (snd (add_variable willing_target 7%nat snap "ns=2;i=0" world0))
     = [(CallAddVariable 7 "ns=2;i=0" "Flags" (VStr "") (Some VT_Byte),
         inr 100%nat)])
  /\
  calls (snd (add_variable willing_target 7%nat
                (variable_dict "ns=2;i=1" "Samples" "Int32" ["Samples"]
                   (Some (VList [])))
                "ns=2;i=1" world0))
  = [(CallAddVariable 7 "ns=2;i=1" "Samples" (VInt 0) (Some VT_Int32),
      inr 100%nat)].
Proof.
  split; [eexists _, _|]; vm_compute; repeat split.
Qed.

(** * Further properties *)

(** ** [check_if_object_is_from_module] *)

Lemma Value_tree_ind (P : Value -> Prop) :
  (forall v, match v with VList _ | VDict _ => True | _ => P v end) ->
  (forall l, Forall P l -> P (VList l)) ->
  (forall d, Forall (fun kv => P (snd kv)) d -> P (VDict d)) ->
  forall v, P v.
Proof.
  intros Hleaf Hlist Hdict. fix IH 1. intros v.
  destruct v as [ |b|z|m e|s|t|l|d|m r];
    try (match goal with |- P ?x => exact (Hleaf x) end).
  - apply Hlist. induction l as [|x l IHl]; constructor;
      [apply IH | exact IHl].
  - apply Hdict. induction d as [|[k x] d IHd]; constructor;
      [apply IH | exact IHd].
Qed.

Lemma check_leaves (module_name : string) (v : Value) :
  check_if_object_is_from_module v module_name
  = existsb (fun leaf => startswith (module_of leaf) module_name) (leaves v).
Proof.
  pattern v. apply Value_tree_ind; clear v; [intros v|intros l IH|intros d IH].
  - destruct v; try exact I; cbn; rewrite orb_false_r; reflexivity.
  - cbn [check_if_object_is_from_module leaves].
    induction IH as [|x l Hx _ IHl]; [reflexivity|].
    cbn [existsb flat_map]. rewrite existsb_app, Hx, IHl. reflexivity.
  - cbn [check_if_object_is_from_module leaves].
    induction IH as [|[k x] d Hx _ IHd]; [reflexivity|].
    cbn [existsb flat_map snd] in *. rewrite existsb_app, Hx, IHd.
    reflexivity.
Qed.

(** X1.  For a module name that is not empty,
    [check_if_object_is_from_module] answers true exactly when, somewhere
    in the nesting of lists and mapping values, there is an object whose
    [__module__] begins with the name; plain data, empty lists and empty
    mappings give false. *)
Theorem check_if_object_is_from_module_iff (v : Value) (module_name : string) :
  module_name <> "" ->
  (check_if_object_is_from_module v module_name = true <->
   exists m r, In (VObject m r) (leaves v) /\ startswith m module_name = true).
Proof.
  intros Hm. rewrite check_leaves, existsb_exists. split.
  - intros (leaf & Hin & Hs). destruct leaf;
      try (destruct module_name; [congruence | discriminate Hs]).
    eauto.
  - intros (m & r & Hin & Hs). exists (VObject m r). auto.
Qed.

Lemma check_if_object_is_from_module_iff_witness :
  check_if_object_is_from_module
    (VList [VInt 1; VDict [("range", VObject "asyncua.ua" "Range(0, 1)")]])
    asyncua = true /\
  check_if_object_is_from_module (VList [VInt 1; VStr "asyncua"]) asyncua
  = false.
Proof.
  split.
  - apply (check_if_object_is_from_module_iff _ asyncua); [discriminate|].
    eexists _, _. split; [right; left; reflexivity | reflexivity].
  - destruct (check_if_object_is_from_module _ asyncua) eqn:E;
      [|reflexivity].
    apply (check_if_object_is_from_module_iff _ asyncua) in E
      as (m & r & Hin & _); [|discriminate].
    destruct Hin as [H|[H|[]]]; discriminate H.
Defined.

(** ** The two modes of [browse_nodes] *)

Lemma bind_run_map {A A' B B'} (f : A -> A') (g : B -> B')
    (c1 : M A') (c2 : M A) (k1 : A' -> M B') (k2 : A -> M B) w :
  c1 w = run_map f (c2 w) ->
  (forall a w', k1 (f a) w' = run_map g (k2 a w')) ->
  bind c1 k1 w = run_map g (bind c2 k2 w).
Proof.
  intros Hc Hk. unfold bind. rewrite Hc. unfold run_map.
  destruct (c2 w) as [[a| |] w']; cbn [fst snd outcome_map];
    [|reflexivity|reflexivity].
  rewrite Hk. reflexivity.
Qed.

Lemma bind_run_map_same {A B B'} (g : B -> B') (c : M A)
    (k1 : A -> M B') (k2 : A -> M B) w :
  (forall a w', k1 a w' = run_map g (k2 a w')) ->
  bind c k1 w = run_map g (bind c k2 w).
Proof.
  intros Hk. apply (bind_run_map id g); [|exact Hk].
  unfold run_map. destruct (c w) as [[a| |] w']; reflexivity.
Qed.

Lemma build_output_serialise node node_id node_name node_class var_type
    current_value path children w :
  build_output node true node_id node_name node_class var_type current_value
    path (map serialise children) w
  = run_map serialise
      (build_output node false node_id node_name node_class var_type
         current_value path children w).
Proof.
  unfold build_output. apply bind_run_map_same. intros cv w'.
  cbn [negb]. unfold bind, run_map, ret. 
  rewrite NodeClass_of_value_value. cbn [fst snd outcome_map serialise].
  cbn [s_id s_name s_cls s_type s_path s_current_value s_node s_children].
  unfold serialise_cls. rewrite NodeClass_of_value_value.
  destruct (NodeClass_value node_class =? 0); cbn [negb];
    destruct var_type as [t|], cv as [v|], children as [|c cs];
    cbn [serialise_type from_option];
    try destruct (VariantType_truthy t); reflexivity.
Qed.

Lemma browse_children_serialise prov
    (rec_export rec_internal : Node -> option loc -> M Snapshot) path kids :
  (forall child p w,
     rec_export child p w = run_map serialise (rec_internal child p w)) ->
  forall children w,
    browse_children prov rec_export kids path (map serialise children) w
    = run_map (map serialise)
        (browse_children prov rec_internal kids path children w).
Proof.
  intros Hrec. induction kids as [|child kids IH]; intros children w.
  - reflexivity.
  - cbn [browse_children]. apply bind_run_map_same. intros c w1.
    destruct (bool_decide (c ∈ [NC_Object; NC_Variable])); [|apply IH].
    apply bind_run_map_same. intros p w2.
    apply (bind_run_map serialise (map serialise)); [apply Hrec|].
    intros sub w3. rewrite <- IH, map_app. reflexivity.
Qed.

(** X2.  The serialisable export is the internal export put through
    [serialise]: the same reads are made, the same outcome is reached, the
    same world is left, and the tree differs only by what lines 58 to 69
    do to each dictionary. *)
Theorem browse_nodes_export_is_serialised prov fuel node path w :
  browse_nodes prov fuel node true path w
  = run_map serialise (browse_nodes prov fuel node false path w).
Proof.
  revert node path w. induction fuel as [|fuel IH]; intros node path w;
    [reflexivity|].
  cbn [browse_nodes].
  apply bind_run_map_same; intros node_class w1.
  apply bind_run_map_same; intros node_name w2.
  apply bind_run_map_same; intros p w3.
  apply bind_run_map_same; intros kids w4.
  apply (bind_run_map (map serialise) serialise).
  - apply (browse_children_serialise prov _ _ p kids IH []).
  - intros children w5.
    apply bind_run_map_same; intros vars w6.
    apply bind_run_map_same; intros path_copy w7.
    apply build_output_serialise.
Qed.

(** ** The list the caller passes as [path] *)

(** X3.  Called with a list as [path], [browse_nodes] appends the name of
    the node to that very list, once, and records the result as the
    [path] of the dictionary; it leaves every other list the caller holds
    as it was. *)
Theorem browse_nodes_appends_to_given_path prov fuel node to_export p w
    snap w' :
  (p < length (heap w))%nat ->
  browse_nodes prov fuel node to_export (Some p) w = (Ok snap, w') ->
  heap w' !! p = Some (default [] (heap w !! p) ++ [s_name snap]) /\
  s_path snap = default [] (heap w !! p) ++ [s_name snap] /\
  forall l, (l < length (heap w))%nat -> l <> p ->
            heap w' !! l = heap w !! l.
Proof.
  intros Hp H.
  pose proof (browse_nodes_paths prov to_export fuel node (Some p) w snap w'
                Hp H) as [[_ Hkeep] Hpaths].
  apply paths_from_inv in Hpaths as [Hpath _]. cbn [path_content] in Hpath.
  apply browse_nodes_Ok in H
    as (fuel' & c & name & kids & children & w2 & _ & _ & _ & _ & Hloop
        & Hh & _ & _ & -> & _).
  apply browse_children_Ok in Hloop as (subs & _ & Hrun).
  destruct (enter_path_facts (Some p) name w) as (Hp1 & Hc & _);
    [exact Hp|].
  eapply children_run_paths in Hrun as [[_ Hsame] _];
    [|apply browse_nodes_paths|exact Hp1].
  cbn [s_name s_path] in *. cbn [enter_path fst snd] in *.
  split; [|split; [exact Hpath|]].
  - rewrite Hh, Hsame by (try exact Hp1; discriminate). exact Hc.
  - intros l Hl Hne. apply Hkeep; [exact Hl | congruence].
Qed.

Lemma browse_nodes_appends_to_given_path_witness :
  exists snap w',
    browse_nodes (table_provider plant) 4 2%nat true (Some 0%nat)
      world_with_path = (Ok snap, w') /\
    heap w' !! 0%nat = Some ["Line1"; "B"] /\
    s_path snap = ["Line1"; "B"].
Proof.
  eexists _, _. split; [vm_compute; reflexivity|].
  destruct (browse_nodes_appends_to_given_path (table_provider plant) 4
              2%nat true 0%nat world_with_path _ _ ltac:(cbn; lia) eq_refl)
    as (H1 & H2 & _).
  split; [exact H1 | exact H2].
Defined.

(** ** The shape of the dictionaries in each mode *)

Lemma browse_nodes_Forall prov to_export (P : Snapshot -> Prop) :
  (forall node name c path children,
     P (mkSnapshot (nodeid_to_string prov node) name (cls_field to_export c)
          (type_field to_export (var_type_of prov node c)) path
          (current_value_of prov to_export node c)
          (if to_export then None else Some node)
          (children_field to_export children))) ->
  forall fuel node path w snap w',
    browse_nodes prov fuel node to_export path w = (Ok snap, w') ->
    Forall P (nodes_of snap).
Proof.
  intros HP. induction fuel as [|fuel IH]; intros node path w snap w' H;
    apply browse_nodes_Ok in H
      as (fuel' & c & name & kids & children & w2 & Hf & _ & _ & _ & Hloop
          & _ & _ & _ & -> & _); [discriminate|].
  injection Hf as <-.
  apply browse_children_Ok in Hloop as (subs & -> & Hrun). cbn [app] in *.
  rewrite nodes_of_eq, children_of_field. constructor; [apply HP|].
  induction Hrun as [|child kids' sub subs w0 w1 w3 _ Hrec _ IHr];
    [constructor|].
  cbn [flat_map]. apply Forall_app. split; [|exact IHr].
  eapply IH. exact Hrec.
Qed.

(** X4.  The dictionaries of an export all have the shape of its mode.
    Internal mode: a [node], a [children] list (even empty), a [type]
    entry (possibly [None]) and the integer class.  Serialisable mode: no
    [node], never an empty [children] list, a [type] entry only as the
    name of a resolved type, the class by name (the code 0 stays a number),
    and no truthy value from [asyncua].  In both modes a [current_value]
    entry comes only with a resolved type. *)
Theorem browse_nodes_shape prov fuel node to_export path w snap w' :
  browse_nodes prov fuel node to_export path w = (Ok snap, w') ->
  Forall
    (fun d =>
       (if to_export
        then s_node d = None /\ s_children d <> Some [] /\
             (s_type d = None \/
              exists t, s_type d = Some (TyName (VariantType_name t))) /\
             (s_cls d = ClsInt 0 \/
              exists c, s_cls d = ClsName (NodeClass_name c)) /\
             (forall v, s_current_value d = Some v ->
                        truthy v && check_if_object_is_from_module v asyncua
                        = false)
        else is_Some (s_node d) /\ is_Some (s_children d) /\
             is_Some (s_type d) /\ exists z, s_cls d = ClsInt z) /\
       (is_Some (s_current_value d) ->
        exists t, s_type d = Some (if to_export
                                   then TyName (VariantType_name t)
                                   else TyEnum t)))
    (nodes_of snap).
Proof.
  apply browse_nodes_Forall. intros n name c p children.
  cbn [s_node s_children s_type s_cls s_current_value].
  unfold cls_field, type_field, children_field, current_value_of,
    current_value_field.
  split.
  - destruct to_export.
    + split; [reflexivity|]. split; [destruct children; discriminate|].
      split; [destruct (var_type_of prov n c) as [t|];
              [destruct (VariantType_truthy t)|]; cbn; eauto|].
      split.
      * destruct (NodeClass_value c =? 0) eqn:E; [|eauto].
        apply Z.eqb_eq in E. rewrite E. auto.
      * intros v. destruct (var_type_of prov n c) as [t|]; [|discriminate].
        destruct (VariantType_truthy t); [|discriminate].
        cbn [andb].
        destruct (truthy _ && check_if_object_is_from_module _ _) eqn:E;
          [discriminate|]. intros [= <-]. exact E.
    + repeat split; eauto.
  - destruct (var_type_of prov n c) as [t|]; [|intros [? ?]; discriminate].
    destruct (VariantType_truthy t); [|intros [? ?]; discriminate].
    intros _. exists t. destruct to_export; reflexivity.
Qed.

Lemma browse_nodes_shape_witness :
  exists snap w',
    browse_nodes (table_provider plant) 4 0%nat false None world0
      = (Ok snap, w') /\
    Forall (fun d => is_Some (s_node d) /\ is_Some (s_children d))
      (nodes_of snap).
Proof.
  eexists _, _. split; [vm_compute; reflexivity|].
  eapply Forall_impl;
    [eapply (browse_nodes_shape (table_provider plant) 4 0%nat false None
               world0); vm_compute; reflexivity|].
  cbv beta. intros d [(H1 & H2 & _) _]. auto.
Defined.

(** ** Where the exceptions of an export come from *)









(** ** The requests of a clone *)

Lemma follows_plan_quiet tgt node_id_prefix after w (r : outcome Mapping)
    w' :
  calls w' = calls w ->
  (forall m, r = Ok m -> m = [] /\ clock w' = after) ->
  follows_plan tgt node_id_prefix [] after w r w'.
Proof.
  intros Hc Hm. exists []. rewrite app_nil_r.
  split; [exact Hc|]. split; [apply prefix_nil|].
  intros m E. destruct (Hm m E) as [-> Hk]. auto.
Qed.

Lemma clock_after_eq d c :
  clock_after d c
  = if bool_decide (s_cls d ∈ [ClsInt 1; ClsName "Object"])
    then fold_left (fun c child => clock_after child c) (children_of d) c
    else if bool_decide (s_cls d ∈ [ClsInt 2; ClsName "Variable"])
    then clock_after_variable d c
    else c.
Proof. destruct d as [i n cl t p v nd [cs|]]; reflexivity. Qed.

Lemma plan_eq c idx node_id_prefix d :
  plan c idx node_id_prefix d
  = if bool_decide (s_cls d ∈ [ClsInt 1; ClsName "Object"])
    then match s_children d with
         | Some ((_ :: _) as children) =>
             RequestObject (node_id_prefix +:+ s_id d)
               (normalize (s_name d) idx)
             :: plan_children (fun c x => plan c idx node_id_prefix x)
                  children c
         | _ => []
         end
    else if bool_decide (s_cls d ∈ [ClsInt 2; ClsName "Variable"])
    then match converted_type (s_type d) with
         | inr ty =>
             match chosen_value (c 0%nat) (s_current_value d) ty with
             | Some val =>
                 [RequestVariable (node_id_prefix +:+ s_id d)
                    (normalize (s_name d) idx) val ty]
             | None => []
             end
         | inl _ => []
         end
    else [].
Proof. destruct d; reflexivity. Qed.

(** The loop over the children, when each child follows its plan. *)
Lemma for_children_follows_plan tgt idx node_id_prefix
    (rec : Snapshot -> World -> Cloned) cs :
  Forall (fun c => forall w,
            follows_plan tgt node_id_prefix
              (plan (clock w) idx node_id_prefix c)
              (clock_after c (clock w)) w
              (fst (snd (rec c w))) (snd (snd (rec c w)))) cs ->
  forall acc w,
    exists new,
      calls (snd (snd (for_children rec cs acc w))) = calls w ++ new /\
      map request_of new
        `prefix_of` plan_children (fun c x => plan c idx node_id_prefix x)
                      cs (clock w) /\
      forall m,
        fst (snd (for_children rec cs acc w)) = Ok m ->
        clock (snd (snd (for_children rec cs acc w)))
        = fold_left (fun c child => clock_after child c) cs (clock w) /\
        map request_of new
        = plan_children (fun c x => plan c idx node_id_prefix x) cs (clock w)
        /\
        forallb granted new = true /\
        exists m',
          m = acc ++ m' /\
          map (fun e => (node_id_prefix +:+ fst e, snd e)) m'
          = omap (variable_result tgt) new.
Proof.
  induction 1 as [|c cs Hc _ IH]; intros acc w.
  - exists []. cbn [for_children fst snd plan_children fold_left map].
    split; [rewrite app_nil_r; reflexivity|].
    split; [apply prefix_nil|]. intros m E. injection E as <-.
    split; [reflexivity|]. split; [reflexivity|]. split; [reflexivity|].
    exists []. rewrite app_nil_r. split; reflexivity.
  - cbn [for_children plan_children fold_left].
    destruct (Hc w) as (new1 & Hc1 & Hp1 & Hm1).
    destruct (rec c w) as [c' [[m1| |] w1]]; cbn [fst snd] in *.
    + destruct (Hm1 m1 eq_refl) as (Hk1 & E1 & G1 & M1).
      destruct (IH (acc ++ m1) w1) as (new2 & Hc2 & Hp2 & Hm2).
      destruct (for_children rec cs (acc ++ m1) w1) as [cs' [r w2]].
      cbn [fst snd] in *. rewrite Hk1 in *.
      exists (new1 ++ new2). rewrite Hc2, Hc1, app_assoc, map_app, E1.
      split; [reflexivity|].
      split; [apply prefix_app; exact Hp2|].
      intros m Em. destruct (Hm2 m Em) as (Hk2 & E2 & G2 & m' & -> & M2).
      rewrite E2, forallb_app, G1, G2, omap_app, <- M1, <- M2.
      split; [exact Hk2|]. repeat split; auto.
      exists (m1 ++ m'). rewrite app_assoc, map_app. auto.
    + exists new1. split; [exact Hc1|].
      split; [apply prefix_app_r; exact Hp1|]. discriminate.
    + exists new1. split; [exact Hc1|].
      split; [apply prefix_app_r; exact Hp1|]. discriminate.
Qed.

Lemma clone_nodes_follows_plan tgt idx node_id_prefix d :
  forall base_object w,
    follows_plan tgt node_id_prefix (plan (clock w) idx node_id_prefix d)
      (clock_after d (clock w)) w
      (fst (snd (clone_nodes tgt d base_object idx node_id_prefix w)))
      (snd (snd (clone_nodes tgt d base_object idx node_id_prefix w))).
Proof.
  induction d as [d IH] using Snapshot_tree_ind. intros base_object w.
  rewrite clone_nodes_eq, plan_eq, clock_after_eq. cbv zeta.
  pose proof (calls_after_fix_name (s_name d) w) as Hw.
  pose proof (clock_after_fix_name (s_name d) w) as Hk.
  set (w1 := after_fix_name (s_name d) w) in *.
  destruct (bool_decide (s_cls d ∈ [ClsInt 1; ClsName "Object"])).
  - unfold children_of in IH |- *.
    destruct (s_children d) as [[|c cs]|] eqn:Ech; cbn [fst snd default];
      try (apply follows_plan_quiet; [exact Hw|]; intros m [= <-];
           split; [reflexivity | exact Hk]).
    cbn [default] in IH. unfold bind_holding, add_object.
    destruct (add_object_answer tgt (calls w1) base_object
                (node_id_prefix +:+ s_id d) (normalize (s_name d) idx))
      as [e|next_obj] eqn:Ea; cbn [fst snd].
    + eexists [_]. split; [cbn; rewrite Hw; reflexivity|].
      split; [|discriminate].
      apply prefix_cons, prefix_nil.
    + set (w2 := add_call _ w1).
      destruct (for_children_follows_plan tgt idx node_id_prefix
                  (fun child =>
                     clone_nodes tgt child next_obj idx node_id_prefix)
                  (c :: cs)
                  ltac:(eapply Forall_impl; [exact IH|]; cbv beta;
                        intros x Hx; apply Hx) [] w2)
        as (new & Hc & Hp & Hm).
      destruct (for_children _ (c :: cs) [] w2) as [cs' [r w3]].
      cbn [fst snd] in *. change (clock w2) with (clock w1) in *.
      rewrite Hk in *.
      eexists (_ :: new). split; [rewrite Hc; cbn; rewrite Hw, <- app_assoc;
                                  reflexivity|].
      split; [apply prefix_cons; exact Hp|].
      intros m Em. destruct (Hm m Em) as (Hk2 & E & G & m' & -> & M).
      cbn [map forallb granted snd omap variable_result fst request_of].
      rewrite E, G. repeat split; auto.
  - destruct (bool_decide (s_cls d ∈ [ClsInt 2; ClsName "Variable"]));
      [|apply follows_plan_quiet; [exact Hw | discriminate]].
    unfold bind_holding.
    destruct (add_variable tgt base_object _ _ w1) as [r w2] eqn:Ev.
    apply add_variable_run in Ev as [Hk2 Ev].
    unfold clock_after_variable in Hk2 |- *.
    replace (s_type (set_name (normalize (s_name d) idx) d)) with (s_type d)
      in Ev, Hk2 by (destruct d; reflexivity).
    replace (s_current_value (set_name (normalize (s_name d) idx) d))
      with (s_current_value d) in Ev, Hk2 by (destruct d; reflexivity).
    replace (s_name (set_name (normalize (s_name d) idx) d))
      with (normalize (s_name d) idx) in Ev by (destruct d; reflexivity).
    rewrite Hk in Ev, Hk2. rewrite Hw in Ev.
    destruct (converted_type (s_type d)) as [s|ty].
    { destruct Ev as [-> Ec]. cbn [fst snd].
      apply follows_plan_quiet; [exact Ec | discriminate]. }
    destruct (chosen_value (clock w 0%nat) (s_current_value d) ty) as [val|].
    + destruct Ev as [Ec ->].
      destruct (add_variable_answer tgt (calls w) base_object
                  (node_id_prefix +:+ s_id d) (normalize (s_name d) idx)
                  val ty) as [e|n]; cbn [fst snd];
        (eexists [_]; split; [exact Ec|];
         split; [apply prefix_cons, prefix_nil|]);
        [discriminate|].
      intros m [= <-]. repeat split. exact Hk2.
    + destruct Ev as [-> Ec]. cbn [fst snd].
      apply follows_plan_quiet; [exact Ec|].
      intros m [= <-]. split; [reflexivity | exact Hk2].
Qed.

(** X6.  The requests a clone sends are always an initial part of the
    plan of the tree: one [add_object] for each Object that has children,
    before the requests of its children, one [add_variable] for each
    Variable that is not declined, with the prefixed identifier, the
    normalised name, the chosen value and the type, and nothing for what
    lies below a Variable.  A default that is the time of the day is the
    instant the clock gives when the clone reaches the Variable, each such
    Variable reading the clock once.  When the clone returns, it has sent
    the whole plan, every request was granted, the mapping lists, in the
    order of the requests, each variable created with the identifier the
    server gave it, and the clock was read once for each such default. *)
Theorem clone_nodes_requests tgt d base_object idx node_id_prefix w :
  exists new,
    calls (snd (snd (clone_nodes tgt d base_object idx node_id_prefix w)))
    = calls w ++ new /\
    map request_of new `prefix_of` plan (clock w) idx node_id_prefix d /\
    forall m,
      fst (snd (clone_nodes tgt d base_object idx node_id_prefix w)) = Ok m ->
      map request_of new = plan (clock w) idx node_id_prefix d /\
      forallb granted new = true /\
      map (fun e => (node_id_prefix +:+ fst e, snd e)) m
      = omap (variable_result tgt) new /\
      clock (snd (snd (clone_nodes tgt d base_object idx node_id_prefix w)))
      = clock_after d (clock w).
Proof.
  destruct (clone_nodes_follows_plan tgt idx node_id_prefix d base_object w)
    as (new & Hc & Hp & Hm).
  exists new. split; [exact Hc|]. split; [exact Hp|].
  intros m Em. destruct (Hm m Em) as (Hk & E & G & M). auto.
Qed.

Lemma clone_nodes_requests_witness :
  exists new,
    calls (snd (snd (clone_nodes willing_target timestamps_dict 0%nat 5
                       "bridge:" world0))) = new /\
    map request_of new
    = [RequestObject "bridge:ns=2;i=30" "Times";
       RequestVariable "bridge:ns=2;i=31" "Started" (VDateTime 1000)
         (Some VT_DateTime);
       RequestVariable "bridge:ns=2;i=32" "5:Stopped" (VDateTime 1001)
         (Some VT_DateTime)] /\
    fst (snd (clone_nodes willing_target timestamps_dict 0%nat 5 "bridge:"
                world0))
    = Ok [("ns=2;i=31", "ns=3;i=101"); ("ns=2;i=32", "ns=3;i=102")].
Proof.
  destruct (clone_nodes_requests willing_target timestamps_dict 0%nat 5
              "bridge:" world0) as (new & Hc & _ & Hm).
  exists new. split; [exact Hc|].
  destruct (Hm _ eq_refl) as (E & _ & _).
  split; [rewrite E; reflexivity | reflexivity].
Defined.

(** ** When a clone returns *)

Lemma for_children_returns (rec : Snapshot -> World -> Cloned) cs :
  Forall (fun c => forall w, exists m, fst (snd (rec c w)) = Ok m) cs ->
  forall acc w, exists m, fst (snd (for_children rec cs acc w)) = Ok m.
Proof.
  induction 1 as [|c cs Hc _ IH]; intros acc w; [cbn; eauto|].
  cbn [for_children]. destruct (Hc w) as [m1 E1].
  destruct (rec c w) as [c' [r w1]]. cbn [fst snd] in E1. subst r.
  destruct (IH (acc ++ m1) w1) as [m E].
  destruct (for_children rec cs (acc ++ m1) w1) as [cs' [r w2]].
  cbn [fst snd] in *. eauto.
Qed.

Lemma for_children_returned (P : Snapshot -> Prop)
    (rec : Snapshot -> World -> Cloned) cs :
  Forall (fun c => forall w m, fst (snd (rec c w)) = Ok m -> P c) cs ->
  forall acc w m,
    fst (snd (for_children rec cs acc w)) = Ok m -> Forall P cs.
Proof.
  induction 1 as [|c cs Hc _ IH]; intros acc w m; [constructor|].
  cbn [for_children]. specialize (Hc w).
  destruct (rec c w) as [c' [[m1| |] w1]]; cbn [fst snd] in *;
    [|discriminate|discriminate].
  specialize (IH (acc ++ m1) w1).
  destruct (for_children rec cs (acc ++ m1) w1) as [cs' [r w2]].
  cbn [fst snd] in *. intros ->. constructor; eauto.
Qed.

Lemma cloneable_eq d :
  cloneable d
  = if bool_decide (s_cls d ∈ [ClsInt 1; ClsName "Object"])
    then forallb cloneable (children_of d)
    else bool_decide (s_cls d ∈ [ClsInt 2; ClsName "Variable"])
         && match converted_type (s_type d) with
            | inr _ => true
            | inl _ => false
            end.
Proof. destruct d as [i n c t p v nd [cs|]]; reflexivity. Qed.

Lemma s_type_set_name name d : s_type (set_name name d) = s_type d.
Proof. destruct d; reflexivity. Qed.

(** X7.  With a server that grants every request, [clone_nodes] returns a
    mapping exactly when every dictionary it visits is an Object or a
    Variable whose type, when given by name, is a member of
    [VariantType]. *)
Theorem clone_nodes_returns_iff_cloneable tgt d :
  willing tgt ->
  forall base_object idx node_id_prefix w,
    cloneable d = true <->
    exists m,
      fst (snd (clone_nodes tgt d base_object idx node_id_prefix w)) = Ok m.
Proof.
  intros [Hobj Hvar]. induction d as [d IH] using Snapshot_tree_ind.
  intros base_object idx node_id_prefix w.
  rewrite cloneable_eq, clone_nodes_eq. cbv zeta.
  destruct (bool_decide (s_cls d ∈ [ClsInt 1; ClsName "Object"])).
  - unfold children_of in IH |- *.
    destruct (s_children d) as [[|c cs]|]; cbn [fst snd default forallb];
      [split; eauto| |split; eauto].
    cbn [default] in IH. unfold bind_holding, add_object.
    destruct (Hobj (calls (after_fix_name (s_name d) w)) base_object
                (node_id_prefix +:+ s_id d) (normalize (s_name d) idx))
      as [next_obj ->].
    set (w2 := add_call _ _).
    set (rec := fun child : Snapshot =>
                  clone_nodes tgt child next_obj idx node_id_prefix).
    split.
    + intros Hd.
      destruct (for_children_returns rec (c :: cs))
        with (acc := @nil (string * string)) (w := w2) as [m Em].
      * rewrite Forall_forall in IH |- *. intros x Hx w0.
        apply IH; [exact Hx|].
        change (forallb cloneable (c :: cs) = true) in Hd.
        rewrite forallb_forall in Hd. apply Hd, list_elem_of_In, Hx.
      * destruct (for_children rec (c :: cs) [] w2) as [cs' [r w3]].
        cbn [fst snd] in *. eauto.
    + intros [m Em].
      assert (Forall (fun x => cloneable x = true) (c :: cs)) as HF.
      { apply for_children_returned
          with (rec := rec) (acc := @nil (string * string)) (w := w2) (m := m).
        - rewrite Forall_forall in IH |- *. intros x Hx w0 m0 E0.
          eapply IH; [exact Hx|]. eauto.
        - destruct (for_children rec (c :: cs) [] w2) as [cs' [r w3]].
          exact Em. }
      change (forallb cloneable (c :: cs) = true).
      apply forallb_forall. intros x Hx.
      rewrite Forall_forall in HF. apply HF, list_elem_of_In, Hx.
  - destruct (bool_decide (s_cls d ∈ [ClsInt 2; ClsName "Variable"]));
      cbn [andb fst snd]; [|split; [discriminate | intros [m E]; discriminate]].
    unfold bind_holding.
    destruct (add_variable tgt base_object _ _ _) as [r w2] eqn:Ev.
    apply add_variable_run in Ev as [_ Ev]. rewrite s_type_set_name in Ev.
    destruct (converted_type (s_type d)) as [s|ty].
    + destruct Ev as [-> _].
      split; [discriminate | intros [m E]; discriminate].
    + split; [intros _ | reflexivity].
      destruct (chosen_value _ _ ty) as [val|].
      * destruct Ev as [_ ->].
        match goal with
        | |- context [add_variable_answer ?t ?h ?b ?i ?n ?v ?y] =>
            destruct (Hvar h b i n v y) as [x ->]
        end.
        cbn [fst snd]. eauto.
      * destruct Ev as [-> _]. cbn [fst snd]. eauto.
Qed.

Lemma willing_target_willing : willing willing_target.
Proof. split; intros; eexists; reflexivity. Qed.

Lemma clone_nodes_returns_iff_cloneable_witness :
  exists m,
    fst (snd (clone_nodes willing_target station_dict 0%nat 5 "" world0))
    = Ok m.
Proof.
  apply (clone_nodes_returns_iff_cloneable willing_target station_dict
           willing_target_willing 0%nat 5 "" world0).
  reflexivity.
Defined.

(** ** Why a clone fails *)

Lemma clone_visits_eq d :
  clone_visits d
  = d :: if bool_decide (s_cls d ∈ [ClsInt 1; ClsName "Object"])
         then flat_map clone_visits (children_of d)
         else [].
Proof. destruct d as [i n c t p v nd [cs|]]; reflexivity. Qed.

Lemma clone_failure_child d c w w1 w' e pre :
  bool_decide (s_cls d ∈ [ClsInt 1; ClsName "Object"]) = true ->
  In c (children_of d) ->
  calls w1 = calls w ++ pre ->
  clone_failure c w1 w' e -> clone_failure d w w' e.
Proof.
  intros Hd Hc Hw.
  assert (forall n, In n (clone_visits c) -> In n (clone_visits d)) as Hin.
  { intros n Hn. rewrite clone_visits_eq, Hd. right.
    apply in_flat_map. eauto. }
  intros [(-> & n & Hn & Hcls)|[(s & n & -> & Hn & Hcls & Ht)
                               |(new0 & c0 & e0 & Hcalls & ->)]].
  - left. eauto.
  - right. left. exists s, n. auto.
  - right. right. exists (pre ++ new0), c0, e0.
    rewrite Hcalls, Hw, <- !app_assoc. auto.
Qed.

Lemma for_children_failure (rec : Snapshot -> World -> Cloned) cs :
  Forall (fun c => forall w,
            (exists new, calls (snd (snd (rec c w))) = calls w ++ new) /\
            fst (snd (rec c w)) <> OutOfFuel /\
            forall e, fst (snd (rec c w)) = Raise e ->
                      clone_failure c w (snd (snd (rec c w))) e) cs ->
  forall acc w,
    (exists new,
       calls (snd (snd (for_children rec cs acc w))) = calls w ++ new) /\
    fst (snd (for_children rec cs acc w)) <> OutOfFuel /\
    forall e,
      fst (snd (for_children rec cs acc w)) = Raise e ->
      exists c w1 pre,
        In c cs /\ calls w1 = calls w ++ pre /\
        clone_failure c w1 (snd (snd (for_children rec cs acc w))) e.
Proof.
  induction 1 as [|c cs Hc _ IH]; intros acc w.
  - cbn. split; [exists []; rewrite app_nil_r; reflexivity|].
    split; discriminate.
  - cbn [for_children]. destruct (Hc w) as ([new1 Hc1] & Hf1 & He1).
    destruct (rec c w) as [c' [[m1|e1|] w1]]; cbn [fst snd] in *.
    + destruct (IH (acc ++ m1) w1) as ([new2 Hc2] & Hf2 & He2).
      destruct (for_children rec cs (acc ++ m1) w1) as [cs' [r w2]].
      cbn [fst snd] in *.
      split; [exists (new1 ++ new2); rewrite Hc2, Hc1, app_assoc; reflexivity|].
      split; [exact Hf2|]. intros e Ee.
      destruct (He2 e Ee) as (x & wx & pre & Hx & Hwx & Hfail).
      exists x, wx, (new1 ++ pre).
      rewrite Hwx, Hc1, app_assoc.
      split; [right; exact Hx|]. split; [reflexivity | exact Hfail].
    + split; [eauto|]. split; [discriminate|]. intros e Ee.
      exists c, w, []. rewrite app_nil_r.
      split; [left; reflexivity|]. split; [reflexivity | apply He1, Ee].
    + exfalso. apply Hf1. reflexivity.
Qed.

Lemma clone_nodes_failure tgt idx node_id_prefix d :
  forall base_object w,
    (exists new,
       calls (snd (snd (clone_nodes tgt d base_object idx node_id_prefix w)))
       = calls w ++ new) /\
    fst (snd (clone_nodes tgt d base_object idx node_id_prefix w))
    <> OutOfFuel /\
    forall e,
      fst (snd (clone_nodes tgt d base_object idx node_id_prefix w)) = Raise e ->
      clone_failure d w
        (snd (snd (clone_nodes tgt d base_object idx node_id_prefix w))) e.
Proof.
  induction d as [d IH] using Snapshot_tree_ind. intros base_object w.
  assert (In d (clone_visits d)) as Hd
    by (rewrite clone_visits_eq; left; reflexivity).
  rewrite clone_nodes_eq. cbv zeta.
  pose proof (calls_after_fix_name (s_name d) w) as Hw.
  set (w1 := after_fix_name (s_name d) w) in *.
  destruct (bool_decide (s_cls d ∈ [ClsInt 1; ClsName "Object"])) eqn:Eobj.
  - assert (forall w0 : World,
              calls w0 = calls w ->
              (exists new, calls w0 = calls w ++ new) /\
              Ok (@nil (string * string)) <> OutOfFuel /\
              forall e, Ok (@nil (string * string)) = Raise e ->
                        clone_failure d w w0 e) as Hquiet.
    { intros w0 E. split; [exists []; rewrite app_nil_r; exact E|].
      split; discriminate. }
    unfold children_of in IH.
    destruct (s_children d) as [[|c cs]|] eqn:Ech; cbn [fst snd];
      [apply Hquiet, Hw| |apply Hquiet, Hw].
    cbn [default] in IH. unfold bind_holding, add_object.
    destruct (add_object_answer tgt (calls w1) base_object
                (node_id_prefix +:+ s_id d) (normalize (s_name d) idx))
      as [e0|next_obj] eqn:Eans; cbn [fst snd].
    + unfold add_call. cbn [calls]. rewrite Hw.
      split; [eauto|]. split; [discriminate|]. intros e Ee.
      injection Ee as <-. right. right.
      eexists [], _, e0. cbn [app]. split; reflexivity.
    + set (w2 := add_call _ w1).
      set (rec := fun child : Snapshot =>
                    clone_nodes tgt child next_obj idx node_id_prefix).
      destruct (for_children_failure rec (c :: cs))
        with (acc := @nil (string * string)) (w := w2)
        as ([new Hc] & Hf & He).
      { rewrite Forall_forall in IH |- *. intros x Hx w0. apply IH, Hx. }
      destruct (for_children rec (c :: cs) [] w2) as [cs' [r w3]].
      cbn [fst snd] in *.
      assert (calls w2 = calls w ++ [(CallAddObject base_object
                                        (node_id_prefix +:+ s_id d)
                                        (normalize (s_name d) idx),
                                      inr next_obj)]) as Hw2
        by (unfold w2, add_call; cbn [calls]; rewrite Hw; reflexivity).
      split; [eexists; rewrite Hc, Hw2, <- app_assoc; reflexivity|].
      split; [exact Hf|]. intros e Ee.
      destruct (He e Ee) as (x & wx & pre & Hx & Hwx & Hfail).
      apply clone_failure_child with (c := x) (w1 := wx)
                                     (pre := [(CallAddObject base_object
                                        (node_id_prefix +:+ s_id d)
                                        (normalize (s_name d) idx),
                                      inr next_obj)] ++ pre);
        [exact Eobj | unfold children_of; rewrite Ech; exact Hx | | exact Hfail].
      rewrite Hwx, Hw2, <- app_assoc. reflexivity.
  - destruct (bool_decide (s_cls d ∈ [ClsInt 2; ClsName "Variable"]))
      eqn:Evar; cbn [fst snd].
    + unfold bind_holding.
      destruct (add_variable tgt base_object _ _ _) as [r w2] eqn:Ev.
      apply add_variable_run in Ev as [_ Ev]. rewrite s_type_set_name in Ev.
      destruct (converted_type (s_type d)) as [s|ty] eqn:Et.
      * destruct Ev as [-> Hc]. cbn [fst snd]. rewrite Hc, Hw.
        split; [exists []; rewrite app_nil_r; reflexivity|].
        split; [discriminate|]. intros e Ee. injection Ee as <-.
        right. left. exists s, d.
        apply bool_decide_eq_true_1 in Evar. auto.
      * destruct (chosen_value _ _ ty) as [val|].
        -- destruct Ev as [Hc ->].
           destruct (add_variable_answer _ _ _ _ _ _ _) as [e0|n];
             cbn [fst snd]; rewrite Hc, Hw;
             (split; [eauto|]); (split; [discriminate|]); intros e Ee;
             [|discriminate Ee].
           injection Ee as <-. right. right.
           eexists [], _, e0. cbn [app].
           split; [rewrite Hc, Hw; reflexivity | reflexivity].
        -- destruct Ev as [-> Hc]. cbn [fst snd]. rewrite Hc, Hw.
           split; [exists []; rewrite app_nil_r; reflexivity|].
           split; discriminate.
    + rewrite Hw. split; [exists []; rewrite app_nil_r; reflexivity|].
      split; [discriminate|]. intros e Ee. injection Ee as <-.
      left. split; [reflexivity|]. exists d. split; [exact Hd|].
      apply bool_decide_eq_false_2. intros Hin.
      apply bool_decide_eq_false_1 in Eobj.
      apply bool_decide_eq_false_1 in Evar.
      apply elem_of_cons in Hin as [E|Hin];
        [apply Eobj; rewrite E; apply list_elem_of_here|].
      apply elem_of_cons in Hin as [E|Hin];
        [apply Eobj; rewrite E; apply list_elem_of_further, list_elem_of_here|].
      apply Evar, Hin.
Qed.

(** X8.  [clone_nodes] never fails in any other way than these: with
    [NotImplementedError], and then a dictionary it visited is neither
    Object nor Variable; with [KeyError] of a type name, and then a
    Variable it visited has that name as type and the name is no member of
    [VariantType]; or right after a request that the server refused, with
    the error of the server when the request was [add_object] and with
    [SystemExit(1)] when it was [add_variable]. *)
Theorem clone_nodes_raises tgt d base_object idx node_id_prefix w e :
  fst (snd (clone_nodes tgt d base_object idx node_id_prefix w)) = Raise e ->
  clone_failure d w
    (snd (snd (clone_nodes tgt d base_object idx node_id_prefix w))) e.
Proof.
  intros E.
  destruct (clone_nodes_failure tgt idx node_id_prefix d base_object w)
    as (_ & _ & H).
  apply H, E.
Qed.

Lemma clone_nodes_raises_witness :
  clone_failure method_dict world0
    (snd (snd (clone_nodes willing_target method_dict 0%nat 0 "" world0)))
    NotImplementedError.
Proof. apply clone_nodes_raises. reflexivity. Defined.

(** ** Where the nodes are created *)

Lemma parents_known_app base base' new1 new2 :
  parents_known base new1 ->
  parents_known base' new2 ->
  base' ∈ base :: omap created_object new1 ->
  parents_known base (new1 ++ new2).
Proof.
  intros H1 H2 Hb i ev Hi. rewrite take_app, omap_app.
  apply lookup_app_Some in Hi as [Hi|[Hlen Hi]].
  - specialize (H1 i ev Hi).
    apply elem_of_cons in H1 as [->|H1]; [apply list_elem_of_here|].
    apply list_elem_of_further, elem_of_app. left. exact H1.
  - specialize (H2 _ ev Hi). rewrite (take_ge new1) by exact Hlen.
    apply elem_of_cons in H2 as [->|H2].
    + apply elem_of_cons in Hb as [->|Hb]; [apply list_elem_of_here|].
      apply list_elem_of_further, elem_of_app. left. exact Hb.
    + apply list_elem_of_further, elem_of_app. right. exact H2.
Qed.

Lemma parents_known_nil base : parents_known base [].
Proof. intros i ev Hi. discriminate Hi. Qed.

Lemma parents_known_one base c r :
  call_parent c = base -> parents_known base [(c, r)].
Proof.
  intros <- [|i] ev Hi; [|discriminate Hi].
  injection Hi as <-. apply list_elem_of_here.
Qed.

Lemma for_children_parents base (rec : Snapshot -> World -> Cloned) cs :
  Forall (fun c => forall w,
            exists new,
              calls (snd (snd (rec c w))) = calls w ++ new /\
              parents_known base new) cs ->
  forall acc w,
    exists new,
      calls (snd (snd (for_children rec cs acc w))) = calls w ++ new /\
      parents_known base new.
Proof.
  induction 1 as [|c cs Hc _ IH]; intros acc w.
  - exists []. cbn. rewrite app_nil_r.
    split; [reflexivity | apply parents_known_nil].
  - cbn [for_children]. destruct (Hc w) as (new1 & Hc1 & Hp1).
    destruct (rec c w) as [c' [[m1|e1|] w1]]; cbn [fst snd] in *; eauto.
    destruct (IH (acc ++ m1) w1) as (new2 & Hc2 & Hp2).
    destruct (for_children rec cs (acc ++ m1) w1) as [cs' [r w2]].
    cbn [fst snd] in *. exists (new1 ++ new2).
    rewrite Hc2, Hc1, app_assoc. split; [reflexivity|].
    apply parents_known_app with (base' := base);
      [exact Hp1 | exact Hp2 | apply list_elem_of_here].
Qed.

(** X9.  Every request of a clone is made under the base object the caller
    gave or under a node the server returned for an earlier [add_object]
    of the same clone: nothing is created under a node of the source, under
    a variable, or under a node the server made for another caller. *)
Theorem clone_nodes_parents tgt d :
  forall base_object idx node_id_prefix w,
    exists new,
      calls (snd (snd (clone_nodes tgt d base_object idx node_id_prefix w)))
      = calls w ++ new /\
      parents_known base_object new.
Proof.
  induction d as [d IH] using Snapshot_tree_ind.
  intros base_object idx node_id_prefix w.
  rewrite clone_nodes_eq. cbv zeta.
  pose proof (calls_after_fix_name (s_name d) w) as Hw.
  set (w1 := after_fix_name (s_name d) w) in *.
  assert (forall w0 : World,
            calls w0 = calls w ->
            exists new, calls w0 = calls w ++ new /\
                        parents_known base_object new) as Hquiet.
  { intros w0 E. exists []. rewrite app_nil_r.
    split; [exact E | apply parents_known_nil]. }
  destruct (bool_decide (s_cls d ∈ [ClsInt 1; ClsName "Object"])).
  - unfold children_of in IH.
    destruct (s_children d) as [[|c cs]|]; cbn [fst snd];
      [apply Hquiet, Hw| |apply Hquiet, Hw].
    cbn [default] in IH. unfold bind_holding, add_object.
    set (ev := CallAddObject base_object (node_id_prefix +:+ s_id d)
                 (normalize (s_name d) idx)).
    destruct (add_object_answer tgt (calls w1) base_object
                (node_id_prefix +:+ s_id d) (normalize (s_name d) idx))
      as [e0|next_obj]; cbn [fst snd].
    + exists [(ev, inl e0)]. unfold add_call. cbn [calls]. rewrite Hw.
      split; [reflexivity | apply parents_known_one; reflexivity].
    + set (w2 := add_call _ w1).
      set (rec := fun child : Snapshot =>
                    clone_nodes tgt child next_obj idx node_id_prefix).
      destruct (for_children_parents next_obj rec (c :: cs))
        with (acc := @nil (string * string)) (w := w2)
        as (new & Hc & Hp).
      { rewrite Forall_forall in IH |- *. intros x Hx w0. apply IH, Hx. }
      destruct (for_children rec (c :: cs) [] w2) as [cs' [r w3]].
      cbn [fst snd] in *.
      exists ([(ev, inr next_obj)] ++ new). rewrite Hc.
      unfold w2, add_call. cbn [calls]. rewrite Hw, <- app_assoc.
      split; [reflexivity|].
      apply parents_known_app with (base' := next_obj);
        [apply parents_known_one; reflexivity | exact Hp |].
      apply list_elem_of_further, list_elem_of_here.
  - destruct (bool_decide (s_cls d ∈ [ClsInt 2; ClsName "Variable"]));
      cbn [fst snd]; [|apply Hquiet, Hw].
    unfold bind_holding.
    destruct (add_variable tgt base_object _ _ _) as [r w2] eqn:Ev.
    apply add_variable_run in Ev as [_ Ev].
    destruct (converted_type _) as [s|ty].
    + destruct Ev as [-> Hc]. cbn [fst snd]. apply Hquiet. congruence.
    + destruct (chosen_value _ _ ty) as [val|].
      * destruct Ev as [Hc ->].
        assert (exists new, calls w2 = calls w ++ new /\
                            parents_known base_object new) as Hnew.
        { eexists. rewrite Hc, Hw. split; [reflexivity|].
          apply parents_known_one. reflexivity. }
        destruct (add_variable_answer _ _ _ _ _ _ _); exact Hnew.
      * destruct Ev as [-> Hc]. cbn [fst snd]. apply Hquiet. congruence.
Qed.

(** ** Cloning what was serialised *)

Lemma VariantType_getitem_name t :
  VariantType_getitem (VariantType_name t) = Some t.
Proof. destruct t; reflexivity. Qed.

Lemma converted_type_serialise t :
  t <> Some (TyEnum VT_Null) ->
  converted_type (serialise_type t) = converted_type t.
Proof.
  destruct t as [[|vt|s]|]; try reflexivity. intros Hn.
  unfold serialise_type, converted_type.
  destruct vt; try (exfalso; apply Hn; reflexivity); reflexivity.
Qed.

Lemma serialise_cls_keeps c :
  bool_decide (serialise_cls c ∈ [ClsInt 1; ClsName "Object"])
  = bool_decide (c ∈ [ClsInt 1; ClsName "Object"]) /\
  bool_decide (serialise_cls c ∈ [ClsInt 2; ClsName "Variable"])
  = bool_decide (c ∈ [ClsInt 2; ClsName "Variable"]).
Proof.
  destruct c as [v|s]; [|split; reflexivity].
  unfold serialise_cls, NodeClass_of_value. cbn [find NodeClass_value].
  destruct (Z.eqb_spec v 0) as [->|_]; [split; reflexivity|].
  repeat match goal with
         | |- context [?k =? v] =>
             destruct (Z.eqb_spec k v) as [<-|_]; [split; reflexivity|]
         end.
  split; reflexivity.
Qed.

Lemma serialise_children d :
  s_children (serialise d)
  = match s_children d with
    | Some (c :: cs) => Some (map serialise (c :: cs))
    | _ => None
    end.
Proof. destruct d as [i n c t p v nd [[|x xs]|]]; reflexivity. Qed.

Lemma for_children_serialise (rec1 rec2 : Snapshot -> World -> Cloned) cs :
  Forall (fun c => forall w1 w2,
            same_server w1 w2 ->
            fst (snd (rec1 (serialise c) w1)) = fst (snd (rec2 c w2)) /\
            same_server (snd (snd (rec1 (serialise c) w1)))
              (snd (snd (rec2 c w2)))) cs ->
  forall acc w1 w2,
    same_server w1 w2 ->
    fst (snd (for_children rec1 (map serialise cs) acc w1))
    = fst (snd (for_children rec2 cs acc w2)) /\
    same_server (snd (snd (for_children rec1 (map serialise cs) acc w1)))
      (snd (snd (for_children rec2 cs acc w2))).
Proof.
  induction 1 as [|c cs Hc _ IH]; intros acc w1 w2 Hw.
  - cbn. auto.
  - cbn [map for_children]. destruct (Hc w1 w2 Hw) as [E Hs].
    destruct (rec1 (serialise c) w1) as [c1 [[m1| |] w1']],
             (rec2 c w2) as [c2 [[m2| |] w2']];
      cbn [fst snd] in *; try discriminate E; auto.
    injection E as <-. destruct (IH (acc ++ m1) w1' w2' Hs) as [F Ht].
    destruct (for_children rec1 (map serialise cs) (acc ++ m1) w1')
      as [cs1 [r1 v1]],
      (for_children rec2 cs (acc ++ m1) w2') as [cs2 [r2 v2]].
    cbn [fst snd] in *. auto.
Qed.

Lemma same_server_after_fix_name name w1 w2 :
  same_server w1 w2 ->
  same_server (after_fix_name name w1) (after_fix_name name w2).
Proof.
  intros [Hc Hk]. split.
  - rewrite !calls_after_fix_name. exact Hc.
  - rewrite !clock_after_fix_name. exact Hk.
Qed.

Lemma clone_nodes_serialise tgt d :
  Forall entries_kept (clone_visits d) ->
  forall base_object idx node_id_prefix w1 w2,
    same_server w1 w2 ->
    fst (snd (clone_nodes tgt (serialise d) base_object idx node_id_prefix w1))
    = fst (snd (clone_nodes tgt d base_object idx node_id_prefix w2)) /\
    same_server
      (snd (snd (clone_nodes tgt (serialise d) base_object idx
                   node_id_prefix w1)))
      (snd (snd (clone_nodes tgt d base_object idx node_id_prefix w2))).
Proof.
  induction d as [d IH] using Snapshot_tree_ind.
  intros Hk base_object idx node_id_prefix w1 w2 Hw.
  rewrite clone_visits_eq in Hk. apply Forall_cons in Hk as [[Hd Hty] Hk].
  rewrite !clone_nodes_eq. cbv zeta. rewrite serialise_children.
  replace (s_name (serialise d)) with (s_name d) by (destruct d; reflexivity).
  replace (s_id (serialise d)) with (s_id d) by (destruct d; reflexivity).
  replace (s_cls (serialise d)) with (serialise_cls (s_cls d))
    by (destruct d; reflexivity).
  apply (same_server_after_fix_name (s_name d)) in Hw.
  set (v1 := after_fix_name (s_name d) w1) in *.
  set (v2 := after_fix_name (s_name d) w2) in *.
  destruct (serialise_cls_keeps (s_cls d)) as [-> ->].
  destruct (bool_decide (s_cls d ∈ [ClsInt 1; ClsName "Object"])).
  - unfold children_of in IH, Hk.
    destruct (s_children d) as [[|c cs]|]; cbn [fst snd]; auto.
    cbn [default] in IH, Hk. unfold bind_holding, add_object.
    destruct Hw as [Hc Ht]. rewrite Hc.
    destruct (add_object_answer tgt (calls v2) base_object
                (node_id_prefix +:+ s_id d) (normalize (s_name d) idx))
      as [e0|next_obj]; cbn [fst snd].
    + split; [reflexivity|]. split; cbn; congruence.
    + set (u1 := add_call _ v1). set (u2 := add_call _ v2).
      assert (same_server u1 u2) as Hu by (split; cbn; congruence).
      set (rec := fun child : Snapshot =>
                    clone_nodes tgt child next_obj idx node_id_prefix).
      destruct (for_children_serialise rec rec (c :: cs))
        with (acc := @nil (string * string)) (w1 := u1) (w2 := u2)
        as [E Hs]; [|exact Hu|].
      { rewrite Forall_forall in IH |- *. intros x Hx y1 y2 Hy.
        apply IH; [exact Hx| |exact Hy].
        rewrite Forall_forall in Hk |- *. intros n Hn. apply Hk.
        apply list_elem_of_In, in_flat_map. exists x.
        split; apply list_elem_of_In; assumption. }
      destruct (for_children rec (map serialise (c :: cs)) [] u1)
        as [cs1 [r1 x1]],
        (for_children rec (c :: cs) [] u2) as [cs2 [r2 x2]].
      cbn [fst snd] in *. auto.
  - destruct (bool_decide (s_cls d ∈ [ClsInt 2; ClsName "Variable"]));
      cbn [fst snd]; auto.
    unfold bind_holding.
    destruct (add_variable tgt base_object
                (set_name (normalize (s_name d) idx) (serialise d)) _ v1)
      as [r1 x1] eqn:E1.
    destruct (add_variable tgt base_object
                (set_name (normalize (s_name d) idx) d) _ v2)
      as [r2 x2] eqn:E2.
    apply add_variable_run in E1 as [K1 E1].
    apply add_variable_run in E2 as [K2 E2].
    destruct Hw as [Hc Ht].
    replace (s_type (set_name (normalize (s_name d) idx) (serialise d)))
      with (serialise_type (s_type d)) in E1 by (destruct d; reflexivity).
    replace (s_current_value
               (set_name (normalize (s_name d) idx) (serialise d)))
      with (serialise_value (s_current_value d)) in E1
      by (destruct d; reflexivity).
    replace (s_name (set_name (normalize (s_name d) idx) (serialise d)))
      with (s_name (set_name (normalize (s_name d) idx) d)) in E1
      by (destruct d; reflexivity).
    replace (s_id (set_name (normalize (s_name d) idx) (serialise d)))
      with (s_id (set_name (normalize (s_name d) idx) d))
      by (destruct d; reflexivity).
    replace (s_current_value (set_name (normalize (s_name d) idx) d))
      with (s_current_value d) in E2 by (destruct d; reflexivity).
    rewrite s_type_set_name in E2.
    rewrite (converted_type_serialise _ Hty), Hd, Hc, Ht in E1.
    assert (clock x1 = clock x2) as Hclock.
    { rewrite K1, K2. unfold clock_after_variable.
      replace (s_type (set_name (normalize (s_name d) idx) (serialise d)))
        with (serialise_type (s_type d)) by (destruct d; reflexivity).
      replace (s_current_value
                 (set_name (normalize (s_name d) idx) (serialise d)))
        with (serialise_value (s_current_value d))
        by (destruct d; reflexivity).
      replace (s_current_value (set_name (normalize (s_name d) idx) d))
        with (s_current_value d) by (destruct d; reflexivity).
      rewrite s_type_set_name, (converted_type_serialise _ Hty), Hd, Ht.
      reflexivity. }
    destruct (converted_type (s_type d)) as [s|ty].
    + destruct E1 as [-> F1], E2 as [-> F2]. cbn [fst snd].
      split; [reflexivity|]. split; congruence.
    + destruct (chosen_value (clock v2 0%nat) (s_current_value d) ty)
        as [val|].
      * destruct E1 as [F1 ->], E2 as [F2 ->].
        assert (same_server x1 x2) as Hx by (split; congruence).
        destruct (add_variable_answer _ _ _ _ _ _ _); cbn [fst snd]; auto.
      * destruct E1 as [-> F1], E2 as [-> F2]. cbn [fst snd].
        split; [reflexivity|]. split; congruence.
Qed.

(** X10.  Cloning the serialised form of a tree (what [browse_nodes]
    returns with [to_export], names for classes and types, no empty
    [children], no [node]) does what cloning the tree itself does: the same
    requests get the same answers and the same mapping or exception comes
    out.  This holds as long as the serialisation dropped no
    [current_value] and no type [Null] of a dictionary the clone
    visits. *)
Theorem clone_nodes_of_serialised tgt d base_object idx node_id_prefix w :
  Forall entries_kept (clone_visits d) ->
  fst (snd (clone_nodes tgt (serialise d) base_object idx node_id_prefix w))
  = fst (snd (clone_nodes tgt d base_object idx node_id_prefix w)) /\
  calls (snd (snd (clone_nodes tgt (serialise d) base_object idx
                     node_id_prefix w)))
  = calls (snd (snd (clone_nodes tgt d base_object idx node_id_prefix w))).
Proof.
  intros Hk.
  destruct (clone_nodes_serialise tgt d Hk base_object idx node_id_prefix w w)
    as (E & Hc & _); [split; reflexivity|].
  split; assumption.
Qed.

Lemma clone_nodes_of_serialised_witness :
  fst (snd (clone_nodes willing_target (serialise internal_station) 0%nat 5
              "" world0))
  = fst (snd (clone_nodes willing_target internal_station 0%nat 5 ""
                world0)) /\
  calls (snd (snd (clone_nodes willing_target (serialise internal_station)
                     0%nat 5 "" world0)))
  = calls (snd (snd (clone_nodes willing_target internal_station 0%nat 5 ""
                       world0))).
Proof.
  apply clone_nodes_of_serialised.
  repeat (constructor; [split; [reflexivity | discriminate]|]). constructor.
Defined.

(** ** Fixing a name that was fixed before *)

Lemma str_of_int_digit i :
  0 <= i <= 9 ->
  exists d, str_of_int i = String d EmptyString /\ is_digit d = true /\
            Ascii.eqb "h" d = false.
Proof.
  intros Hi.
  assert (i = 0 \/ i = 1 \/ i = 2 \/ i = 3 \/ i = 4 \/ i = 5 \/ i = 6 \/
          i = 7 \/ i = 8 \/ i = 9) as Hcases by lia.
  repeat (destruct Hcases as [->|Hcases];
          [eexists; repeat split; reflexivity|]).
  subst i. eexists; repeat split; reflexivity.
Qed.

Lemma strip_http_id s : startswith s "http://" = false -> strip_http s = s.
Proof.
  intros H. unfold strip_http.
  pose proof (startswith_strip_prefix "http://" s) as P.
  rewrite H in P. rewrite P. reflexivity.
Qed.

Lemma normalize_again name i j :
  0 <= i <= 9 ->
  startswith (strip_http name) "http://" = false ->
  startswith (normalize name i) "http://" = false /\
  normalize (normalize name i) j = normalize name j.
Proof.
  intros Hi Hs. unfold normalize at 1 3 4.
  set (s := strip_http name) in *. clearbody s.
  assert (replace_namespace_digit s i = s ->
          startswith (replace_namespace_digit s i) "http://" = false /\
          normalize (replace_namespace_digit s i) j
          = replace_namespace_digit s j) as Hsame.
  { intros ->. split; [exact Hs|]. unfold normalize.
    rewrite strip_http_id by exact Hs. reflexivity. }
  destruct s as [|d [|c rest]]; try (apply Hsame; reflexivity).
  unfold replace_namespace_digit in *.
  destruct (is_digit d && Ascii.eqb c ":") eqn:E; [|apply Hsame; reflexivity].
  clear Hsame. apply andb_true_iff in E as [_ Ec].
  apply Ascii.eqb_eq in Ec. subst c.
  destruct (str_of_int_digit i Hi) as (di & -> & Hdi & Hh).
  change (String di EmptyString +:+ String ":" rest)
    with (String di (String ":" rest)).
  split.
  - unfold startswith. cbn [String.prefix].
    destruct (ascii_dec "h" di) as [<-|_]; [discriminate Hh | reflexivity].
  - unfold normalize, strip_http. cbn [strip_prefix]. rewrite Hh.
    unfold replace_namespace_digit. rewrite Hdi. reflexivity.
Qed.

(** X11.  [fix_name] on a name it returned before: when the first
    namespace index has one digit, and the name does not begin with
    [http://] twice, fixing the fixed name for index [j] gives what fixing
    the original name for [j] gives, and writes no further warning.  So a
    dictionary that [clone_nodes] renamed can be cloned again for another
    namespace. *)
Theorem fix_name_again name i j w n w' :
  0 <= i <= 9 ->
  startswith (strip_http name) "http://" = false ->
  fix_name name i w = (Ok n, w') ->
  fix_name n j w' = (fst (fix_name name j w), w').
Proof.
  intros Hi Hs. rewrite !fix_name_eq. intros E.
  injection E as <- <-. cbn [fst].
  destruct (normalize_again name i j Hi Hs) as [-> ->]. reflexivity.
Qed.

Lemma fix_name_again_witness :
  fix_name "5:Pressure" 7 (add_log WarnHttpStripped world0)
  = (Ok "7:Pressure", add_log WarnHttpStripped world0).
Proof.
  apply (fix_name_again "http://1:Pressure" 5 7 world0);
    [lia | reflexivity | reflexivity].
Defined.

Lemma to_uint_two p :
  (10 <= p)%positive ->
  exists a b r, NilZero.string_of_uint (Pos.to_uint p) = String a (String b r)
                /\ is_digit b = true /\ Ascii.eqb "h" a = false.
Proof.
  intros Hp.
  pose proof (DecimalPos.Unsigned.of_to p) as Hof.
  destruct (Pos.to_uint p) as [|u|u|u|u|u|u|u|u|u|u] eqn:E;
    try (apply DecimalPos.Unsigned.to_uint_nonnil in E; contradiction);
    (destruct u as [|u|u|u|u|u|u|u|u|u|u];
     [cbn in Hof; first [discriminate Hof | injection Hof as <-; lia]
     |do 3 eexists; repeat split; reflexivity ..]).
Qed.

Lemma str_of_int_outside i :
  i < 0 \/ 10 <= i ->
  exists a b r, str_of_int i = String a (String b r) /\
                (is_digit a && Ascii.eqb b ":") = false /\
                Ascii.eqb "h" a = false.
Proof.
  intros Hi. unfold str_of_int. destruct i as [|p|p]; [lia| |].
  - destruct (to_uint_two p) as (a & b & r & E & Hb & Ha); [lia|].
    cbn [Z.to_int NilZero.string_of_int]. exists a, b, r.
    split; [exact E|]. split; [|exact Ha].
    apply andb_false_iff. right.
    destruct (Ascii.eqb_spec b ":") as [->|_]; [discriminate Hb|reflexivity].
  - cbn [Z.to_int NilZero.string_of_int].
    pose proof (DecimalPos.Unsigned.to_uint_nonnil p) as Hn.
    destruct (Pos.to_uint p) as [|u|u|u|u|u|u|u|u|u|u] eqn:E;
      [contradiction|do 3 eexists; repeat split; reflexivity ..].
Qed.

Lemma normalize_not_again name i j :
  i < 0 \/ 10 <= i ->
  startswith (strip_http name) "http://" = false ->
  startswith (normalize name i) "http://" = false /\
  normalize (normalize name i) j = normalize name i.
Proof.
  intros Hi Hs. unfold normalize at 1 3 4.
  set (s := strip_http name) in *. clearbody s.
  assert (forall t : string,
            startswith t "http://" = false ->
            replace_namespace_digit t j = t ->
            startswith t "http://" = false /\ normalize t j = t) as Hsame.
  { intros t Ht Ej. split; [exact Ht|]. unfold normalize.
    rewrite strip_http_id by exact Ht. exact Ej. }
  destruct (str_of_int_outside i Hi) as (a & b & r & Ei & Hab & Ha).
  assert (forall tail,
            startswith (str_of_int i +:+ tail) "http://" = false /\
            normalize (str_of_int i +:+ tail) j = str_of_int i +:+ tail)
    as Hnum.
  { intros tail. rewrite Ei.
    change (String a (String b r) +:+ tail)
      with (String a (String b (r +:+ tail))).
    apply Hsame.
    - unfold startswith. cbn [String.prefix].
      destruct (ascii_dec "h" a) as [<-|_]; [discriminate Ha | reflexivity].
    - unfold replace_namespace_digit. rewrite Hab. reflexivity. }
  destruct s as [|d [|c rest]]; try (apply Hsame; [exact Hs | reflexivity]).
  unfold replace_namespace_digit.
  destruct (is_digit d && Ascii.eqb c ":") eqn:E; [apply Hnum|].
  apply Hsame; [exact Hs|]. unfold replace_namespace_digit. rewrite E.
  reflexivity.
Qed.

(** X12.  A name fixed for a namespace index that is not a single digit
    is never renumbered again: [fix_name] wrote [str(namespace_idx)] in
    front of the colon, and its pattern [^\d:] finds no digit followed by a
    colon at the start of such a name, so a second [fix_name], for any
    index, returns the name as it is, without a warning. *)
Theorem fix_name_not_again name i j w n w' :
  i < 0 \/ 10 <= i ->
  startswith (strip_http name) "http://" = false ->
  fix_name name i w = (Ok n, w') ->
  fix_name n j w' = (Ok n, w').
Proof.
  intros Hi Hs. rewrite !fix_name_eq. intros E.
  injection E as <- <-.
  destruct (normalize_not_again name i j Hi Hs) as [-> ->]. reflexivity.
Qed.

Lemma fix_name_not_again_witness :
  fix_name "12:Pressure" 3 world0 = (Ok "12:Pressure", world0).
Proof.
  apply (fix_name_not_again "1:Pressure" 12 3 world0);
    [right; lia | reflexivity | reflexivity].
Defined.

(** ** What an export logs *)

Lemma read_variable_log prov node node_class w vars w' :
  read_node_class prov node = inr node_class ->
  read_variable prov node node_class w = (Ok vars, w') ->
  log w' = log w ++ type_warning prov node.
Proof.
  unfold read_variable, type_warning. intros ->.
  destruct (decide (node_class = NC_Variable)) as [->|N].
  - rewrite bool_decide_eq_false_2 by auto.
    destruct (read_data_type_as_variant_type prov node) as [e1|t];
      destruct (get_value prov node) as [e2|v];
      cbv [bind try_call sum_map id ret raise warning];
      try destruct (is_UaError e1); try destruct (is_value_read_error e2);
      intros H; try discriminate H; injection H as <- <-;
      cbn [log add_log]; rewrite ?app_nil_r; reflexivity.
  - rewrite bool_decide_eq_true_2 by exact N.
    intros H. apply ret_Ok in H as [_ ->].
    destruct node_class; try (exfalso; apply N; reflexivity);
      rewrite app_nil_r; reflexivity.
Qed.

Lemma log_enter_path path name w :
  log (snd (enter_path path name w)) = log w.
Proof. destruct path; reflexivity. Qed.

Lemma type_warnings_eq prov n d :
  type_warnings prov n d
  = match get_children prov n with
    | inr kids =>
        warnings_children (type_warnings prov) (children_of d)
          (List.filter (is_exportable prov) kids)
    | inl _ => []
    end ++ type_warning prov n.
Proof.
  destruct d as [i nm c t p v nd [cs|]]; cbn [type_warnings s_children];
    unfold children_of; cbn [s_children default];
    destruct (get_children prov n); reflexivity.
Qed.

Lemma children_run_log prov rec p (f : Node -> Snapshot -> list LogEntry) :
  (forall node path w snap w',
     rec node path w = (Ok snap, w') -> log w' = log w ++ f node snap) ->
  forall kids subs w w',
    children_run prov rec p kids subs w w' ->
    log w' = log w ++ warnings_children f subs kids.
Proof.
  intros Hrec kids subs w w' Hrun.
  induction Hrun as [|child kids sub subs w w1 w2 _ Hcall _ IH].
  - rewrite app_nil_r. reflexivity.
  - apply Hrec in Hcall. cbn [log set_heap] in Hcall.
    cbn [warnings_children]. rewrite IH, Hcall, app_assoc. reflexivity.
Qed.

(** X17.  What an export writes to the log when it returns, in either
    mode: one warning for each Variable node it exported whose type read
    raised a [UaError], those of the children of a node, in order, before
    that of the node itself, and nothing else. *)
Theorem browse_nodes_logs_undetermined_types prov to_export :
  forall fuel node path w snap w',
    browse_nodes prov fuel node to_export path w = (Ok snap, w') ->
    log w' = log w ++ type_warnings prov node snap.
Proof.
  induction fuel as [|fuel IH]; intros node path w snap w' H;
    [discriminate H|].
  cbn [browse_nodes] in H. run_ok H.
  apply call_Ok in Hrun as [Hc ->].
  apply call_Ok in Hrun0 as [Hn ->].
  apply enter_path_run in Hrun1.
  apply call_Ok in Hrun2 as [Hk ->].
  apply (read_variable_log _ _ _ _ _ _ Hc) in Hrun4.
  cbv [read_list] in Hrun5. injection Hrun5 as <- <-.
  apply build_output_Ok in H as [-> ->]. cbn [fst snd] in *.
  apply browse_children_Ok in Hrun3 as (subs & -> & Hrun3).
  apply (children_run_log prov _ _ (type_warnings prov)) in Hrun3;
    [|exact IH].
  assert (log w2 = log w) as Hw2
    by (rewrite <- (log_enter_path path a0 w), <- Hrun1; reflexivity).
  rewrite type_warnings_eq, Hk, children_of_field. cbn [app].
  rewrite Hrun4, Hrun3, Hw2, <- app_assoc. reflexivity.
Qed.

Lemma browse_nodes_logs_undetermined_types_witness :
  exists snap w',
    plant_export = (Ok snap, w') /\
    log w' = [WarnTypeUndetermined 7%nat].
Proof.
  eexists _, _. split; [reflexivity|].
  apply (browse_nodes_logs_undetermined_types (table_provider plant) true 4
           0%nat None world0 _ _ plant_export_eq).
Defined.

(** * Properties of the set-up of the server *)

Lemma bind_library lib {B} (c : ServerCall) (k : nat -> Setup B) t :
  (library lib c ≫= k) t
  = match lib_answer lib t c with
    | None => k (length t) (t ++ [(c, None)])
    | Some e => (inl e, t ++ [(c, Some e)])
    end.
Proof.
  unfold mbind, Setup_bind, library. cbv zeta.
  destruct (lib_answer lib t c); reflexivity.
Qed.

Lemma bind_lift {A B} (r : Exc + A) (k : A -> Setup B) t :
  (lift r ≫= k) t
  = match r with
    | inr a => k a t
    | inl e => (inl e, t)
    end.
Proof. unfold mbind, Setup_bind, lift. destruct r; reflexivity. Qed.

Lemma bind_throw {A B} (e : Exc) (k : A -> Setup B) t :
  (throw e ≫= k) t = (inl e, t).
Proof. reflexivity. Qed.

Lemma bind_setup {A B} (c : Setup A) (k : A -> Setup B) t r t' :
  (c ≫= k) t = (r, t') ->
  (exists e, c t = (inl e, t') /\ r = inl e) \/
  (exists a t1, c t = (inr a, t1) /\ k a t1 = (r, t')).
Proof.
  unfold mbind, Setup_bind. destruct (c t) as [[e|a] t1]; intros H.
  - left. injection H as <- <-. eauto.
  - right. eauto.
Qed.

Lemma stops_at_error_nil {A} (r : Exc + A) : stops_at_error [] r.
Proof. left. constructor. Qed.

Lemma stops_at_error_app {A} new1 new2 (r : Exc + A) :
  Forall answered new1 -> stops_at_error new2 r ->
  stops_at_error (new1 ++ new2) r.
Proof.
  intros H1 [H2|(new0 & c & e & -> & H0 & ->)].
  - left. apply Forall_app. auto.
  - right. exists (new1 ++ new0), c, e. rewrite app_assoc.
    split; [reflexivity|]. split; [apply Forall_app; auto | reflexivity].
Qed.

Lemma stops_at_error_raised {A} c e :
  @stops_at_error A [(c, Some e)] (inl e).
Proof.
  right. exists [], c, e. split; [reflexivity|]. split; [constructor|reflexivity].
Qed.

Lemma Forall_answered_ok calls : Forall answered (map ok calls).
Proof. induction calls; constructor; [reflexivity | assumption]. Qed.

Lemma stops_at_error_returned {A} new (a : A) :
  stops_at_error new (inr a) -> Forall answered new.
Proof. intros [H|(new0 & c & e & _ & _ & H)]; [exact H | discriminate H]. Qed.

Lemma for_roles_run lib manager items :
  forall t r t',
    for_roles lib manager items t = (r, t') ->
    exists new,
      t' = t ++ new /\
      Forall (fun ev => is_registration (fst ev) = true) new /\
      stops_at_error new r /\
      forall u,
        r = inr u ->
        exists calls,
          Forall2 (fun item c => registration manager item = Some c)
            items calls /\
          new = map ok calls.
Proof.
  induction items as [|role_add items IH]; intros t r t' H.
  - injection H as <- <-. exists []. rewrite app_nil_r.
    split; [reflexivity|]. split; [constructor|].
    split; [apply stops_at_error_nil|]. intros _ _. exists [].
    split; constructor.
  - assert (forall e,
              exists new : list ServerEvent,
                t = t ++ new /\
                Forall (fun ev => is_registration (fst ev) = true) new /\
                @stops_at_error unit new (inl e) /\
                forall u : unit,
                  @inl Exc unit e = inr u ->
                  exists calls,
                    Forall2 (fun item c => registration manager item = Some c)
                      (role_add :: items) calls /\
                    new = map ok calls) as Hquiet.
    { intros e. exists []. rewrite app_nil_r. split; [reflexivity|].
      split; [constructor|]. split; [apply stops_at_error_nil|].
      discriminate. }
    cbn [for_roles] in H. rewrite bind_lift in H.
    destruct (getitem role_add "certificate_path") as [e1|certificate_path]
      eqn:E1; [injection H as <- <-; apply Hquiet|].
    rewrite bind_lift in H.
    destruct (getitem role_add "name") as [e2|name] eqn:E2;
      [injection H as <- <-; apply Hquiet|].
    rewrite bind_lift in H.
    destruct (getitem role_add "role") as [e3|role] eqn:E3;
      [injection H as <- <-; apply Hquiet|].
    assert (forall c,
              registration manager role_add = Some c ->
              is_registration c = true ->
              (library lib c ≫= fun _ => for_roles lib manager items) t
              = (r, t') ->
              exists new,
                t' = t ++ new /\
                Forall (fun ev => is_registration (fst ev) = true) new /\
                stops_at_error new r /\
                forall u,
                  r = inr u ->
                  exists calls,
                    Forall2
                      (fun item c => registration manager item = Some c)
                      (role_add :: items) calls /\
                    new = map ok calls) as Hcall.
    { intros c Hreg Hc Hrun. rewrite bind_library in Hrun.
      destruct (lib_answer lib t c) as [e|].
      - injection Hrun as <- <-. exists [(c, Some e)].
        split; [reflexivity|]. split; [repeat constructor; exact Hc|].
        split; [apply stops_at_error_raised | discriminate].
      - apply IH in Hrun as (new & -> & Hnew & Hstop & Hok).
        exists (ok c :: new). rewrite <- app_assoc.
        split; [reflexivity|]. split; [constructor; [exact Hc | exact Hnew]|].
        split.
        + apply (stops_at_error_app [ok c]);
            [repeat constructor | exact Hstop].
        + intros u Eu. destruct (Hok u Eu) as (calls & Hcalls & ->).
          exists (c :: calls). split; [constructor; assumption | reflexivity]. }
    unfold registration in Hcall. rewrite E1, E2, E3 in Hcall.
    destruct (eq_str role "admin");
      [apply (Hcall _ eq_refl eq_refl H)|].
    destruct (eq_str role "user"); [apply (Hcall _ eq_refl eq_refl H)|].
    rewrite bind_throw in H. injection H as <- <-. apply Hquiet.
Qed.

Lemma stops_at_error_inl {A B} new e :
  @stops_at_error A new (inl e) -> @stops_at_error B new (inl e).
Proof.
  intros [H|(new0 & c & e0 & -> & H0 & E)]; [left; exact H|].
  right. exists new0, c, e0. split; [reflexivity|].
  split; [exact H0 | congruence].
Qed.

Lemma Forall_answered_one c : Forall answered [ok c].
Proof. constructor; [reflexivity | constructor]. Qed.

Lemma setup_run lib url cert key manager t r t' :
  (server ← library lib (NewServer manager);
   library lib (ServerInit server);;
   library lib (SetEndpoint server url);;
   library lib (SetSecurityPolicy server [Basic256Sha256_SignAndEncrypt]);;
   library lib (LoadCertificate server cert);;
   library lib (LoadPrivateKey server key);;
   mret (server, manager)) t = (r, t') ->
  exists rest,
    t' = t ++ rest /\
    stops_at_error rest r /\
    map fst rest `prefix_of` setup_calls manager (length t) url cert key /\
    forall x,
      r = inr x ->
      x = (length t, manager) /\
      rest = map ok (setup_calls manager (length t) url cert key).
Proof.
  intros H.
  repeat (rewrite bind_library in H;
          destruct (lib_answer lib _ _) as [?e|];
          [injection H as <- <-; rewrite <- ?app_assoc; eexists;
           split; [reflexivity|];
           split; [repeat (apply stops_at_error_app;
                           [apply Forall_answered_one|]);
                   apply stops_at_error_raised|];
           split; [eexists; reflexivity | discriminate] |]).
  injection H as <- <-. rewrite <- ?app_assoc. eexists.
  split; [reflexivity|].
  split; [left; repeat constructor|].
  split; [exists []; reflexivity|].
  intros x E. injection E as <-. split; reflexivity.
Qed.

Lemma server_with_certificates_run lib url cert key certificates t r t' :
  server_with_certificates lib url cert key certificates t = (r, t') ->
  exists new,
    t' = t ++ new /\
    stops_at_error new r /\
    registers_first t url cert key certificates new r.
Proof.
  unfold server_with_certificates. cbv zeta. intros H.
  rewrite bind_library in H.
  destruct (lib_answer lib t NewCertificateUserManager) as [e|].
  { injection H as <- <-. eexists. split; [reflexivity|].
    split; [apply stops_at_error_raised|]. left.
    split; [repeat constructor | discriminate]. }
  rewrite bind_lift in H.
  destruct (iterate (default VNone certificates)) as [e|items] eqn:Eit.
  { injection H as <- <-. eexists. split; [reflexivity|].
    split; [left; apply Forall_answered_one|]. left.
    split; [repeat constructor | discriminate]. }
  apply bind_setup in H as [(e & H & ->)|([] & t1 & H & Hrest)];
    apply for_roles_run in H as (new & -> & Hreg & Hstop & Hok).
  { exists (ok NewCertificateUserManager :: new). rewrite <- app_assoc.
    split; [reflexivity|].
    split; [apply (stops_at_error_app [ok NewCertificateUserManager]);
            [apply Forall_answered_one
            |apply (stops_at_error_inl (A := unit)); exact Hstop]|].
    left. split; [|discriminate]. constructor; [reflexivity|].
    eapply Forall_impl; [exact Hreg|]. intros [[] ?]; cbn; congruence. }
  destruct (Hok tt eq_refl) as (calls & Hcalls & ->). clear Hok Hreg Hstop.
  assert (length ((t ++ [(NewCertificateUserManager, None)]) ++ map ok calls)
          = (length t + 1 + length items)%nat) as Hlen.
  { rewrite !length_app, length_map, (Forall2_length _ _ _ Hcalls).
    reflexivity. }
  apply setup_run in Hrest as (rest & -> & Hstop & Hpre & Hret).
  rewrite Hlen in *.
  exists ((ok NewCertificateUserManager :: map ok calls) ++ rest).
  split; [rewrite <- !app_assoc; reflexivity|].
  split.
  { apply stops_at_error_app; [|exact Hstop].
    apply (Forall_answered_ok (NewCertificateUserManager :: calls)). }
  right. exists items, calls, rest. auto.
Qed.

(** X13.  When [server_with_certificates] returns, [certificates] was
    given and iterable, every entry of it was a mapping with the keys
    [certificate_path], [name] and [role] and a role [admin] or [user], and
    the calls into the library were exactly these, none of which raised:
    the user manager is made; each entry is registered with it, in order,
    by [add_admin] or [add_user]; the server is made with that user
    manager, initialised, given the endpoint, the one security policy
    [Basic256Sha256_SignAndEncrypt], the certificate and the private key.
    The pair returned is that server and that user manager.  With
    [certificates] left out the function never returns. *)
Theorem server_with_certificates_returns lib url cert key certificates t
    server manager t' :
  server_with_certificates lib url cert key certificates t
  = (inr (server, manager), t') ->
  certificates <> None /\
  exists items calls,
    iterate (default VNone certificates) = inr items /\
    Forall2 (fun item c => registration manager item = Some c) items calls /\
    manager = length t /\
    server = (length t + 1 + length items)%nat /\
    t' = t ++ map ok (NewCertificateUserManager :: calls
                      ++ setup_calls manager server url cert key).
Proof.
  intros H.
  apply server_with_certificates_run in H as (new & -> & _ & Hreg).
  destruct Hreg as [[_ Hno]|(items & calls & rest & Hit & Hcalls & -> & _ & Hret)];
    [exfalso; apply (Hno (server, manager)); reflexivity|].
  destruct (Hret _ eq_refl) as [E ->]. injection E as -> ->.
  split; [intros ->; discriminate Hit|].
  exists items, calls.
  split; [exact Hit|]. split; [exact Hcalls|].
  split; [reflexivity|]. split; [reflexivity|].
  cbn [map]. rewrite map_app. reflexivity.
Qed.

Lemma server_with_certificates_returns_witness :
  exists items calls,
    iterate (VList [VDict [("certificate_path", VStr "certs/bridge.der");
                           ("name", VStr "bridge"); ("role", VStr "admin")]])
    = inr items /\
    Forall2 (fun item c => registration 0 item = Some c) items calls /\
    snd (server_with_certificates plain_library (VStr "opc.tcp://h:4840")
           (VStr "server.der") (VStr "server.pem")
           (Some (VList [VDict [("certificate_path", VStr "certs/bridge.der");
                                ("name", VStr "bridge");
                                ("role", VStr "admin")]])) [])
    = map ok (NewCertificateUserManager :: calls
              ++ setup_calls 0 2 (VStr "opc.tcp://h:4840") (VStr "server.der")
                   (VStr "server.pem")).
Proof.
  destruct (server_with_certificates_returns plain_library
              (VStr "opc.tcp://h:4840") (VStr "server.der") (VStr "server.pem")
              (Some (VList [VDict [("certificate_path",
                                    VStr "certs/bridge.der");
                                   ("name", VStr "bridge");
                                   ("role", VStr "admin")]])) [] 2%nat 0%nat
              _ eq_refl)
    as (_ & items & calls & Hit & Hcalls & _ & _ & Ht).
  exists items, calls. split; [exact Hit|]. split; [exact Hcalls | exact Ht].
Defined.

(** X14.  [server_with_certificates] handles no exception: the calls it
    made into the library all went through, except possibly the last one,
    and when the last one raised, the function raised that exception and
    called nothing after it. *)
Theorem server_with_certificates_stops_at_error lib url cert key certificates
    t r t' :
  server_with_certificates lib url cert key certificates t = (r, t') ->
  exists new, t' = t ++ new /\ stops_at_error new r.
Proof.
  intros H.
  apply server_with_certificates_run in H as (new & -> & Hstop & _).
  exists new. split; [reflexivity | exact Hstop].
Qed.

Lemma server_with_certificates_stops_at_error_witness :
  exists new,
    snd (server_with_certificates no_certificate_library (VStr "opc.tcp://h")
           (VStr "server.der") (VStr "server.pem") (Some (VList [])) [])
    = new /\
    stops_at_error new
      (fst (server_with_certificates no_certificate_library
              (VStr "opc.tcp://h") (VStr "server.der") (VStr "server.pem")
              (Some (VList [])) [])).
Proof.
  apply (server_with_certificates_stops_at_error no_certificate_library
           (VStr "opc.tcp://h") (VStr "server.der") (VStr "server.pem")
           (Some (VList [])) []).
  reflexivity.
Defined.

(** X15.  No server is made before the certificates are registered: in
    every run of [server_with_certificates], whatever its outcome, either
    [Server(...)] was not called and the function did not return, or
    [certificates] was iterable and every entry of it had first been
    registered with the user manager, in order and without an error; the
    calls after the registrations are an initial part of the set-up of the
    server. *)
Theorem server_with_certificates_registers_first lib url cert key
    certificates t r t' :
  server_with_certificates lib url cert key certificates t = (r, t') ->
  exists new,
    t' = t ++ new /\ registers_first t url cert key certificates new r.
Proof.
  intros H.
  apply server_with_certificates_run in H as (new & -> & _ & Hreg).
  exists new. split; [reflexivity | exact Hreg].
Qed.

Lemma server_with_certificates_registers_first_witness :
  exists new,
    snd (server_with_certificates plain_library (VStr "opc.tcp://h")
           (VStr "server.der") (VStr "server.pem")
           (Some (VList [VDict [("certificate_path", VStr "guest.der");
                                ("name", VStr "guest");
                                ("role", VStr "guest")]])) [])
    = new /\
    registers_first [] (VStr "opc.tcp://h") (VStr "server.der")
      (VStr "server.pem")
      (Some (VList [VDict [("certificate_path", VStr "guest.der");
                           ("name", VStr "guest");
                           ("role", VStr "guest")]]))
      new
      (fst (server_with_certificates plain_library (VStr "opc.tcp://h")
              (VStr "server.der") (VStr "server.pem")
              (Some (VList [VDict [("certificate_path", VStr "guest.der");
                                   ("name", VStr "guest");
                                   ("role", VStr "guest")]])) [])).
Proof.
  apply (server_with_certificates_registers_first plain_library
           (VStr "opc.tcp://h") (VStr "server.der") (VStr "server.pem")
           (Some (VList [VDict [("certificate_path", VStr "guest.der");
                                ("name", VStr "guest");
                                ("role", VStr "guest")]])) []).
  reflexivity.
Defined.

(** X16.  [server_from_yaml] calls the library only after the file was
    loaded and the four entries [server_url], [server_certificate_path],
    [server_private_key_path] and [certificates] were read from it: in
    every run, either no call was made and the function raised, or the
    document held the four entries and the run is the run of
    [server_with_certificates] on them, of whose result the server is
    returned. *)
Theorem server_from_yaml_reads_first lib yaml_path t r t' :
  server_from_yaml lib yaml_path t = (r, t') ->
  (t' = t /\ exists e, r = inl e) \/
  exists out url cert key certificates,
    safe_load_file lib yaml_path = inr out /\
    getitem out "server_url" = inr url /\
    getitem out "server_certificate_path" = inr cert /\
    getitem out "server_private_key_path" = inr key /\
    getitem out "certificates" = inr certificates /\
    t' = snd (server_with_certificates lib url cert key (Some certificates) t)
    /\
    r = match fst (server_with_certificates lib url cert key
                     (Some certificates) t) with
        | inr (server, _) => inr server
        | inl e => inl e
        end.
Proof.
  unfold server_from_yaml. intros H.
  rewrite bind_lift in H.
  destruct (safe_load_file lib yaml_path) as [e|out];
    [injection H as <- <-; left; eauto|].
  rewrite bind_lift in H.
  destruct (getitem out "server_url") as [e|url] eqn:E1;
    [injection H as <- <-; left; eauto|].
  rewrite bind_lift in H.
  destruct (getitem out "server_certificate_path") as [e|cert] eqn:E2;
    [injection H as <- <-; left; eauto|].
  rewrite bind_lift in H.
  destruct (getitem out "server_private_key_path") as [e|key] eqn:E3;
    [injection H as <- <-; left; eauto|].
  rewrite bind_lift in H.
  destruct (getitem out "certificates") as [e|certificates] eqn:E4;
    [injection H as <- <-; left; eauto|].
  right. exists out, url, cert, key, certificates.
  repeat (split; [reflexivity || assumption|]).
  unfold mbind, Setup_bind in H.
  destruct (server_with_certificates lib url cert key (Some certificates) t)
    as [[e|[server manager]] t1]; injection H as <- <-; split; reflexivity.
Qed.

Lemma server_from_yaml_reads_first_witness :
  (snd (server_from_yaml plain_library "cloud_server_config.yaml" []) = [] /\
   exists e,
     fst (server_from_yaml plain_library "cloud_server_config.yaml" [])
     = inl e)
  \/
  exists out url cert key certificates,
    safe_load_file plain_library "cloud_server_config.yaml" = inr out /\
    getitem out "server_url" = inr url /\
    getitem out "server_certificate_path" = inr cert /\
    getitem out "server_private_key_path" = inr key /\
    getitem out "certificates" = inr certificates /\
    snd (server_from_yaml plain_library "cloud_server_config.yaml" [])
    = snd (server_with_certificates plain_library url cert key
             (Some certificates) []) /\
    fst (server_from_yaml plain_library "cloud_server_config.yaml" [])
    = match fst (server_with_certificates plain_library url cert key
                   (Some certificates) []) with
      | inr (server, _) => inr server
      | inl e => inl e
      end.
Proof.
  apply (server_from_yaml_reads_first plain_library
           "cloud_server_config.yaml" []).
  reflexivity.
Defined.
